(** * Originlytics AI detector: a shallow embedding of [python/ai_detector.py]

    Definitions, in the order of the source file:

    - [Py]: the part of the Python runtime the detector relies on
      (exceptions, [str.strip], [str.split], [str.lower], [range], slices,
      insertion-ordered dictionaries, [round], [statistics]);
    - [ModelCache]: [_MODEL_CACHE], [get_cached_model],
      [get_cached_classifier] and [preload_models], run by one caller and
      by two callers on worker threads;
    - [chunk_text];
    - [detect_ai_content_simple] (the statistical heuristics);
    - [detect_roberta], [detect_binoculars], [detect_ai_content_advanced]
      and [analyze_ai_likelihood].

    The properties follow the definitions.

    Numbers.  Python [int] is [Z].  In the heuristics a [float] is the
    rational value of a double: [statistics.mean], [statistics.stdev] and
    their quotient round to the nearest double, ties to even, as CPython
    3.11 does ([float_of_Q], [float_sqrt_of_Q]), and [0.3] is the double
    nearest to 3/10; the exponent range of a double is not modelled, data
    that fit in memory stay far inside it.  The ratios of checks 2 to 4
    are compared exactly.  In the model-backed detectors, which take
    exponentials, a [float] is a real number ([R]) and rounding is not
    modelled.

    Text.  A Python [str] is a [string] whose characters are code points
    below 256; [isspace] and [lower] are Python's on that range.

    Environment.  The pretrained models, the imports and the formatting of
    floats are inputs of the detector ([environment]). *)

From Stdlib Require Import ZArith List String Ascii Bool Lia Arith.
From Stdlib Require Import QArith Qround Qpower.
From Stdlib Require Import Reals Lra.
From Stdlib Require Lqa.
Import ListNotations.

#[local] Set Warnings "-register-all".

Open Scope string_scope.
Open Scope Z_scope.

(* ===================================================================== *)
(** * The Python runtime *)
(* ===================================================================== *)

Module Py.

(** ** Exceptions and the error monad *)

Inductive exn : Type :=
| ValueError
| ZeroDivisionError
| StatisticsError
| KeyError
| TypeError
| ImportError
| RuntimeError
| OverflowError.

Inductive result (A : Type) : Type :=
| Ok (a : A)
| Raise (e : exn).
Arguments Ok {A} a.
Arguments Raise {A} e.

Definition bind {A B} (m : result A) (f : A -> result B) : result B :=
  match m with
  | Ok a => f a
  | Raise e => Raise e
  end.

(** [try: body except Exception: handler] *)
Definition try_except {A} (body : result A) (handler : exn -> A) : A :=
  match body with
  | Ok a => a
  | Raise e => handler e
  end.

(** [type(e).__name__] *)
Definition exn_name (e : exn) : string :=
  match e with
  | ValueError => "ValueError"
  | ZeroDivisionError => "ZeroDivisionError"
  | StatisticsError => "StatisticsError"
  | KeyError => "KeyError"
  | TypeError => "TypeError"
  | ImportError => "ImportError"
  | RuntimeError => "RuntimeError"
  | OverflowError => "OverflowError"
  end.

Declare Scope py_scope.
Delimit Scope py_scope with py.
Notation "x <- m ;; k" := (bind m (fun x => k))
  (at level 61, m at next level, right associativity) : py_scope.

(** [[f(x) for x in xs]], stopping at the first exception. *)
Fixpoint map_result {A B} (f : A -> result B) (xs : list A) : result (list B) :=
  match xs with
  | [] => Ok []
  | x :: xs' =>
      bind (f x) (fun y => bind (map_result f xs') (fun ys => Ok (y :: ys)))
  end.

(** [enumerate(xs)] *)
Definition enumerate {A} (xs : list A) : list (Z * A) :=
  combine (map Z.of_nat (seq 0 (List.length xs))) xs.

(** ** Characters and strings *)

(** [str.isspace] on one character: TAB, LF, VT, FF, CR, FS, GS, RS, US,
    SPACE, NEL and NBSP. *)
Definition isspace (c : ascii) : bool :=
  let n := nat_of_ascii c in
  ((9 <=? n) && (n <=? 13) || (28 <=? n) && (n <=? 32)
   || (n =? 133) || (n =? 160))%nat.

(** [str.lower] on one character: A-Z and the Latin-1 capitals. *)
Definition lower_char (c : ascii) : ascii :=
  let n := nat_of_ascii c in
  if ((65 <=? n) && (n <=? 90) || (192 <=? n) && (n <=? 222) && negb (n =? 215))%nat
  then ascii_of_nat (n + 32) else c.

Fixpoint lower (s : string) : string :=
  match s with
  | EmptyString => EmptyString
  | String c s' => String (lower_char c) (lower s')
  end.

Definition len (s : string) : Z := Z.of_nat (String.length s).

Fixpoint lstrip (s : string) : string :=
  match s with
  | EmptyString => EmptyString
  | String c s' => if isspace c then lstrip s' else s
  end.

Fixpoint rstrip (s : string) : string :=
  match s with
  | EmptyString => EmptyString
  | String c s' =>
      match rstrip s' with
      | EmptyString => if isspace c then EmptyString else String c EmptyString
      | r => String c r
      end
  end.

(** [s.strip()] *)
Definition strip (s : string) : string := rstrip (lstrip s).

Definition snoc (s : string) (c : ascii) : string := s ++ String c EmptyString.

Definition is_empty (s : string) : bool :=
  match s with EmptyString => true | _ => false end.

(** [s.split()]: the maximal runs of non-space characters.  [cur] is the
    word being read. *)
Fixpoint split_from (cur s : string) : list string :=
  match s with
  | EmptyString => if is_empty cur then [] else [cur]
  | String c s' =>
      if isspace c
      then (if is_empty cur then split_from EmptyString s'
            else cur :: split_from EmptyString s')
      else split_from (snoc cur c) s'
  end.

Definition split (s : string) : list string := split_from EmptyString s.

(** [s.split(sep)] for a one-character separator: empty pieces are kept. *)
Fixpoint split_on_from (sep : ascii) (cur s : string) : list string :=
  match s with
  | EmptyString => [cur]
  | String c s' =>
      if Ascii.eqb c sep then cur :: split_on_from sep EmptyString s'
      else split_on_from sep (snoc cur c) s'
  end.

Definition split_on (sep : ascii) (s : string) : list string :=
  split_on_from sep EmptyString s.

(** [sep.join(ws)] *)
Fixpoint join (sep : string) (ws : list string) : string :=
  match ws with
  | [] => EmptyString
  | [w] => w
  | w :: ws' => w ++ sep ++ join sep ws'
  end.

(** [sub in s] *)
Fixpoint contains (sub s : string) : bool :=
  String.prefix sub s ||
  match s with
  | EmptyString => false
  | String _ s' => contains sub s'
  end.

(** [x in xs] for a list of strings *)
Definition mem (x : string) (xs : list string) : bool :=
  existsb (String.eqb x) xs.

(** [str(n)] for a non-negative integer *)
Fixpoint digits (fuel n : nat) (acc : string) : string :=
  match fuel with
  | O => acc
  | S f =>
      let acc' := String (ascii_of_nat (48 + n mod 10)) acc in
      if (n <? 10)%nat then acc' else digits f (n / 10) acc'
  end.

Definition str_of_nat (n : nat) : string := digits (S n) n EmptyString.

(** ** [range] and slices *)

(** The length of [range(start, stop, step)], as CPython computes it. *)
Definition range_len (start stop step : Z) : Z :=
  if 0 <? step then
    if start <? stop then 1 + (stop - 1 - start) / step else 0
  else if step <? 0 then
    if stop <? start then 1 + (start - 1 - stop) / (- step) else 0
  else 0.

Definition range (start stop step : Z) : result (list Z) :=
  if step =? 0 then Raise ValueError
  else Ok (map (fun k => start + Z.of_nat k * step)
               (seq 0 (Z.to_nat (range_len start stop step)))).

(** A slice bound: negative bounds count from the end, and every bound is
    clamped to the list. *)
Definition clamp_index (n i : Z) : Z :=
  if i <? 0 then Z.max 0 (i + n) else Z.min i n.

(** [l[i:j]] *)
Definition slice {A} (l : list A) (i j : Z) : list A :=
  let n := Z.of_nat (List.length l) in
  let a := clamp_index n i in
  let b := clamp_index n j in
  firstn (Z.to_nat (b - a)) (skipn (Z.to_nat a) l).

(** ** Values and dictionaries *)

(** The values the detector puts in its result objects. *)
Inductive value : Type :=
| VNone
| VBool (b : bool)
| VInt (z : Z)
| VFloat (r : R)
| VStr (s : string)
| VList (l : list value)
| VDict (d : list (string * value)).

(** A [dict] with string keys, in insertion order. *)
Definition dict : Type := list (string * value).

Fixpoint dict_get (d : dict) (k : string) : option value :=
  match d with
  | [] => None
  | (k', v) :: d' => if String.eqb k k' then Some v else dict_get d' k
  end.

(** [k in d] *)
Definition dict_has (d : dict) (k : string) : bool :=
  match dict_get d k with Some _ => true | None => false end.

(** [d[k]] *)
Definition getitem (d : dict) (k : string) : result value :=
  match dict_get d k with Some v => Ok v | None => Raise KeyError end.

(** [d.get(k, default)] *)
Definition get_default (d : dict) (k : string) (default : value) : value :=
  match dict_get d k with Some v => v | None => default end.

(** [d[k] = v]: an existing key keeps its place, a new key goes last. *)
Fixpoint dict_set (d : dict) (k : string) (v : value) : dict :=
  match d with
  | [] => [(k, v)]
  | (k', v') :: d' =>
      if String.eqb k k' then (k, v) :: d' else (k', v') :: dict_set d' k v
  end.

(** Truth value of an optional dictionary ([None] and [{}] are false). *)
Definition truthy (r : option dict) : bool :=
  match r with
  | None | Some [] => false
  | Some _ => true
  end.

(** [v == s] for a string literal [s] *)
Definition eq_str (v : value) (s : string) : bool :=
  match v with VStr s' => String.eqb s' s | _ => false end.

(** The number held by a value, for arithmetic on it. *)
Definition as_float (v : value) : result R :=
  match v with
  | VInt z => Ok (IZR z)
  | VFloat r => Ok r
  | _ => Raise TypeError
  end.

Definition as_list (v : value) : result (list value) :=
  match v with
  | VList l => Ok l
  | _ => Raise TypeError
  end.

(** ** Floating-point helpers, on exact reals *)

(** Nearest integer, ties to the even one. *)
Definition round_half_even (x : R) : Z :=
  let f := Zfloor x in
  let d := (x - IZR f)%R in
  if Rlt_dec d (1 / 2) then f
  else if Rlt_dec (1 / 2) d then f + 1
  else if Z.even f then f else f + 1.

(** [round(x, ndigits)] *)
Definition round (x : R) (ndigits : nat) : R :=
  (IZR (round_half_even (x * 10 ^ ndigits)) / 10 ^ ndigits)%R.

Definition sum_R (l : list R) : R := fold_right Rplus 0%R l.

(** [min(l)] and [max(l)]; both raise on an empty list. *)
Definition min_R (l : list R) : result R :=
  match l with
  | [] => Raise ValueError
  | x :: l' => Ok (fold_left Rmin l' x)
  end.

Definition max_R (l : list R) : result R :=
  match l with
  | [] => Raise ValueError
  | x :: l' => Ok (fold_left Rmax l' x)
  end.

(** [x / n] for a float [x] and a list length [n] *)
Definition div_len (x : R) (n : nat) : result R :=
  match n with
  | O => Raise ZeroDivisionError
  | _ => Ok (x / INR n)%R
  end.

(** ** [float] in the [statistics] module

    A double is the rational [m * 2^e] with [m] of at most 53 bits.
    Conversions and operations return the double nearest to the exact
    result, ties to the even significand. *)

Definition sum_Z (data : list Z) : Z := fold_right Z.add 0 data.

Definition Qltb (x y : Q) : bool := negb (Qle_bool y x).

(** [floor(log2(x))], for [0 < x] *)
Definition Qlog2 (x : Q) : Z :=
  let t := Z.log2 (Qnum x) - Z.log2 (Zpos (Qden x)) in
  if Qltb x (2 ^ t)%Q then t - 1 else t.

(** Nearest integer, ties to the even one. *)
Definition Qround_half_even (x : Q) : Z :=
  let f := Qfloor x in
  match (x - inject_Z f ?= 1 # 2)%Q with
  | Lt => f
  | Gt => f + 1
  | Eq => if Z.even f then f else f + 1
  end.

(** [float(x)] for a fraction [x >= 0], also [n / d] for integers: the
    significand is [x / 2^e] rounded, with [2^52 <= x / 2^e < 2^53]. *)
Definition float_of_Q (x : Q) : Q :=
  if Qle_bool x 0 then 0%Q
  else
    let e := Qlog2 x - 52 in
    Qred (inject_Z (Qround_half_even (x / 2 ^ e)) * 2 ^ e)%Q.

(** [statistics._float_sqrt_of_frac]: the double nearest to the square
    root of [x >= 0].  With [2^104 <= x / 4^e < 2^106] the significand is
    the integer square root of [x / 4^e], or the next integer when
    [x / 4^e] is above [(m + 1/2)^2]. *)
Definition float_sqrt_of_Q (x : Q) : Q :=
  if Qle_bool x 0 then 0%Q
  else
    let e := (Qlog2 x - 104) / 2 in
    let s := (x / 2 ^ (2 * e))%Q in
    let m := Z.sqrt (Qfloor s) in
    let m' := match (s ?= inject_Z (m * m + m) + (1 # 4))%Q with
              | Lt => m
              | Gt => m + 1
              | Eq => if Z.even m then m else m + 1
              end in
    Qred (inject_Z m' * 2 ^ e)%Q.

(** [x / y] on floats *)
Definition float_truediv (x y : Q) : result Q :=
  if Qeq_bool y 0 then Raise ZeroDivisionError
  else Ok (float_of_Q (x / y)).

(** ** The [statistics] module, on integer data *)

(** The mean as a fraction. *)
Definition exact_mean (data : list Z) : Q :=
  sum_Z data # Pos.of_nat (List.length data).

(** [statistics.mean(data)]: the exact mean, converted to [float]. *)
Definition mean (data : list Z) : result Q :=
  match data with
  | [] => Raise StatisticsError
  | _ => Ok (float_of_Q (exact_mean data))
  end.

(** The sample variance, exact as [statistics] computes it with
    fractions: the squared deviations from the mean over [n - 1], that is
    the sum of the [(n * x - sum)^2] over [n^2 * (n - 1)]. *)
Definition sample_variance (data : list Z) : Q :=
  let n := Z.of_nat (List.length data) in
  let total := sum_Z data in
  sum_Z (map (fun x => (n * x - total) * (n * x - total)) data)
  # Z.to_pos (n * n * (n - 1)).

(** [statistics.stdev(data)]: it needs two data points; the square root
    of the exact variance, correctly rounded. *)
Definition stdev (data : list Z) : result Q :=
  if (List.length data <? 2)%nat then Raise StatisticsError
  else Ok (float_sqrt_of_Q (sample_variance data)).

End Py.

Import Py.

(* ===================================================================== *)
(** * The model cache *)
(* ===================================================================== *)

Module ModelCache.

Section Cache.

(** A loaded [(tokenizer, model, device)] triple. *)
Variable handle : Type.

(** The underlying loads: [AutoTokenizer] and [AutoModelForCausalLM]
    (resp. [AutoModelForSequenceClassification]) [.from_pretrained],
    [eval] and the move to the device.  They succeed or raise. *)
Variable load_causal_lm : string -> result handle.
Variable load_classifier : string -> result handle.

(** [_MODEL_CACHE] *)
Definition cache : Type := list (string * handle).

Fixpoint lookup (c : cache) (k : string) : option handle :=
  match c with
  | [] => None
  | (k', h) :: c' => if String.eqb k k' then Some h else lookup c' k
  end.

Fixpoint store (c : cache) (k : string) (h : handle) : cache :=
  match c with
  | [] => [(k, h)]
  | (k', h') :: c' =>
      if String.eqb k k' then (k, h) :: c' else (k', h') :: store c' k h
  end.

(** The shared state: the cache, and the log of the underlying loads that
    were started (the keys, in order). *)
Record shared : Type := {
  entries : cache;
  loads : list string
}.

(** [get_cached_model] and [get_cached_classifier] differ in the cache
    key and in the loader; [get_cached] is their common body, run by one
    caller without interruption. *)
Definition get_cached (load : string -> result handle)
  (cache_key model_name : string) (s : shared) : result handle * shared :=
  match lookup (entries s) cache_key with
  | None =>
      let s := {| entries := entries s; loads := loads s ++ [cache_key] |} in
      match load model_name with
      | Ok h =>
          let s := {| entries := store (entries s) cache_key h;
                      loads := loads s |} in
          (match lookup (entries s) cache_key with
           | Some h' => Ok h'
           | None => Raise KeyError
           end, s)
      | Raise _ => (Raise RuntimeError, s)
      end
  | Some h => (Ok h, s)
  end.

Definition get_cached_model (model_name : string) : shared -> result handle * shared :=
  get_cached load_causal_lm model_name model_name.

Definition classifier_key (model_name : string) : string :=
  "classifier:" ++ model_name.

Definition get_cached_classifier (model_name : string)
  : shared -> result handle * shared :=
  get_cached load_classifier (classifier_key model_name) model_name.

(** [preload_models]: [True] when the three loads succeed. *)
Definition preload_models (s : shared) : bool * shared :=
  match get_cached_classifier "Hello-SimpleAI/chatgpt-detector-roberta" s with
  | (Raise _, s) => (false, s)
  | (Ok _, s) =>
      match get_cached_model "gpt2" s with
      | (Raise _, s) => (false, s)
      | (Ok _, s) =>
          match get_cached_model "EleutherAI/gpt-neo-125M" s with
          | (Raise _, s) => (false, s)
          | (Ok _, s) => (true, s)
          end
      end
  end.

(** ** Two callers on worker threads

    A caller of [get_cached_model] can be suspended between its
    statements: after the membership test, during the load, before the
    store, before the final lookup.  [pc] is where a caller stands. *)
Inductive pc : Type :=
| AtCheck
| AtLoad
| AtStore (h : handle)
| AtReturn
| Returned (r : result handle).

(** One statement of a caller of [get_cached_model(model_name)]. *)
Definition step (model_name : string) (s : shared) (p : pc) : shared * pc :=
  match p with
  | AtCheck =>
      match lookup (entries s) model_name with
      | None => (s, AtLoad)
      | Some _ => (s, AtReturn)
      end
  | AtLoad =>
      let s := {| entries := entries s; loads := loads s ++ [model_name] |} in
      match load_causal_lm model_name with
      | Ok h => (s, AtStore h)
      | Raise _ => (s, Returned (Raise RuntimeError))
      end
  | AtStore h =>
      ({| entries := store (entries s) model_name h; loads := loads s |},
       AtReturn)
  | AtReturn =>
      (s, Returned (match lookup (entries s) model_name with
                    | Some h => Ok h
                    | None => Raise KeyError
                    end))
  | Returned r => (s, Returned r)
  end.

(** Two callers of the same key, and the shared state. *)
Record config : Type := {
  mem : shared;
  first : pc;
  second : pc
}.

(** A schedule names, turn by turn, the caller that runs one statement
    ([true]: the first caller). *)
Definition turn (model_name : string) (c : config) (who : bool) : config :=
  if who then
    let '(s, p) := step model_name (mem c) (first c) in
    {| mem := s; first := p; second := second c |}
  else
    let '(s, p) := step model_name (mem c) (second c) in
    {| mem := s; first := first c; second := p |}.

Definition run (model_name : string) (schedule : list bool) (c : config)
  : config :=
  fold_left (turn model_name) schedule c.

Definition start (c : cache) : config :=
  {| mem := {| entries := c; loads := [] |}; first := AtCheck; second := AtCheck |}.

Definition has_returned (p : pc) : bool :=
  match p with Returned _ => true | _ => false end.

Definition finished (c : config) : bool :=
  has_returned (first c) && has_returned (second c).

(** The number of underlying loads of [model_name] so far. *)
Definition load_count (model_name : string) (s : shared) : nat :=
  count_occ string_dec (loads s) model_name.

End Cache.

Arguments AtCheck {handle}.
Arguments AtLoad {handle}.
Arguments AtStore {handle} h.
Arguments AtReturn {handle}.
Arguments Returned {handle} r.
Arguments lookup {handle} c k.
Arguments store {handle} c k h.
Arguments entries {handle} s.
Arguments loads {handle} s.
Arguments Build_shared {handle} entries loads.
Arguments get_cached {handle} load cache_key model_name s.
Arguments get_cached_model {handle} load_causal_lm model_name s.
Arguments get_cached_classifier {handle} load_classifier model_name s.
Arguments preload_models {handle} load_causal_lm load_classifier s.
Arguments step {handle} load_causal_lm model_name s p.
Arguments mem {handle} c.
Arguments first {handle} c.
Arguments second {handle} c.
Arguments Build_config {handle} mem first second.
Arguments turn {handle} load_causal_lm model_name c who.
Arguments run {handle} load_causal_lm model_name schedule c.
Arguments start {handle} c.
Arguments has_returned {handle} p.
Arguments finished {handle} c.
Arguments load_count {handle} model_name s.

End ModelCache.

(* ===================================================================== *)
(** * [chunk_text] *)
(* ===================================================================== *)

(** The loop body of [chunk_text]: one window, kept when it has at least
    50 words. *)
Definition chunk_step (words : list string) (chunk_size : Z)
  (chunks : list string) (i : Z) : list string :=
  let chunk_words := slice words i (i + chunk_size) in
  if 50 <=? Z.of_nat (List.length chunk_words)
  then chunks ++ [join " " chunk_words]
  else chunks.

Definition chunk_text (text : string) (chunk_size overlap : Z)
  : result (list string) :=
  let words := split text in
  let chunks := [] in
  if Z.of_nat (List.length words) <=? chunk_size then Ok [text]
  else
    (starts <- range 0 (Z.of_nat (List.length words)) (chunk_size - overlap) ;;
     Ok (fold_left (chunk_step words chunk_size) starts chunks))%py.

(** What the specification says of the long case: the windows of [size]
    words taken every [stride] words.  [fuel] bounds the number of
    windows; the length of the word list is enough when [stride > 0]. *)
Fixpoint spec_windows (fuel size stride : nat) (ws : list string)
  : list (list string) :=
  match fuel, ws with
  | O, _ => []
  | _, [] => []
  | S f, _ => firstn size ws :: spec_windows f size stride (skipn stride ws)
  end.

Definition spec_chunks (size stride : nat) (ws : list string) : list string :=
  map (join " ")
      (filter (fun w => (50 <=? List.length w)%nat)
              (spec_windows (List.length ws) size stride ws)).

(* ===================================================================== *)
(** * [detect_ai_content_simple]: the statistical heuristics *)
(* ===================================================================== *)

Definition personal_pronouns : list string :=
  ["i"; "me"; "my"; "mine"; "we"; "us"; "our"].

Definition transitions : list string :=
  ["furthermore"; "moreover"; "additionally"; "consequently";
   "therefore"; "thus"; "hence"; "accordingly"; "nonetheless"].

Definition contractions : list string :=
  ["n't"; "'ll"; "'ve"; "'re"; "'m"; "'s"].

(** The scorer's running state: [score] and [indicators]. *)
Definition scoring : Type := Z * list string.

Definition add_points (st : scoring) (points : Z) (indicator : string)
  : scoring :=
  (fst st + points, (snd st ++ [indicator])%list).

(** [lengths = [len(s.split()) for s in sentences if s.strip()]] *)
Definition sentence_lengths (sentences : list string) : list Z :=
  map (fun s => Z.of_nat (List.length (split s)))
      (filter (fun s => negb (is_empty (strip s))) sentences).

(** [cv = statistics.stdev(lengths) / statistics.mean(lengths)
          if statistics.mean(lengths) > 0 else 0] *)
Definition coefficient_of_variation (lengths : list Z) : result Q :=
  (m <- mean lengths ;;
   if Qltb 0 m
   then (sd <- stdev lengths ;;
         m' <- mean lengths ;;
         float_truediv sd m')
   else Ok 0%Q)%py.

(** Check 1: sentence uniformity; [0.3] is the double nearest to 3/10. *)
Definition check_uniformity (sentences : list string) (st : scoring)
  : result scoring :=
  if (3 <? List.length sentences)%nat then
    let lengths := sentence_lengths sentences in
    match lengths with
    | [] => Ok st
    | _ =>
        (cv <- coefficient_of_variation lengths ;;
         Ok (if Qltb cv (float_of_Q (3 # 10))
             then add_points st 30 "Low sentence length variance"
             else st))%py
    end
  else Ok st.

(** [starts]: the lower-cased first word of every non-blank sentence. *)
Definition sentence_starts (sentences : list string) : list string :=
  map (fun s => lower (hd EmptyString (split (strip s))))
      (filter (fun s => negb (is_empty (strip s))
                        && (0 <? List.length (split (strip s)))%nat)
              sentences).

(** Check 2: repetitive sentence structure; [len(Counter(starts))] is the
    number of distinct starts. *)
Definition check_starters (sentences : list string) (st : scoring) : scoring :=
  let starts := sentence_starts sentences in
  match starts with
  | [] => st
  | _ =>
      let freq := nodup string_dec starts in
      if Qltb (inject_Z (Z.of_nat (List.length freq)))
              (inject_Z (Z.of_nat (List.length starts)) * (5 # 10))
      then add_points st 25 "Repetitive sentence starters"
      else st
  end.

Definition count_in (vocabulary words : list string) : nat :=
  List.length (filter (fun w => mem w vocabulary) words).

(** Check 3: lack of personal pronouns. *)
Definition check_pronouns (words : list string) (st : scoring) : scoring :=
  let pronoun_count := count_in personal_pronouns words in
  let pronoun_ratio :=
    match words with
    | [] => 0%Q
    | _ => Z.of_nat pronoun_count # Pos.of_nat (List.length words)
    end in
  if Qltb pronoun_ratio (1 # 100)
  then add_points st 20 "Lack of personal pronouns"
  else st.

(** Check 4: excessive transitional phrases. *)
Definition check_transitions (words : list string) (st : scoring) : scoring :=
  let transition_count := count_in transitions words in
  if Qltb (inject_Z (Z.of_nat (List.length words)) * (2 # 100))
          (inject_Z (Z.of_nat transition_count))
  then add_points st 15 "High transitional phrase density"
  else st.

(** Check 5: no contraction in a text of more than 50 words. *)
Definition check_contractions (text : string) (words : list string)
  (st : scoring) : scoring :=
  let has_contractions := existsb (fun c => contains c text) contractions in
  if negb has_contractions && (50 <? List.length words)%nat
  then add_points st 10 "Lack of contractions"
  else st.

(** Checks 2 to 5 in the order of the source. *)
Definition later_checks (text : string) (st : scoring) : scoring :=
  let sentences := split_on "." text in
  let words := split (lower text) in
  check_contractions text words
    (check_transitions words
       (check_pronouns words
          (check_starters sentences st))).

Definition heuristic_scoring (text : string) : result scoring :=
  (st <- check_uniformity (split_on "." text) (0, []) ;;
   Ok (later_checks text st))%py.

Definition heuristic_result (st : scoring) : dict :=
  [("ai_likelihood", VInt (Z.min 100 (fst st)));
   ("confidence", VFloat 0.7);
   ("indicators", VList (map VStr (snd st)));
   ("model", VStr "statistical_heuristics");
   ("note", VStr "Using simplified detection. Install transformers for better accuracy.")].

Definition heuristic_error_result (note : string) : dict :=
  [("ai_likelihood", VInt 50);
   ("confidence", VFloat 0.3);
   ("indicators", VList [VStr "Error during analysis"]);
   ("model", VStr "fallback");
   ("note", VStr note)].

(* ===================================================================== *)
(** * The model-backed detectors, the ensemble and the entry point *)
(* ===================================================================== *)

(** One entry of [chunk_results] in [detect_roberta]. *)
Record roberta_chunk_result : Type := {
  r_chunk_id : Z;
  r_ai_likelihood : R;
  r_word_count : Z
}.

Definition roberta_chunk_value (r : roberta_chunk_result) : value :=
  VDict [("chunk_id", VInt (r_chunk_id r));
         ("ai_likelihood", VFloat (r_ai_likelihood r));
         ("word_count", VInt (r_word_count r))].

(** One entry of [chunk_results] in [detect_binoculars]. *)
Record binoculars_chunk_result : Type := {
  b_chunk_id : Z;
  b_ai_likelihood : R;
  b_loss_a : R;
  b_loss_b : R;
  b_ratio : R;
  b_word_count : Z
}.

Definition binoculars_chunk_value (r : binoculars_chunk_result) : value :=
  VDict [("chunk_id", VInt (b_chunk_id r));
         ("ai_likelihood", VFloat (b_ai_likelihood r));
         ("loss_a", VFloat (b_loss_a r));
         ("loss_b", VFloat (b_loss_b r));
         ("ratio", VFloat (b_ratio r));
         ("word_count", VInt (b_word_count r))].

(** The statistics both detectors take across their chunks: average,
    minimum, maximum and (population) standard deviation. *)
Definition aggregate (scores : list R) : result (R * R * R * R) :=
  (avg_score <- div_len (sum_R scores) (List.length scores) ;;
   min_score <- min_R scores ;;
   max_score <- max_R scores ;;
   variance <- div_len (sum_R (map (fun s => (s - avg_score) ^ 2)%R scores))
                       (List.length scores) ;;
   Ok (avg_score, min_score, max_score, sqrt variance))%py.

Definition chunk_analysis (num_chunks : nat) (stats : R * R * R * R)
  (chunks : list value) : value :=
  let '(avg_score, min_score, max_score, std_score) := stats in
  VDict [("num_chunks", VInt (Z.of_nat num_chunks));
         ("avg_score", VFloat (round avg_score 2));
         ("min_score", VFloat (round min_score 2));
         ("max_score", VFloat (round max_score 2));
         ("std_dev", VFloat (round std_score 2));
         ("chunks", VList chunks)].

(** The comparator's score for one chunk, from the two per-token losses. *)
Definition binoculars_ratio (loss_a loss_b : R) : R :=
  ((loss_a - loss_b) / (Rabs loss_b + 1e-6))%R.

Definition binoculars_chunk_score (loss_a loss_b : R) : R :=
  let ratio := binoculars_ratio loss_a loss_b in
  let raw := (1 / (1 + exp (- ratio * 3.0)))%R in
  (raw * 100)%R.

Definition roberta_model_name : string := "Hello-SimpleAI/chatgpt-detector-roberta".
Definition model_a : string := "gpt2".
Definition model_b : string := "EleutherAI/gpt-neo-125M".
Definition binoculars_model_name : string :=
  "binoculars:" ++ model_a ++ "|" ++ model_b.

(** The calls the entry point can make, for the call log. *)
Inductive call : Type :=
| CallSimple
| CallAdvanced
| CallRoberta
| CallBinoculars.

Definition unwrap (r : option dict) : dict :=
  match r with Some d => d | None => [] end.

(** One turn of the [as_completed] loop: a settled task's result is filed
    by the model name it carries. *)
Definition settle (st : option dict * option dict) (result : option dict)
  : option dict * option dict :=
  let '(roberta_result, binoculars_result) := st in
  match get_default (unwrap result) "model" (VStr "") with
  | VStr model =>
      if truthy result && contains "roberta" (lower model)
      then (result, binoculars_result)
      else if truthy result && contains "binoculars" (lower model)
      then (roberta_result, result)
      else st
  | _ => st
  end.

(** The decision taken once both tasks have settled; [None] stands for
    "both failed". *)
Definition combine_results (roberta_result binoculars_result : option dict)
  : result (option dict) :=
  if truthy roberta_result && truthy binoculars_result then
    let r := unwrap roberta_result in
    let b := unwrap binoculars_result in
    (r_score <- getitem r "ai_likelihood" ;;
     b_score <- getitem b "ai_likelihood" ;;
     r_num <- as_float r_score ;;
     b_num <- as_float b_score ;;
     let combined_score := (r_num * 0.6 + b_num * 0.4)%R in
     r_indicators <- bind (getitem r "indicators") as_list ;;
     b_indicators <- bind (getitem b "indicators") as_list ;;
     Ok (Some
       [("ai_likelihood", VFloat (round combined_score 2));
        ("confidence", VFloat 0.92);
        ("indicators", VList (r_indicators ++ b_indicators)%list);
        ("model", VStr "combined:roberta+binoculars");
        ("note", VStr "Combined RoBERTa (60%) and Binoculars (40%) detection");
        ("roberta_score", r_score);
        ("binoculars_score", b_score);
        ("individual_results",
         VDict [("roberta", VDict r); ("binoculars", VDict b)])]))%py
  else if truthy roberta_result then Ok roberta_result
  else if truthy binoculars_result then Ok binoculars_result
  else Ok None.

Definition too_short_result : dict :=
  [("error", VStr "Text too short for AI detection");
   ("ai_likelihood", VInt 50);
   ("confidence", VInt 0);
   ("indicators", VList [])].

(** [if k in src: dst[k] = src[k]] *)
Definition pass_through (src : dict) (k : string) (dst : dict) : dict :=
  match dict_get src k with
  | Some v => dict_set dst k v
  | None => dst
  end.

(** ** What the detector takes from its environment *)

Record environment : Type := {
  (** [str(e)], [f'{x:.1f}'] and [str(x)] for a float [x] *)
  str_exn : exn -> string;
  format_1f : R -> string;
  str_float : R -> string;
  (** whether [transformers] and [torch] can be imported *)
  transformers_available : bool;
  torch_available : bool;
  (** [get_cached_classifier(model_name)]: the load succeeds or raises *)
  load_classifier : string -> result unit;
  (** tokenizer, classifier and softmax on one chunk: [probs[0][1].item()] *)
  classifier_ai_prob : string -> result R;
  (** [compute_loss(model_name, text_input)], cache lookup included *)
  compute_loss : string -> string -> result R;
  (** which of the two worker tasks [as_completed] yields first *)
  roberta_first : bool;
  (** [ALLOW_ADVANCED == '1'], the cache directory, and what
      [import transformers] reports *)
  allow_advanced : bool;
  cache_dir : string;
  cache_dir_writable : bool;
  transformers_version : string;
  transformers_location : string
}.

Section Detector.

Variable env : environment.

(** ** [detect_ai_content_simple] *)

Definition detect_ai_content_simple (text : string) : dict :=
  try_except
    (st <- heuristic_scoring text ;; Ok (heuristic_result st))%py
    (fun e => heuristic_error_result (env.(str_exn) e)).

(** ** [detect_roberta] *)

Definition import_models : result unit :=
  if env.(transformers_available) && env.(torch_available) then Ok tt
  else Raise ImportError.

Definition roberta_chunk (ic : Z * string) : result roberta_chunk_result :=
  let '(i, chunk) := ic in
  (ai_prob <- env.(classifier_ai_prob) chunk ;;
   Ok {| r_chunk_id := i;
         r_ai_likelihood := (ai_prob * 100)%R;
         r_word_count := Z.of_nat (List.length (split chunk)) |})%py.

Definition roberta_confidence (num_chunks : string) (stats : R * R * R * R)
  : R * string :=
  let '(avg_score, min_score, max_score, std_score) := stats in
  if Rlt_dec std_score 10 then
    (0.92%R, "Consistent AI pattern across " ++ num_chunks
             ++ " chunks (std: " ++ env.(format_1f) std_score ++ "%)")
  else if Rlt_dec std_score 20 then
    (0.85%R, "Moderate variance across " ++ num_chunks
             ++ " chunks (std: " ++ env.(format_1f) std_score ++ "%)")
  else
    (0.78%R, "Variable scores (range: " ++ env.(format_1f) min_score ++ "%-"
             ++ env.(format_1f) max_score ++ "%) suggest mixed human/AI content").

Definition detect_roberta_body (text : string) : result dict :=
  (_ <- import_models ;;
   _ <- env.(load_classifier) roberta_model_name ;;
   chunks <- chunk_text text 400 100 ;;
   chunk_results <- map_result roberta_chunk (enumerate chunks) ;;
   let scores := map r_ai_likelihood chunk_results in
   stats <- aggregate scores ;;
   let '(avg_score, min_score, max_score, std_score) := stats in
   let num_chunks := str_of_nat (List.length chunks) in
   let '(confidence, note) := roberta_confidence num_chunks stats in
   Ok [("ai_likelihood", VFloat (round avg_score 2));
       ("confidence", VFloat confidence);
       ("indicators",
        VList [VStr ("Average across " ++ num_chunks ++ " chunks: "
                     ++ env.(format_1f) avg_score ++ "%");
               VStr ("Score range: " ++ env.(format_1f) min_score ++ "% to "
                     ++ env.(format_1f) max_score ++ "%");
               VStr ("Standard deviation: " ++ env.(format_1f) std_score ++ "%")]);
       ("model", VStr roberta_model_name);
       ("note", VStr note);
       ("chunk_analysis",
        chunk_analysis (List.length chunks) stats
                       (map roberta_chunk_value chunk_results))])%py.

Definition detect_roberta (text : string) : option dict :=
  try_except (d <- detect_roberta_body text ;; Ok (Some d))%py
             (fun _ => None).

(** ** [detect_binoculars] *)

Definition binoculars_chunk (ic : Z * string)
  : result binoculars_chunk_result :=
  let '(i, chunk) := ic in
  (loss_a <- env.(compute_loss) model_a chunk ;;
   loss_b <- env.(compute_loss) model_b chunk ;;
   Ok {| b_chunk_id := i;
         b_ai_likelihood := binoculars_chunk_score loss_a loss_b;
         b_loss_a := loss_a;
         b_loss_b := loss_b;
         b_ratio := binoculars_ratio loss_a loss_b;
         b_word_count := Z.of_nat (List.length (split chunk)) |})%py.

Definition binoculars_confidence (num_chunks : string) (stats : R * R * R * R)
  : R * string :=
  let '(avg_score, min_score, max_score, std_score) := stats in
  if Rlt_dec std_score 10 then
    (0.93%R, "Consistent perplexity pattern across " ++ num_chunks
             ++ " chunks (std: " ++ env.(format_1f) std_score ++ "%)")
  else if Rlt_dec std_score 20 then
    (0.87%R, "Moderate variance across " ++ num_chunks
             ++ " chunks (std: " ++ env.(format_1f) std_score ++ "%)")
  else
    (0.80%R, "Variable perplexity scores (range: " ++ env.(format_1f) min_score
             ++ "%-" ++ env.(format_1f) max_score ++ "%) suggest mixed content").

Definition detect_binoculars_body (text : string) : result dict :=
  (_ <- import_models ;;
   chunks <- chunk_text text 700 150 ;;
   chunk_results <- map_result binoculars_chunk (enumerate chunks) ;;
   let scores := map b_ai_likelihood chunk_results in
   stats <- aggregate scores ;;
   let '(avg_score, min_score, max_score, std_score) := stats in
   avg_loss_a <- div_len (sum_R (map b_loss_a chunk_results))
                         (List.length chunk_results) ;;
   avg_loss_b <- div_len (sum_R (map b_loss_b chunk_results))
                         (List.length chunk_results) ;;
   let num_chunks := str_of_nat (List.length chunks) in
   let '(confidence, note) := binoculars_confidence num_chunks stats in
   Ok [("ai_likelihood", VFloat (round avg_score 2));
       ("confidence", VFloat confidence);
       ("indicators",
        VList [VStr ("Average across " ++ num_chunks ++ " chunks: "
                     ++ env.(format_1f) avg_score ++ "%");
               VStr ("Avg perplexity ratio: " ++ env.(str_float) (round avg_loss_a 3)
                     ++ "/" ++ env.(str_float) (round avg_loss_b 3));
               VStr ("Score range: " ++ env.(format_1f) min_score ++ "% to "
                     ++ env.(format_1f) max_score ++ "%");
               VStr ("Standard deviation: " ++ env.(format_1f) std_score ++ "%")]);
       ("model", VStr binoculars_model_name);
       ("note", VStr note);
       ("chunk_analysis",
        chunk_analysis (List.length chunks) stats
                       (map binoculars_chunk_value chunk_results))])%py.

Definition detect_binoculars (text : string) : option dict :=
  try_except (d <- detect_binoculars_body text ;; Ok (Some d))%py
             (fun _ => None).

(** ** [detect_ai_content_advanced] *)

(** The results of the two worker tasks, in the order they complete. *)
Definition completed (text : string) : list (option dict) :=
  if env.(roberta_first) then [detect_roberta text; detect_binoculars text]
  else [detect_binoculars text; detect_roberta text].

(** The function returns its result and the log of the detectors it
    called.  Any exception of the body, a failed import included, falls
    back to the heuristics. *)
Definition detect_ai_content_advanced (text : string) : dict * list call :=
  match import_models with
  | Raise _ => (detect_ai_content_simple text, [CallSimple])
  | Ok _ =>
      let '(roberta_result, binoculars_result) :=
        fold_left settle (completed text) (None, None) in
      match combine_results roberta_result binoculars_result with
      | Ok (Some d) => (d, [CallRoberta; CallBinoculars])
      | Ok None =>
          (detect_ai_content_simple text,
           [CallRoberta; CallBinoculars; CallSimple])
      | Raise _ =>
          (detect_ai_content_simple text,
           [CallRoberta; CallBinoculars; CallSimple])
      end
  end.

(** ** [analyze_ai_likelihood] *)

Definition initial_debug_info : dict :=
  ([("cache_dir", VStr env.(cache_dir));
    ("cache_dir_writable", VBool env.(cache_dir_writable))]
   ++ (if env.(transformers_available)
       then [("transformers_available", VBool true);
             ("transformers_version", VStr env.(transformers_version));
             ("transformers_location", VStr env.(transformers_location))]
       else [("transformers_available", VBool false);
             ("import_error", VStr (env.(str_exn) ImportError))]))%list.

Definition why_failed (e : exn) : value :=
  VStr (exn_name e ++ ": " ++ env.(str_exn) e).

(** The block that tries the advanced detection: the debug record and
    [advanced_result] after it, and the calls made. *)
Definition advanced_attempt (text : string) (debug_info : dict)
  : dict * option dict * list call :=
  let debug_info := dict_set debug_info "allow_advanced" (VBool env.(allow_advanced)) in
  if env.(allow_advanced) then
    if env.(transformers_available) then
      let '(advanced_result, calls) := detect_ai_content_advanced text in
      let debug_info :=
        dict_set debug_info "advanced_result_model"
          (if truthy (Some advanced_result)
           then get_default advanced_result "model" VNone
           else VNone) in
      match getitem advanced_result "model" with
      | Ok model =>
          if eq_str model "statistical_heuristics"
          then (dict_set debug_info "why_failed"
                  (VStr "advanced_detection_returned_heuristics"),
                None, CallAdvanced :: calls)
          else (dict_set debug_info "advanced_success" (VBool true),
                Some advanced_result, CallAdvanced :: calls)
      | Raise e =>
          (dict_set debug_info "why_failed" (why_failed e), None,
           CallAdvanced :: calls)
      end
    else
      (dict_set debug_info "why_failed"
         (VStr ("ImportError: " ++ env.(str_exn) ImportError)), None, [])
  else
    (dict_set debug_info "why_failed" (VStr "ALLOW_ADVANCED=0"), None, []).

(** The merge of the two results at the end of the entry point. *)
Definition final_result (heuristic_result : dict)
  (advanced_result : option dict) (debug_info : dict) : result dict :=
  if truthy advanced_result then
    let a := unwrap advanced_result in
    (ai_likelihood <- getitem a "ai_likelihood" ;;
     confidence <- getitem a "confidence" ;;
     indicators <- getitem a "indicators" ;;
     model <- getitem a "model" ;;
     note <- getitem a "note" ;;
     heuristic_score <- getitem heuristic_result "ai_likelihood" ;;
     heuristic_indicators <- getitem heuristic_result "indicators" ;;
     heuristic_model <- getitem heuristic_result "model" ;;
     let result :=
       [("ai_likelihood", ai_likelihood);
        ("confidence", confidence);
        ("indicators", indicators);
        ("model", model);
        ("note", note);
        ("heuristic_score", heuristic_score);
        ("heuristic_indicators", heuristic_indicators);
        ("heuristic_model", heuristic_model);
        ("_debug", VDict debug_info)] in
     Ok (pass_through a "individual_results"
           (pass_through a "binoculars_score"
              (pass_through a "roberta_score" result))))%py
  else Ok (dict_set heuristic_result "_debug" (VDict debug_info)).

(** [text] is [None] or a string.  The function returns its result, or the
    exception it lets through, and the log of the detectors called. *)
Definition analyze_ai_likelihood (text : option string)
  : result dict * list call :=
  let debug_info := initial_debug_info in
  match text with
  | None => (Ok too_short_result, [])
  | Some text =>
      if is_empty text || (len (strip text) <? 50)
      then (Ok too_short_result, [])
      else
        let heuristic_result := detect_ai_content_simple text in
        let '(debug_info, advanced_result, calls) :=
          advanced_attempt text debug_info in
        (final_result heuristic_result advanced_result debug_info,
         CallSimple :: calls)
  end.

End Detector.

Definition human_text : string :=
  "
        I can't believe what happened yesterday! My dog literally ate my homework - 
        and this time it's actually true. I was working on my essay when he jumped up 
        and grabbed it. My teacher's gonna think I'm lying for sure. Life's weird sometimes.
        ".

Definition ai_text : string :=
  "
        The analysis of educational methodologies reveals several important considerations.
        Furthermore, the implementation of technology in learning environments demonstrates 
        significant potential. Moreover, research indicates that student engagement is 
        enhanced through interactive approaches. Therefore, educators should consider 
        integrating digital tools. Consequently, learning outcomes may improve substantially.
        ".


(* ===================================================================== *)
(** * Predicates of the statements *)
(* ===================================================================== *)

(** No whitespace in [s]. *)
Fixpoint no_space (s : string) : bool :=
  match s with
  | EmptyString => true
  | String c s' => negb (isspace c) && no_space s'
  end.

(** What [split] returns: non-empty, and free of whitespace. *)
Definition is_word (w : string) : Prop :=
  is_empty w = false /\ no_space w = true.

(** A text of [n] one-letter words, for the concrete runs. *)
Definition sample_text (n : nat) : string := join " " (repeat "w" n).

(** What holds of two callers of [get_cached_model(model_name)] at every
    point of every interleaving, when the load of [model_name] yields [h]. *)
Section CacheInvariant.

Variable handle : Type.
Variable model_name : string.
Variable h : handle.

(** A bound on the loads a caller has started: none before it leaves
    [AtLoad], at most one afterwards. *)
Definition passed_load (p : ModelCache.pc handle) : nat :=
  match p with
  | ModelCache.AtCheck | ModelCache.AtLoad => 0
  | _ => 1
  end.

Definition good_mem (s : ModelCache.shared handle) : Prop :=
  forall x, ModelCache.lookup (ModelCache.entries s) model_name = Some x ->
            x = h /\ (1 <= ModelCache.load_count model_name s)%nat.

Definition good_pc (s : ModelCache.shared handle) (p : ModelCache.pc handle)
  : Prop :=
  match p with
  | ModelCache.AtCheck | ModelCache.AtLoad => True
  | ModelCache.AtStore h' =>
      h' = h /\ (1 <= ModelCache.load_count model_name s)%nat
  | ModelCache.AtReturn =>
      ModelCache.lookup (ModelCache.entries s) model_name = Some h
  | ModelCache.Returned r =>
      r = Ok h
      /\ ModelCache.lookup (ModelCache.entries s) model_name = Some h
  end.

Definition cache_invariant (c : ModelCache.config handle) : Prop :=
  good_mem (ModelCache.mem c)
  /\ good_pc (ModelCache.mem c) (ModelCache.first c)
  /\ good_pc (ModelCache.mem c) (ModelCache.second c)
  /\ (ModelCache.load_count model_name (ModelCache.mem c)
      <= passed_load (ModelCache.first c)
         + passed_load (ModelCache.second c))%nat.

End CacheInvariant.

(** The input of the entry point is below the length gate: [None], or a
    string whose stripped length is less than 50. *)
Definition too_short (text : option string) : Prop :=
  match text with
  | None => True
  | Some s => len (strip s) < 50
  end.

(** A result object with the five fields of a detection result, and no
    ['error'] field. *)
Definition has_fields (d : dict) : Prop :=
  exists a c i m n,
    dict_get d "ai_likelihood" = Some a
    /\ dict_get d "confidence" = Some c
    /\ dict_get d "indicators" = Some (VList i)
    /\ dict_get d "model" = Some (VStr m)
    /\ dict_get d "note" = Some n
    /\ dict_get d "error" = None.

(** [ai_likelihood] is a number in [0, 100] and [confidence] a number in
    [0, 1]. *)
Definition in_range (d : dict) : Prop :=
  exists a c : R,
    bind (getitem d "ai_likelihood") as_float = Ok a
    /\ bind (getitem d "confidence") as_float = Ok c
    /\ (0 <= a <= 100)%R /\ (0 <= c <= 1)%R.

(** The average of the statistics [aggregate] returns. *)
Definition avg_of (stats : R * R * R * R) : R := fst (fst (fst stats)).

(** The fields the entry point takes over from the result it chooses. *)
Definition primary_fields : list string :=
  ["ai_likelihood"; "confidence"; "indicators"; "model"; "note"; "error"].

(** [d] and [src] agree on the primary fields. *)
Definition same_primary (d src : dict) : Prop :=
  forall k, In k primary_fields -> dict_get d k = dict_get src k.

(** Environments for the concrete runs: one in which both models load and
    answer, one in which no model loads. *)
Definition sample_env : environment :=
  {| str_exn := exn_name;
     format_1f := fun _ => "?";
     str_float := fun _ => "?";
     transformers_available := true;
     torch_available := true;
     load_classifier := fun _ => Ok tt;
     classifier_ai_prob := fun _ => Ok 0.3333%R;
     compute_loss := fun _ _ => Ok 2%R;
     roberta_first := true;
     allow_advanced := true;
     cache_dir := "~/.cache/huggingface";
     cache_dir_writable := true;
     transformers_version := "4";
     transformers_location := "transformers" |}.

Definition failing_env : environment :=
  {| str_exn := exn_name;
     format_1f := fun _ => "?";
     str_float := fun _ => "?";
     transformers_available := true;
     torch_available := true;
     load_classifier := fun _ => Raise RuntimeError;
     classifier_ai_prob := fun _ => Raise RuntimeError;
     compute_loss := fun _ _ => Raise RuntimeError;
     roberta_first := false;
     allow_advanced := true;
     cache_dir := "~/.cache/huggingface";
     cache_dir_writable := true;
     transformers_version := "4";
     transformers_location := "transformers" |}.

(** A text of four pieces between full stops of which one has words: the
    standard deviation of one sentence length is not defined. *)
Definition one_sentence_text : string :=
  "This sentence is the only one that has any words in it...".

(** [d] carries confidence [c] and model tag [m]. *)
Definition answers_with (d : dict) (c : R) (m : string) : Prop :=
  dict_get d "confidence" = Some (VFloat c)
  /\ dict_get d "model" = Some (VStr m).

(** A check that adds its points and its indicator whatever the running
    state: [step st] is [st] plus [step (0, [])], worth at most [top]. *)
Definition additive (step : scoring -> scoring) (top : Z) : Prop :=
  (forall st, step st
              = (fst st + fst (step (0, [])),
                 (snd st ++ snd (step (0, [])))%list))
  /\ 0 <= fst (step (0, [])) <= top.

(** Two sentences of three words each. *)
Definition two_sentences_text : string := "One two three. Four five six.".

(** Only whitespace in [s]. *)
Fixpoint all_space (s : string) : bool :=
  match s with
  | EmptyString => true
  | String c s' => isspace c && all_space s'
  end.

(** What one check of the heuristics contributes: its points and its
    indicator when it fires, nothing otherwise. *)
Definition fired (b : bool) (points : Z) (indicator : string) : scoring :=
  if b then (points, [indicator]) else (0, []).

(** The five checks of the heuristics, fired or not. *)
Definition fired_checks (b1 b2 b3 b4 b5 : bool) : list scoring :=
  [fired b1 30 "Low sentence length variance";
   fired b2 25 "Repetitive sentence starters";
   fired b3 20 "Lack of personal pronouns";
   fired b4 15 "High transitional phrase density";
   fired b5 10 "Lack of contractions"].

(** The environment [env] with the other completion order of the two
    worker tasks. *)
Definition with_roberta_first (env : environment) (b : bool) : environment :=
  {| str_exn := str_exn env;
     format_1f := format_1f env;
     str_float := str_float env;
     transformers_available := transformers_available env;
     torch_available := torch_available env;
     load_classifier := load_classifier env;
     classifier_ai_prob := classifier_ai_prob env;
     compute_loss := compute_loss env;
     roberta_first := b;
     allow_advanced := allow_advanced env;
     cache_dir := cache_dir env;
     cache_dir_writable := cache_dir_writable env;
     transformers_version := transformers_version env;
     transformers_location := transformers_location env |}.

(** The fields that only the combined result of the ensemble carries. *)
Definition combined_fields : list string :=
  ["roberta_score"; "binoculars_score"; "individual_results"].

(** The entry point takes the result of the advanced detection as its
    primary result: the advanced detection is allowed, [transformers] can
    be imported, and the result does not carry the heuristic model tag. *)
Definition advanced_chosen (env : environment) (text : string) : Prop :=
  allow_advanced env = true
  /\ transformers_available env = true
  /\ dict_get (fst (detect_ai_content_advanced env text)) "model"
     <> Some (VStr "statistical_heuristics").

(** An environment in which the advanced detection is switched off. *)
Definition heuristics_only_env : environment :=
  {| str_exn := exn_name;
     format_1f := fun _ => "?";
     str_float := fun _ => "?";
     transformers_available := true;
     torch_available := true;
     load_classifier := fun _ => Ok tt;
     classifier_ai_prob := fun _ => Ok 0.5%R;
     compute_loss := fun _ _ => Ok 2%R;
     roberta_first := true;
     allow_advanced := false;
     cache_dir := "~/.cache/huggingface";
     cache_dir_writable := true;
     transformers_version := "4";
     transformers_location := "transformers" |}.

(** A call of one of the two cache functions, and a sequence of calls made
    one after the other. *)
Inductive request : Type :=
| Model (model_name : string)
| Classifier (model_name : string).

Definition serve {handle : Type} (load_causal_lm load_classifier : string -> result handle)
  (s : ModelCache.shared handle) (r : request) : ModelCache.shared handle :=
  match r with
  | Model n => snd (ModelCache.get_cached_model load_causal_lm n s)
  | Classifier n => snd (ModelCache.get_cached_classifier load_classifier n s)
  end.

Definition serve_all {handle : Type} (load_causal_lm load_classifier : string -> result handle)
  (reqs : list request) (s : ModelCache.shared handle) : ModelCache.shared handle :=
  fold_left (serve load_causal_lm load_classifier) reqs s.

(** [k in _MODEL_CACHE] *)
Definition cached {handle : Type} (s : ModelCache.shared handle) (k : string) : bool :=
  match ModelCache.lookup (ModelCache.entries s) k with
  | Some _ => true
  | None => false
  end.

(** The cache keys of the three models [preload_models] asks for. *)
Definition preloaded_keys : list string :=
  [ModelCache.classifier_key "Hello-SimpleAI/chatgpt-detector-roberta";
   "gpt2"; "EleutherAI/gpt-neo-125M"].

(** Where a caller that finds the key cached with [x] stands after [n] of
    its statements. *)
Definition pc_after {handle : Type} (x : handle) (n : nat) : ModelCache.pc handle :=
  match n with
  | O => ModelCache.AtCheck
  | S O => ModelCache.AtReturn
  | S (S _) => ModelCache.Returned (Ok x)
  end.

(** Where a caller that finds the key missing, and whose load fails, stands
    after [n] of its statements. *)
Definition pc_failed {handle : Type} (n : nat) : ModelCache.pc handle :=
  match n with
  | O => ModelCache.AtCheck
  | S O => ModelCache.AtLoad
  | S (S _) => ModelCache.Returned (Raise RuntimeError)
  end.

(* ===================================================================== *)
(** * Properties *)
(* ===================================================================== *)

(** ** The runtime on examples *)

Example split_example : split "  one two   three " = ["one"; "two"; "three"].
Proof. reflexivity. Qed.

Example strip_example : strip "  one two   three " = "one two   three".
Proof. reflexivity. Qed.

Example split_on_example : split_on "." "a. b.." = ["a"; " b"; ""; ""].
Proof. reflexivity. Qed.

Example str_of_nat_example : str_of_nat 401 = "401".
Proof. reflexivity. Qed.

Example range_example : range 0 701 550 = Ok [0; 550].
Proof. reflexivity. Qed.

Example range_backwards : range 0 5 (-2) = Ok [].
Proof. reflexivity. Qed.

Example slice_example : slice [1; 2; 3; 4; 5] 3 10 = [4; 5].
Proof. reflexivity. Qed.

Example slice_negative : slice [1; 2; 3; 4; 5] 1 (-1) = [2; 3; 4].
Proof. reflexivity. Qed.

Example chunk_text_short :
  chunk_text "  one two   three " 400 100 = Ok ["  one two   three "].
Proof. reflexivity. Qed.

Example chunk_text_zero_stride : chunk_text "a b" 1 1 = Raise ValueError.
Proof. reflexivity. Qed.

Example chunk_text_backwards : chunk_text "a b c" 1 3 = Ok [].
Proof. reflexivity. Qed.

(** ** Strings: [split] undoes [join] on words *)

Lemma append_empty_r (s : string) : s ++ "" = s.
Proof. induction s as [|c s IH]; simpl; [reflexivity | now rewrite IH]. Qed.

Lemma append_assoc (a b c : string) : (a ++ b) ++ c = a ++ (b ++ c).
Proof. induction a as [|x a IH]; simpl; [reflexivity | now rewrite IH]. Qed.

Lemma no_space_snoc (s : string) (c : ascii) :
  no_space s = true -> isspace c = false -> no_space (snoc s c) = true.
Proof.
  unfold snoc. induction s as [|x s IH]; simpl; intros Hs Hc.
  - now rewrite Hc.
  - apply andb_true_iff in Hs as [Hx Hs]. rewrite Hx. simpl. now apply IH.
Qed.

Lemma is_empty_snoc (s : string) (c : ascii) : is_empty (snoc s c) = false.
Proof. destruct s; reflexivity. Qed.

Lemma split_from_words (s : string) :
  forall cur, no_space cur = true -> Forall is_word (split_from cur s).
Proof.
  induction s as [|c s IH]; intros cur Hcur; simpl.
  - destruct (is_empty cur) eqn:E; constructor; [split; assumption | constructor].
  - destruct (isspace c) eqn:Hc.
    + destruct (is_empty cur) eqn:E.
      * now apply IH.
      * constructor; [split; assumption | now apply IH].
    + apply IH. now apply no_space_snoc.
Qed.

Lemma split_words (s : string) : Forall is_word (split s).
Proof. now apply split_from_words. Qed.

Lemma split_from_append (w : string) :
  forall cur rest, no_space w = true ->
  split_from cur (w ++ rest) = split_from (cur ++ w) rest.
Proof.
  induction w as [|c w IH]; intros cur rest Hw; simpl.
  - now rewrite append_empty_r.
  - simpl in Hw. apply andb_true_iff in Hw as [Hc Hw].
    apply negb_true_iff in Hc. rewrite Hc.
    rewrite IH by assumption. unfold snoc. now rewrite append_assoc.
Qed.

Lemma split_join (ws : list string) :
  Forall is_word ws -> split (join " " ws) = ws.
Proof.
  unfold split. induction ws as [|w ws IH]; intros Hws; [reflexivity|].
  inversion Hws as [|w' ws' [Hne Hns] Hrest]; subst.
  destruct ws as [|w2 ws].
  - simpl. rewrite <- (append_empty_r w) at 1.
    rewrite split_from_append by assumption. simpl. now rewrite Hne.
  - change (join " " (w :: w2 :: ws)) with (w ++ " " ++ join " " (w2 :: ws)).
    rewrite split_from_append by assumption.
    change ("" ++ w) with w.
    change (" " ++ join " " (w2 :: ws))
      with (String " "%char (join " " (w2 :: ws))).
    simpl split_from. rewrite Hne. f_equal. now apply IH.
Qed.

(** ** [range], slices and the windows of [chunk_text] *)

Lemma range_len_forward (n step : Z) :
  0 < step -> 0 < n ->
  range_len 0 n step = 1 + range_len 0 (n - step) step.
Proof.
  intros Hs Hn. unfold range_len.
  destruct (0 <? step) eqn:E; [|apply Z.ltb_ge in E; lia].
  destruct (0 <? n) eqn:E1; [|apply Z.ltb_ge in E1; lia].
  destruct (0 <? n - step) eqn:E2.
  - apply Z.ltb_lt in E2.
    replace (n - 1 - 0) with ((n - step - 1 - 0) + 1 * step) by lia.
    rewrite Z.div_add by lia. lia.
  - apply Z.ltb_ge in E2. rewrite Z.div_small by lia. lia.
Qed.

Lemma range_len_nonneg (start stop step : Z) :
  0 <= range_len start stop step.
Proof.
  unfold range_len.
  destruct (Z.ltb_spec 0 step) as [Hs|Hs].
  - destruct (Z.ltb_spec start stop) as [Hlt|Hlt]; [|lia].
    assert (0 <= (stop - 1 - start) / step) by (apply Z.div_pos; lia). lia.
  - destruct (Z.ltb_spec step 0) as [Hn|Hn]; [|lia].
    destruct (Z.ltb_spec stop start) as [Hlt|Hlt]; [|lia].
    assert (0 <= (start - 1 - stop) / - step) by (apply Z.div_pos; lia). lia.
Qed.

Lemma range_len_empty (n step : Z) :
  0 < step -> n <= 0 -> range_len 0 n step = 0.
Proof.
  intros Hs Hn. unfold range_len.
  destruct (0 <? step) eqn:E; [|apply Z.ltb_ge in E; lia].
  destruct (0 <? n) eqn:E1; [apply Z.ltb_lt in E1; lia | reflexivity].
Qed.

Lemma range_len_backwards (n step : Z) :
  step < 0 -> 0 <= n -> range_len 0 n step = 0.
Proof.
  intros Hs Hn. unfold range_len.
  destruct (0 <? step) eqn:E; [apply Z.ltb_lt in E; lia|].
  destruct (step <? 0) eqn:E0; [|reflexivity].
  destruct (n <? 0) eqn:E1; [apply Z.ltb_lt in E1; lia | reflexivity].
Qed.

Lemma slice_window {A} (l : list A) (i size : Z) :
  0 <= i -> 0 <= size ->
  slice l i (i + size) = firstn (Z.to_nat size) (skipn (Z.to_nat i) l).
Proof.
  intros Hi Hsize. unfold slice, clamp_index.
  destruct (i <? 0) eqn:E; [apply Z.ltb_lt in E; lia|].
  destruct (i + size <? 0) eqn:E1; [apply Z.ltb_lt in E1; lia|].
  set (n := Z.of_nat (List.length l)).
  destruct (Z.le_gt_cases i n) as [Hin|Hin].
  - rewrite (Z.min_l i n) by lia.
    destruct (Z.le_gt_cases (i + size) n) as [Hj|Hj].
    + rewrite Z.min_l by lia. f_equal. lia.
    + rewrite Z.min_r by lia.
      rewrite !firstn_all2; try reflexivity;
        rewrite length_skipn; subst n; lia.
  - rewrite !Z.min_r by lia. rewrite Z.sub_diag. simpl.
    rewrite skipn_all2 by (subst n; lia). now destruct (Z.to_nat size).
Qed.

(** The loop of [chunk_text] is a filter over the windows. *)
Lemma fold_chunk_step (words : list string) (chunk_size : Z)
  (starts : list Z) :
  forall chunks,
  fold_left (chunk_step words chunk_size) starts chunks
  = (chunks
     ++ map (join " ")
          (filter (fun w => 50 <=? Z.of_nat (List.length w))
                  (map (fun i => slice words i (i + chunk_size)) starts)))%list.
Proof.
  induction starts as [|i starts IH]; intros chunks; simpl.
  - now rewrite app_nil_r.
  - rewrite IH. unfold chunk_step.
    destruct (50 <=? Z.of_nat (List.length (slice words i (i + chunk_size)))).
    + simpl. now rewrite <- app_assoc.
    + reflexivity.
Qed.

(** The windows of the specification, by their starting positions. *)
Lemma spec_windows_starts (size stride : nat) :
  (0 < stride)%nat ->
  forall fuel ws, (List.length ws <= fuel)%nat ->
  spec_windows fuel size stride ws
  = map (fun k => firstn size (skipn (k * stride) ws))
        (seq 0 (Z.to_nat (range_len 0 (Z.of_nat (List.length ws))
                                    (Z.of_nat stride)))).
Proof.
  intros Hstride. induction fuel as [|fuel IH]; intros ws Hfuel.
  - destruct ws; [|simpl in Hfuel; lia].
    rewrite range_len_empty by (simpl; lia). reflexivity.
  - destruct ws as [|w ws].
    + rewrite range_len_empty by (simpl; lia). reflexivity.
    + set (l := w :: ws) in *.
      change (spec_windows (S fuel) size stride l)
        with (firstn size l :: spec_windows fuel size stride (skipn stride l)).
      assert (Hlen : (0 < List.length l)%nat) by (subst l; simpl; lia).
      rewrite range_len_forward by lia.
      assert (Hnn : 0 <= range_len 0 (Z.of_nat (List.length l) - Z.of_nat stride)
                                   (Z.of_nat stride)).
      { apply range_len_nonneg. }
      rewrite Z2Nat.inj_add by lia.
      change (Z.to_nat 1) with 1%nat. simpl seq. simpl map.
      f_equal.
      rewrite <- seq_shift, map_map.
      rewrite IH by (rewrite length_skipn; lia).
      rewrite length_skipn.
      assert (Hcount :
        range_len 0 (Z.of_nat (List.length l - stride)) (Z.of_nat stride)
        = range_len 0 (Z.of_nat (List.length l) - Z.of_nat stride)
                    (Z.of_nat stride)).
      { destruct (Nat.le_gt_cases stride (List.length l)) as [Hle|Hgt].
        - f_equal. lia.
        - rewrite !range_len_empty by lia. reflexivity. }
      rewrite Hcount. apply map_ext. intros k.
      rewrite skipn_skipn. do 2 f_equal. lia.
Qed.

Lemma chunk_text_windows (text : string) (chunk_size overlap : Z) :
  chunk_size < Z.of_nat (List.length (split text)) ->
  0 <= chunk_size -> overlap < chunk_size ->
  chunk_text text chunk_size overlap
  = Ok (spec_chunks (Z.to_nat chunk_size) (Z.to_nat (chunk_size - overlap))
                    (split text)).
Proof.
  intros Hlong Hsize Hstride. unfold chunk_text, spec_chunks.
  destruct (Z.leb_spec (Z.of_nat (List.length (split text))) chunk_size); [lia|].
  unfold range. destruct (Z.eqb_spec (chunk_size - overlap) 0); [lia|].
  cbn [bind]. rewrite fold_chunk_step. cbn [app]. do 2 f_equal.
  rewrite spec_windows_starts by lia.
  rewrite Z2Nat.id by lia. rewrite map_map.
  rewrite (filter_ext (fun w : list string => 50 <=? Z.of_nat (List.length w))
                      (fun w => (50 <=? List.length w)%nat)).
  - f_equal. apply map_ext. intros k. cbv beta.
    assert (Hk : 0 <= Z.of_nat k * (chunk_size - overlap))
      by (apply Z.mul_nonneg_nonneg; lia).
    rewrite slice_window by lia. do 2 f_equal.
    rewrite Z.add_0_l, Z2Nat.inj_mul, Nat2Z.id by lia. reflexivity.
  - intros w.
    destruct (Z.leb_spec 50 (Z.of_nat (List.length w)));
      destruct (Nat.leb_spec 50 (List.length w)); try reflexivity; lia.
Qed.

Lemma chunk_text_one_chunk (text : string) (chunk_size overlap : Z) :
  Z.of_nat (List.length (split text)) <= chunk_size ->
  chunk_text text chunk_size overlap = Ok [text].
Proof.
  intros Hshort. unfold chunk_text.
  destruct (Z.leb_spec (Z.of_nat (List.length (split text))) chunk_size);
    [reflexivity | lia].
Qed.

(** Every chunk of the specification is a window of the word list with at
    least 50 and at most [size] words. *)
Lemma spec_chunks_windows (size stride : nat) (ws : list string) (c : string) :
  (0 < stride)%nat -> In c (spec_chunks size stride ws) ->
  exists k, c = join " " (firstn size (skipn (k * stride) ws))
            /\ (50 <= List.length (firstn size (skipn (k * stride) ws)) <= size)%nat.
Proof.
  intros Hstride Hin. unfold spec_chunks in Hin.
  rewrite spec_windows_starts in Hin by lia.
  apply in_map_iff in Hin as [w [Hc Hw]].
  apply filter_In in Hw as [Hw Hlen].
  apply in_map_iff in Hw as [k [Hk _]].
  exists k. subst w. split; [now symmetry|].
  apply Nat.leb_le in Hlen. split; [assumption|].
  rewrite length_firstn. lia.
Qed.

Lemma Forall_firstn {A} (P : A -> Prop) (n : nat) (l : list A) :
  Forall P l -> Forall P (firstn n l).
Proof.
  intros H. apply Forall_forall. intros x Hx.
  rewrite Forall_forall in H. apply H.
  rewrite <- (firstn_skipn n l). apply in_or_app. now left.
Qed.

Lemma Forall_skipn {A} (P : A -> Prop) (n : nat) (l : list A) :
  Forall P l -> Forall P (skipn n l).
Proof.
  intros H. apply Forall_forall. intros x Hx.
  rewrite Forall_forall in H. apply H.
  rewrite <- (firstn_skipn n l). apply in_or_app. now right.
Qed.

(** The two windows of a text of [size + 1] words, when the second one
    still has 50 words. *)
Lemma spec_chunks_two (size stride : nat) (ws : list string) :
  (0 < stride)%nat -> (50 <= size)%nat -> (stride + 50 <= size + 1)%nat ->
  (size + 1 <= 2 * stride)%nat ->
  List.length ws = (size + 1)%nat ->
  spec_chunks size stride ws
  = [join " " (firstn size ws); join " " (firstn size (skipn stride ws))].
Proof.
  intros Hstride Hsize Hsecond Htwo Hlen. unfold spec_chunks.
  rewrite spec_windows_starts by lia.
  rewrite Hlen, range_len_forward by lia.
  rewrite range_len_forward by lia.
  rewrite range_len_empty by lia.
  change (Z.to_nat (1 + (1 + 0))) with 2%nat.
  cbn [seq map]. rewrite Nat.mul_0_l, Nat.mul_1_l. cbn [skipn filter].
  assert (H1 : (50 <=? List.length (firstn size ws))%nat = true)
    by (apply Nat.leb_le; rewrite length_firstn; lia).
  assert (H2 : (50 <=? List.length (firstn size (skipn stride ws)))%nat = true)
    by (apply Nat.leb_le; rewrite length_firstn, length_skipn; lia).
  rewrite H1. cbn [filter]. rewrite H2. reflexivity.
Qed.

Lemma filter_none {A} (p : A -> bool) (l : list A) :
  (forall x, In x l -> p x = false) -> filter p l = [].
Proof.
  induction l as [|x l IH]; intros H; [reflexivity|].
  simpl. rewrite (H x) by now left.
  apply IH. intros y Hy. apply H. now right.
Qed.

(** No window is longer than the first one. *)
Lemma spec_windows_length (size stride : nat) :
  forall fuel ws w, In w (spec_windows fuel size stride ws) ->
  (List.length w <= Nat.min size (List.length ws))%nat.
Proof.
  induction fuel as [|fuel IH]; intros ws w Hin; [destruct ws; contradiction|].
  destruct ws as [|x ws]; [contradiction|].
  set (l := x :: ws) in *.
  change (In w (firstn size l :: spec_windows fuel size stride (skipn stride l)))
    in Hin.
  destruct Hin as [<-|Hin].
  - now rewrite length_firstn.
  - apply IH in Hin. rewrite length_skipn in Hin. lia.
Qed.

(** The windows that [chunk_text] drops are the last ones: the windows
    kept are a prefix of the windows. *)
Lemma spec_windows_kept_prefix (size stride : nat) :
  forall fuel ws,
  let kept := filter (fun w => (50 <=? List.length w)%nat)
                     (spec_windows fuel size stride ws) in
  kept = firstn (List.length kept) (spec_windows fuel size stride ws).
Proof.
  induction fuel as [|fuel IH]; intros ws; [destruct ws; reflexivity|].
  destruct ws as [|x ws]; [reflexivity|].
  set (l := x :: ws) in *. cbv zeta.
  change (spec_windows (S fuel) size stride l)
    with (firstn size l :: spec_windows fuel size stride (skipn stride l)).
  cbn [filter].
  destruct (Nat.leb_spec 50 (List.length (firstn size l))) as [Hkeep|Hdrop].
  - cbn [List.length firstn]. f_equal. apply IH.
  - assert (Hnone : filter (fun w => (50 <=? List.length w)%nat)
                      (spec_windows fuel size stride (skipn stride l)) = []).
    { apply filter_none. intros w Hw. apply spec_windows_length in Hw.
      rewrite length_skipn in Hw. rewrite length_firstn in Hdrop.
      apply Nat.leb_gt. lia. }
    rewrite Hnone. reflexivity.
Qed.

Lemma chunk_text_no_stride (text : string) (chunk_size overlap : Z) :
  chunk_size < Z.of_nat (List.length (split text)) ->
  (overlap = chunk_size -> chunk_text text chunk_size overlap = Raise ValueError)
  /\ (chunk_size < overlap -> chunk_text text chunk_size overlap = Ok []).
Proof.
  intros Hlong. unfold chunk_text.
  destruct (Z.leb_spec (Z.of_nat (List.length (split text))) chunk_size); [lia|].
  unfold range. split; intros Hov.
  - subst overlap. now rewrite Z.sub_diag.
  - destruct (Z.eqb_spec (chunk_size - overlap) 0); [lia|].
    rewrite range_len_backwards by lia. reflexivity.
Qed.

(** C5, as the code has it.  A text of at most [chunk_size] words is its
    own single chunk.  A longer text, when [0 <= chunk_size] and
    [overlap < chunk_size], yields the windows of [chunk_size] words taken
    every [chunk_size - overlap] words, less the windows of fewer than 50
    words, which are the last ones; with [overlap = chunk_size] the call
    raises [ValueError] and with [overlap > chunk_size] it returns no
    chunk.  With 400/100 and 700/150 a text of [chunk_size + 1] words
    yields two chunks. *)
Theorem chunk_text_spec (text : string) (chunk_size overlap : Z) :
  let words := split text in
  let n := Z.of_nat (List.length words) in
  let windows := spec_windows (List.length words) (Z.to_nat chunk_size)
                              (Z.to_nat (chunk_size - overlap)) words in
  let kept := filter (fun w => (50 <=? List.length w)%nat) windows in
  (n <= chunk_size -> chunk_text text chunk_size overlap = Ok [text])
  /\ (chunk_size < n -> 0 <= chunk_size -> overlap < chunk_size ->
      chunk_text text chunk_size overlap = Ok (map (join " ") kept)
      /\ exists k, kept = firstn k windows)
  /\ (chunk_size < n -> overlap = chunk_size ->
      chunk_text text chunk_size overlap = Raise ValueError)
  /\ (chunk_size < n -> chunk_size < overlap ->
      chunk_text text chunk_size overlap = Ok [])
  /\ (chunk_size = 400 /\ overlap = 100 \/ chunk_size = 700 /\ overlap = 150 ->
      n = chunk_size + 1 ->
      exists chunks, chunk_text text chunk_size overlap = Ok chunks
                     /\ (2 <= List.length chunks)%nat).
Proof.
  cbv zeta. repeat split.
  - apply chunk_text_one_chunk.
  - now apply chunk_text_windows.
  - eexists. apply spec_windows_kept_prefix.
  - intros Hlong. now apply chunk_text_no_stride.
  - intros Hlong. now apply chunk_text_no_stride.
  - intros Hparams Hn.
    assert (Hw : chunk_text text chunk_size overlap
                 = Ok (spec_chunks (Z.to_nat chunk_size)
                                   (Z.to_nat (chunk_size - overlap)) (split text)))
      by (apply chunk_text_windows; lia).
    rewrite Hw. eexists. split; [reflexivity|].
    rewrite spec_chunks_two; [simpl; lia | | | | |];
      destruct Hparams as [[-> ->]|[-> ->]];
      try (change (Z.to_nat (400 - 100)) with 300%nat);
      try (change (Z.to_nat (700 - 150)) with 550%nat); lia.
Qed.

Lemma chunk_text_spec_witness :
  chunk_text (sample_text 60) 55 5
  = Ok [join " " (firstn 55 (split (sample_text 60)))].
Proof.
  refine (eq_trans
    (proj1 (proj1 (proj2 (chunk_text_spec (sample_text 60) 55 5)) _ _ _)) _).
  - vm_compute. reflexivity.
  - lia.
  - lia.
  - vm_compute. reflexivity.
Defined.

(** C5 as stated fails when the stride is zero: two words, windows of one
    word, overlap one.  The text is longer than [chunk_size], and no list of
    windows comes back. *)
Lemma chunk_text_zero_stride_raises :
  1 < Z.of_nat (List.length (split "a b"))
  /\ chunk_text "a b" 1 1 = Raise ValueError
  /\ forall chunks, chunk_text "a b" 1 1 <> Ok chunks.
Proof.
  split; [vm_compute; reflexivity|].
  split; [reflexivity|]. intros chunks H. vm_compute in H. discriminate.
Qed.

(** C10.  For a text of more than [chunk_size] words, with
    [chunk_size >= 50] and [0 <= overlap < chunk_size], every chunk that
    [chunk_text] returns has at least 50 and at most [chunk_size] words. *)
Theorem chunk_words_bounded (text : string) (chunk_size overlap : Z) :
  chunk_size < Z.of_nat (List.length (split text)) ->
  50 <= chunk_size -> 0 <= overlap < chunk_size ->
  exists chunks,
    chunk_text text chunk_size overlap = Ok chunks
    /\ forall c, In c chunks ->
       50 <= Z.of_nat (List.length (split c)) <= chunk_size.
Proof.
  intros Hlong Hsize Hov.
  rewrite chunk_text_windows by lia. eexists. split; [reflexivity|].
  intros c Hc. apply spec_chunks_windows in Hc as [k [-> Hlen]]; [|lia].
  rewrite split_join.
  - lia.
  - apply Forall_firstn, Forall_skipn, split_words.
Qed.

Lemma chunk_words_bounded_witness :
  exists chunks,
    chunk_text (sample_text 60) 50 10 = Ok chunks
    /\ forall c, In c chunks -> 50 <= Z.of_nat (List.length (split c)) <= 50.
Proof.
  apply (chunk_words_bounded (sample_text 60) 50 10).
  - vm_compute. reflexivity.
  - lia.
  - lia.
Defined.

(** ** The model cache *)

Section CacheFacts.

Variable handle : Type.
Variable load_causal_lm : string -> result handle.
Variable model_name : string.
Variable h : handle.
Hypothesis load_ok : load_causal_lm model_name = Ok h.

Import ModelCache.

Lemma lookup_store (c : cache handle) (k : string) (x : handle) :
  lookup (store c k x) k = Some x.
Proof.
  induction c as [|[k' x'] c IH]; simpl.
  - now rewrite String.eqb_refl.
  - destruct (String.eqb_spec k k') as [->|Hne]; simpl.
    + now rewrite String.eqb_refl.
    + destruct (String.eqb_spec k k'); [contradiction | assumption].
Qed.

Lemma load_count_logged (s : shared handle) (c : cache handle) :
  load_count model_name {| entries := c; loads := loads s ++ [model_name] |}
  = S (load_count model_name s).
Proof.
  unfold load_count. cbn [loads]. rewrite count_occ_app. cbn [count_occ].
  destruct (string_dec model_name model_name); [lia | contradiction].
Qed.

(** One statement of a caller keeps the invariant of the memory, of that
    caller and of the other caller, and logs a load only when the caller
    leaves [AtLoad]. *)
Lemma step_invariant (s : shared handle) (p q : pc handle) :
  good_mem handle model_name h s ->
  good_pc handle model_name h s p ->
  good_pc handle model_name h s q ->
  let '(s', p') := step load_causal_lm model_name s p in
  good_mem handle model_name h s'
  /\ good_pc handle model_name h s' p'
  /\ good_pc handle model_name h s' q
  /\ (load_count model_name s' + passed_load handle p
      <= load_count model_name s + passed_load handle p')%nat.
Proof.
  intros Hmem Hp Hq. destruct p as [| |h'| |r]; cbn [step].
  - destruct (lookup (entries s) model_name) as [x|] eqn:E.
    + destruct (Hmem x E) as [-> Hcount].
      split; [|split; [|split]]; try assumption. cbn. lia.
    + split; [|split; [|split]]; first [assumption | exact I | cbn; lia].
  - rewrite load_ok.
    assert (Hmem' : good_mem handle model_name h
                      {| entries := entries s; loads := loads s ++ [model_name] |}).
    { intros x Hx. cbn [entries] in Hx. destruct (Hmem x Hx) as [-> _].
      split; [reflexivity|]. rewrite load_count_logged. lia. }
    split; [|split; [|split]].
    + assumption.
    + split; [reflexivity|]. rewrite load_count_logged. lia.
    + destruct q as [| |h'| |r]; cbn [good_pc entries] in *; try assumption.
      destruct Hq as [-> _]. split; [reflexivity|].
      rewrite load_count_logged. lia.
    + rewrite load_count_logged. cbn. lia.
  - destruct Hp as [-> Hcount].
    split; [|split; [|split]].
    + intros x Hx. cbn [entries] in Hx. rewrite lookup_store in Hx.
      injection Hx as <-. split; [reflexivity | exact Hcount].
    + cbn [good_pc entries]. apply lookup_store.
    + destruct q as [| |h'| |r]; cbn [good_pc entries] in *; try assumption.
      * apply lookup_store.
      * destruct Hq as [-> _]. split; [reflexivity | apply lookup_store].
    + cbn. unfold load_count. cbn [loads]. lia.
  - cbn [good_pc] in Hp. rewrite Hp.
    split; [|split; [|split]]; try assumption; [split; [reflexivity|assumption] | cbn; lia].
  - split; [|split; [|split]]; first [assumption | cbn; lia].
Qed.

Lemma turn_invariant (c : config handle) (who : bool) :
  cache_invariant handle model_name h c ->
  cache_invariant handle model_name h (turn load_causal_lm model_name c who).
Proof.
  intros (Hmem & Hfirst & Hsecond & Hcount). unfold turn.
  destruct who.
  - pose proof (step_invariant (mem c) (first c) (second c) Hmem Hfirst Hsecond)
      as Hstep.
    destruct (step load_causal_lm model_name (mem c) (first c)) as [s' p'].
    destruct Hstep as (H1 & H2 & H3 & H4).
    split; [|split; [|split]]; cbn [mem first second]; try assumption. lia.
  - pose proof (step_invariant (mem c) (second c) (first c) Hmem Hsecond Hfirst)
      as Hstep.
    destruct (step load_causal_lm model_name (mem c) (second c)) as [s' p'].
    destruct Hstep as (H1 & H2 & H3 & H4).
    split; [|split; [|split]]; cbn [mem first second]; try assumption. lia.
Qed.

Lemma run_invariant (schedule : list bool) :
  forall c, cache_invariant handle model_name h c ->
  cache_invariant handle model_name h (run load_causal_lm model_name schedule c).
Proof.
  unfold run. induction schedule as [|who schedule IH]; intros c Hc.
  - exact Hc.
  - cbn [fold_left]. apply IH. now apply turn_invariant.
Qed.

Lemma start_invariant (c : cache handle) :
  lookup c model_name = None ->
  cache_invariant handle model_name h (start c).
Proof.
  intros Hmiss. split; [|split; [|split]]; cbn; try exact I; try lia.
  intros x Hx. cbn in Hx. congruence.
Qed.

End CacheFacts.

(** A caller that runs its four statements without interruption does what
    [get_cached_model] does. *)
Lemma run_alone (handle : Type) (load_causal_lm : string -> result handle)
  (model_name : string) (s : ModelCache.shared handle)
  (q : ModelCache.pc handle) :
  let final :=
    ModelCache.run load_causal_lm model_name [true; true; true; true]
      {| ModelCache.mem := s; ModelCache.first := ModelCache.AtCheck;
         ModelCache.second := q |} in
  ModelCache.mem final
  = snd (ModelCache.get_cached_model load_causal_lm model_name s)
  /\ ModelCache.first final
     = ModelCache.Returned
         (fst (ModelCache.get_cached_model load_causal_lm model_name s))
  /\ ModelCache.second final = q.
Proof.
  unfold ModelCache.get_cached_model, ModelCache.get_cached.
  cbn [ModelCache.run fold_left ModelCache.turn ModelCache.mem ModelCache.first
       ModelCache.second ModelCache.step].
  destruct (ModelCache.lookup (ModelCache.entries s) model_name) as [x|] eqn:E.
  - cbn. rewrite E. destruct s. repeat split.
  - cbn. destruct (load_causal_lm model_name) as [x|e]; cbn; repeat split.
Qed.

(** C4, as the code has it.  The cache has no lock.  When the load of a key
    succeeds, two calls made one after the other load it once; two callers
    whose first requests overlap both finish with the handle, after one
    load or two. *)
Theorem get_cached_model_loads (handle : Type)
  (load_causal_lm : string -> result handle) (model_name : string)
  (h : handle) (c : ModelCache.cache handle) :
  load_causal_lm model_name = Ok h ->
  ModelCache.lookup c model_name = None ->
  (let s0 := {| ModelCache.entries := c; ModelCache.loads := [] |} in
   let r1 := ModelCache.get_cached_model load_causal_lm model_name s0 in
   let r2 := ModelCache.get_cached_model load_causal_lm model_name (snd r1) in
   fst r1 = Ok h /\ fst r2 = Ok h
   /\ ModelCache.load_count model_name (snd r2) = 1%nat)
  /\ (forall schedule,
      let final :=
        ModelCache.run load_causal_lm model_name schedule (ModelCache.start c) in
      ModelCache.finished final = true ->
      ModelCache.first final = ModelCache.Returned (Ok h)
      /\ ModelCache.second final = ModelCache.Returned (Ok h)
      /\ (1 <= ModelCache.load_count model_name (ModelCache.mem final) <= 2)%nat).
Proof.
  intros Hload Hmiss. split.
  - cbv zeta. unfold ModelCache.get_cached_model, ModelCache.get_cached.
    cbn [ModelCache.entries ModelCache.loads]. rewrite Hmiss, Hload.
    cbn [ModelCache.entries ModelCache.loads snd fst].
    rewrite !lookup_store. cbn [fst snd].
    repeat split. unfold ModelCache.load_count. cbn.
    destruct (string_dec model_name model_name); [reflexivity | contradiction].
  - intros schedule final Hfinished.
    pose proof (run_invariant handle load_causal_lm model_name h Hload schedule
                  _ (start_invariant handle model_name h c Hmiss))
      as (Hmem & Hfirst & Hsecond & Hcount).
    fold final in Hmem, Hfirst, Hsecond, Hcount.
    unfold ModelCache.finished in Hfinished.
    apply andb_true_iff in Hfinished as [H1 H2].
    destruct (ModelCache.first final) as [| | | |r1]; try discriminate.
    destruct (ModelCache.second final) as [| | | |r2]; try discriminate.
    destruct Hfirst as [-> Hhit]. destruct Hsecond as [-> _].
    destruct (Hmem h Hhit) as [_ Hone]. cbn in Hcount.
    repeat split; [exact Hone | exact Hcount].
Qed.

Lemma get_cached_model_loads_witness :
  let final :=
    ModelCache.run (fun _ => Ok tt) "gpt2"
      [true; true; false; true; true; false; false; false]
      (ModelCache.start []) in
  ModelCache.first final = ModelCache.Returned (Ok tt)
  /\ ModelCache.second final = ModelCache.Returned (Ok tt)
  /\ (1 <= ModelCache.load_count "gpt2" (ModelCache.mem final) <= 2)%nat.
Proof.
  apply (proj2 (get_cached_model_loads unit (fun _ => Ok tt) "gpt2" tt []
                  eq_refl eq_refl)).
  vm_compute. reflexivity.
Defined.

(** C4 as stated fails.  Both callers test the cache before either has
    stored the handle, so both load: two loads of one key. *)
Lemma concurrent_first_loads_duplicate :
  let final :=
    ModelCache.run (fun _ => Ok tt) "gpt2"
      [true; false; true; false; true; false; true; false]
      (ModelCache.start []) in
  ModelCache.finished final = true
  /\ ModelCache.first final = ModelCache.Returned (Ok tt)
  /\ ModelCache.second final = ModelCache.Returned (Ok tt)
  /\ ModelCache.load_count "gpt2" (ModelCache.mem final) = 2%nat.
Proof. vm_compute. repeat split. Qed.

(** The ensemble's two worker tasks ask for different keys. *)
Lemma ensemble_keys_differ :
  ModelCache.classifier_key roberta_model_name <> model_a
  /\ ModelCache.classifier_key roberta_model_name <> model_b
  /\ model_a <> model_b.
Proof. repeat split; discriminate. Qed.

(** ** Dictionaries *)

Lemma dict_get_set_same (d : dict) (k : string) (v : value) :
  dict_get (dict_set d k v) k = Some v.
Proof.
  induction d as [|[k' v'] d IH]; simpl.
  - now rewrite String.eqb_refl.
  - destruct (String.eqb_spec k k') as [->|Hne]; simpl.
    + now rewrite String.eqb_refl.
    + destruct (String.eqb_spec k k'); [contradiction | assumption].
Qed.

Lemma dict_get_set_other (d : dict) (k k' : string) (v : value) :
  k <> k' -> dict_get (dict_set d k v) k' = dict_get d k'.
Proof.
  intros Hne. induction d as [|[k0 v0] d IH]; simpl.
  - destruct (String.eqb_spec k' k); [congruence | reflexivity].
  - destruct (String.eqb_spec k k0) as [->|Hk]; simpl.
    + destruct (String.eqb_spec k' k0); [congruence | reflexivity].
    + destruct (String.eqb_spec k' k0); [reflexivity | assumption].
Qed.

Lemma pass_through_other (src dst : dict) (k k' : string) :
  k <> k' -> dict_get (pass_through src k dst) k' = dict_get dst k'.
Proof.
  intros Hne. unfold pass_through.
  destruct (dict_get src k); [now apply dict_get_set_other | reflexivity].
Qed.

(** ** The shape of the detectors' results *)

Lemma heuristic_result_fields (st : scoring) : has_fields (heuristic_result st).
Proof. unfold has_fields, heuristic_result. repeat eexists. Qed.

Lemma heuristic_error_result_fields (note : string) :
  has_fields (heuristic_error_result note).
Proof. unfold has_fields, heuristic_error_result. repeat eexists. Qed.

Lemma detect_ai_content_simple_cases (env : environment) (text : string) :
  (exists st, heuristic_scoring text = Ok st
              /\ detect_ai_content_simple env text = heuristic_result st)
  \/ (exists e, heuristic_scoring text = Raise e
                /\ detect_ai_content_simple env text
                   = heuristic_error_result (str_exn env e)).
Proof.
  unfold detect_ai_content_simple.
  destruct (heuristic_scoring text) as [st|e]; [left | right]; eauto.
Qed.

Lemma detect_ai_content_simple_fields (env : environment) (text : string) :
  has_fields (detect_ai_content_simple env text).
Proof.
  destruct (detect_ai_content_simple_cases env text) as [[st [_ ->]]|[e [_ ->]]].
  - apply heuristic_result_fields.
  - apply heuristic_error_result_fields.
Qed.

Lemma detect_roberta_shape (env : environment) (text : string) (r : dict) :
  detect_roberta env text = Some r ->
  exists chunks chunk_results stats confidence note indicators analysis,
    import_models env = Ok tt
    /\ chunk_text text 400 100 = Ok chunks
    /\ map_result (roberta_chunk env) (enumerate chunks) = Ok chunk_results
    /\ aggregate (map r_ai_likelihood chunk_results) = Ok stats
    /\ roberta_confidence env (str_of_nat (List.length chunks)) stats
       = (confidence, note)
    /\ r = [("ai_likelihood", VFloat (round (avg_of stats) 2));
            ("confidence", VFloat confidence);
            ("indicators", VList indicators);
            ("model", VStr roberta_model_name);
            ("note", VStr note);
            ("chunk_analysis", analysis)].
Proof.
  unfold detect_roberta, detect_roberta_body. intros H.
  destruct (import_models env) as [[]|] eqn:Himport; [|discriminate].
  cbn [bind] in H.
  destruct (load_classifier env roberta_model_name); [|discriminate].
  cbn [bind] in H.
  destruct (chunk_text text 400 100) as [chunks|] eqn:Hchunks; [|discriminate].
  cbn [bind] in H.
  destruct (map_result (roberta_chunk env) (enumerate chunks))
    as [chunk_results|] eqn:Hresults; [|discriminate].
  cbn [bind] in H.
  destruct (aggregate (map r_ai_likelihood chunk_results))
    as [[[[avg_score min_score] max_score] std_score]|] eqn:Hstats;
    [|discriminate].
  cbn [bind] in H.
  destruct (roberta_confidence env (str_of_nat (List.length chunks))
              (avg_score, min_score, max_score, std_score))
    as [confidence note] eqn:Hconf.
  cbn [bind try_except] in H. injection H as <-.
  do 7 eexists. repeat split; try eassumption. reflexivity.
Qed.

Lemma detect_binoculars_shape (env : environment) (text : string) (b : dict) :
  detect_binoculars env text = Some b ->
  exists chunks chunk_results stats confidence note indicators analysis,
    import_models env = Ok tt
    /\ chunk_text text 700 150 = Ok chunks
    /\ map_result (binoculars_chunk env) (enumerate chunks) = Ok chunk_results
    /\ aggregate (map b_ai_likelihood chunk_results) = Ok stats
    /\ binoculars_confidence env (str_of_nat (List.length chunks)) stats
       = (confidence, note)
    /\ b = [("ai_likelihood", VFloat (round (avg_of stats) 2));
            ("confidence", VFloat confidence);
            ("indicators", VList indicators);
            ("model", VStr binoculars_model_name);
            ("note", VStr note);
            ("chunk_analysis", analysis)].
Proof.
  unfold detect_binoculars, detect_binoculars_body. intros H.
  destruct (import_models env) as [[]|] eqn:Himport; [|discriminate].
  cbn [bind] in H.
  destruct (chunk_text text 700 150) as [chunks|] eqn:Hchunks; [|discriminate].
  cbn [bind] in H.
  destruct (map_result (binoculars_chunk env) (enumerate chunks))
    as [chunk_results|] eqn:Hresults; [|discriminate].
  cbn [bind] in H.
  destruct (aggregate (map b_ai_likelihood chunk_results))
    as [[[[avg_score min_score] max_score] std_score]|] eqn:Hstats;
    [|discriminate].
  cbn [bind] in H.
  destruct (div_len (sum_R (map b_loss_a chunk_results))
                    (List.length chunk_results)); [|discriminate].
  cbn [bind] in H.
  destruct (div_len (sum_R (map b_loss_b chunk_results))
                    (List.length chunk_results)); [|discriminate].
  cbn [bind] in H.
  destruct (binoculars_confidence env (str_of_nat (List.length chunks))
              (avg_score, min_score, max_score, std_score))
    as [confidence note] eqn:Hconf.
  cbn [bind try_except] in H. injection H as <-.
  do 7 eexists. repeat split; try eassumption. reflexivity.
Qed.

(** ** The ensemble *)

Lemma settle_none (st : option dict * option dict) : settle st None = st.
Proof. destruct st. reflexivity. Qed.

Lemma settle_roberta (st : option dict * option dict) (r rest : dict)
  (a c i : value) :
  r = ("ai_likelihood", a) :: ("confidence", c) :: ("indicators", i)
      :: ("model", VStr roberta_model_name) :: rest ->
  settle st (Some r) = (Some r, snd st).
Proof. intros ->. destruct st. reflexivity. Qed.

Lemma settle_binoculars (st : option dict * option dict) (b rest : dict)
  (a c i : value) :
  b = ("ai_likelihood", a) :: ("confidence", c) :: ("indicators", i)
      :: ("model", VStr binoculars_model_name) :: rest ->
  settle st (Some b) = (fst st, Some b).
Proof. intros ->. destruct st. reflexivity. Qed.

(** Whichever task completes first, each result is filed under its own
    detector. *)
Lemma completed_settles (env : environment) (text : string) :
  fold_left settle (completed env text) (None, None)
  = (detect_roberta env text, detect_binoculars env text).
Proof.
  unfold completed.
  destruct (detect_roberta env text) as [r|] eqn:Hr;
    destruct (detect_binoculars env text) as [b|] eqn:Hb.
  - apply detect_roberta_shape in Hr
      as (? & ? & ? & ? & ? & ? & ? & _ & _ & _ & _ & _ & Hr).
    apply detect_binoculars_shape in Hb
      as (? & ? & ? & ? & ? & ? & ? & _ & _ & _ & _ & _ & Hb).
    destruct (roberta_first env); cbn [fold_left];
      repeat first [erewrite settle_roberta by exact Hr
                   | erewrite settle_binoculars by exact Hb];
      reflexivity.
  - apply detect_roberta_shape in Hr
      as (? & ? & ? & ? & ? & ? & ? & _ & _ & _ & _ & _ & Hr).
    destruct (roberta_first env); cbn [fold_left];
      rewrite ?settle_none; erewrite settle_roberta by exact Hr;
      rewrite ?settle_none; reflexivity.
  - apply detect_binoculars_shape in Hb
      as (? & ? & ? & ? & ? & ? & ? & _ & _ & _ & _ & _ & Hb).
    destruct (roberta_first env); cbn [fold_left];
      rewrite ?settle_none; erewrite settle_binoculars by exact Hb;
      rewrite ?settle_none; reflexivity.
  - destruct (roberta_first env); reflexivity.
Qed.

Lemma detector_needs_imports (env : environment) (text : string) :
  import_models env <> Ok tt ->
  detect_roberta env text = None /\ detect_binoculars env text = None.
Proof.
  intros Himport.
  unfold detect_roberta, detect_roberta_body, detect_binoculars,
    detect_binoculars_body.
  destruct (import_models env) as [[]|]; [contradiction | split; reflexivity].
Qed.

(** Both detectors failed: the ensemble hands over to the heuristics. *)
Lemma advanced_both_fail (env : environment) (text : string) :
  detect_roberta env text = None -> detect_binoculars env text = None ->
  fst (detect_ai_content_advanced env text) = detect_ai_content_simple env text.
Proof.
  intros Hr Hb. unfold detect_ai_content_advanced.
  destruct (import_models env); [|reflexivity].
  rewrite completed_settles, Hr, Hb. reflexivity.
Qed.

(** Exactly one detector succeeded: its result passes through. *)
Lemma advanced_one_succeeds (env : environment) (text : string) (d : dict) :
  (detect_roberta env text = Some d /\ detect_binoculars env text = None)
  \/ (detect_roberta env text = None /\ detect_binoculars env text = Some d) ->
  fst (detect_ai_content_advanced env text) = d.
Proof.
  intros H. unfold detect_ai_content_advanced.
  destruct (import_models env) as [[]|] eqn:Himport.
  - rewrite completed_settles.
    destruct H as [[Hr Hb]|[Hr Hb]]; rewrite Hr, Hb.
    + apply detect_roberta_shape in Hr
        as (? & ? & ? & ? & ? & ? & ? & _ & _ & _ & _ & _ & ->).
      reflexivity.
    + apply detect_binoculars_shape in Hb
        as (? & ? & ? & ? & ? & ? & ? & _ & _ & _ & _ & _ & ->).
      reflexivity.
  - destruct (detector_needs_imports env text) as [Hr Hb];
      [rewrite Himport; discriminate|].
    destruct H as [[H _]|[_ H]]; congruence.
Qed.

(** Both detectors succeeded: the combined result. *)
Lemma advanced_both_succeed (env : environment) (text : string) (r b : dict) :
  detect_roberta env text = Some r -> detect_binoculars env text = Some b ->
  exists r_score b_score r_indicators b_indicators,
    dict_get r "ai_likelihood" = Some (VFloat r_score)
    /\ dict_get b "ai_likelihood" = Some (VFloat b_score)
    /\ dict_get r "indicators" = Some (VList r_indicators)
    /\ dict_get b "indicators" = Some (VList b_indicators)
    /\ detect_ai_content_advanced env text
       = ([("ai_likelihood",
            VFloat (round (r_score * 0.6 + b_score * 0.4) 2));
           ("confidence", VFloat 0.92);
           ("indicators", VList (r_indicators ++ b_indicators));
           ("model", VStr "combined:roberta+binoculars");
           ("note", VStr "Combined RoBERTa (60%) and Binoculars (40%) detection");
           ("roberta_score", VFloat r_score);
           ("binoculars_score", VFloat b_score);
           ("individual_results",
            VDict [("roberta", VDict r); ("binoculars", VDict b)])],
          [CallRoberta; CallBinoculars]).
Proof.
  intros Hr Hb. unfold detect_ai_content_advanced.
  rewrite completed_settles, Hr, Hb.
  apply detect_roberta_shape in Hr
    as (? & ? & ? & ? & ? & ? & ? & Himport & _ & _ & _ & _ & ->).
  apply detect_binoculars_shape in Hb
    as (? & ? & ? & ? & ? & ? & ? & _ & _ & _ & _ & _ & ->).
  rewrite Himport. do 4 eexists. repeat split.
Qed.

Lemma shape_has_fields (a c n x : value) (i : list value) (m : string) :
  has_fields [("ai_likelihood", a); ("confidence", c); ("indicators", VList i);
              ("model", VStr m); ("note", n); ("chunk_analysis", x)].
Proof. unfold has_fields. repeat eexists. Qed.

Lemma advanced_has_fields (env : environment) (text : string) :
  has_fields (fst (detect_ai_content_advanced env text)).
Proof.
  destruct (detect_roberta env text) as [r|] eqn:Hr;
    destruct (detect_binoculars env text) as [b|] eqn:Hb.
  - destruct (advanced_both_succeed env text r b Hr Hb)
      as (? & ? & ? & ? & _ & _ & _ & _ & ->).
    unfold has_fields. cbn [fst]. repeat eexists.
  - rewrite (advanced_one_succeeds env text r) by (left; now split).
    apply detect_roberta_shape in Hr
      as (? & ? & ? & ? & ? & ? & ? & _ & _ & _ & _ & _ & ->).
    apply shape_has_fields.
  - rewrite (advanced_one_succeeds env text b) by (right; now split).
    apply detect_binoculars_shape in Hb
      as (? & ? & ? & ? & ? & ? & ? & _ & _ & _ & _ & _ & ->).
    apply shape_has_fields.
  - rewrite advanced_both_fail by assumption.
    apply detect_ai_content_simple_fields.
Qed.

(** ** The entry point *)

Lemma gate_closed (text : string) :
  ~ too_short (Some text) ->
  is_empty text || (len (strip text) <? 50) = false.
Proof.
  intros Hlong. cbn [too_short] in Hlong.
  destruct text as [|c text]; [exfalso; apply Hlong; reflexivity|].
  cbn [is_empty orb]. apply Z.ltb_ge. lia.
Qed.

Lemma gate_open (text : option string) :
  too_short text ->
  match text with
  | None => True
  | Some s => is_empty s || (len (strip s) <? 50) = true
  end.
Proof.
  destruct text as [s|]; [|trivial]. cbn [too_short]. intros H.
  apply orb_true_iff. right. now apply Z.ltb_lt.
Qed.

(** The merge keeps the primary fields of the result it is given. *)
Lemma final_result_advanced (h d debug_info : dict) :
  has_fields h -> has_fields d ->
  exists res, final_result h (Some d) debug_info = Ok res
              /\ same_primary res d.
Proof.
  intros (ha & hc & hi & hm & hn & Ha & Hc & Hi & Hm & Hn & _)
         (a & c & i & m & n & Da & Dc & Di & Dm & Dn & De).
  unfold final_result.
  assert (Htruthy : truthy (Some d) = true)
    by (destruct d; [discriminate | reflexivity]).
  rewrite Htruthy. cbn [unwrap]. unfold getitem.
  rewrite Da, Dc, Di, Dm, Dn, Ha, Hi, Hm. cbn [bind].
  eexists. split; [reflexivity|].
  intros k Hk. rewrite !pass_through_other.
  - cbn in Hk.
    destruct Hk as [<-|[<-|[<-|[<-|[<-|[<-|[]]]]]]]; cbn; congruence.
  - cbn in Hk. intros <-.
    destruct Hk as [H|[H|[H|[H|[H|[H|[]]]]]]]; discriminate.
  - cbn in Hk. intros <-.
    destruct Hk as [H|[H|[H|[H|[H|[H|[]]]]]]]; discriminate.
  - cbn in Hk. intros <-.
    destruct Hk as [H|[H|[H|[H|[H|[H|[]]]]]]]; discriminate.
Qed.

Lemma final_result_heuristic (h debug_info : dict) :
  same_primary (dict_set h "_debug" (VDict debug_info)) h.
Proof.
  intros k Hk. apply dict_get_set_other. cbn in Hk. intros <-.
  destruct Hk as [H|[H|[H|[H|[H|[H|[]]]]]]]; discriminate.
Qed.

(** Past the gate, the entry point returns a result, whose primary fields
    are those of the heuristic result or, when the advanced detection ran
    and did not itself answer with the heuristics, those of the advanced
    result. *)
Lemma analyze_cases (env : environment) (text : string) :
  ~ too_short (Some text) ->
  exists d calls,
    analyze_ai_likelihood env (Some text) = (Ok d, CallSimple :: calls)
    /\ ((same_primary d (detect_ai_content_simple env text)
         /\ (calls = [] \/ dict_get (fst (detect_ai_content_advanced env text)) "model"
                           = Some (VStr "statistical_heuristics")))
        \/ (same_primary d (fst (detect_ai_content_advanced env text))
            /\ allow_advanced env = true
            /\ transformers_available env = true
            /\ dict_get (fst (detect_ai_content_advanced env text)) "model"
               <> Some (VStr "statistical_heuristics"))).
Proof.
  intros Hlong. unfold analyze_ai_likelihood.
  rewrite (gate_closed text Hlong). unfold advanced_attempt.
  destruct (allow_advanced env) eqn:Hallow.
  2:{ do 2 eexists. split; [reflexivity|]. left. split; [|now left].
      apply final_result_heuristic. }
  destruct (transformers_available env) eqn:Htrans.
  2:{ do 2 eexists. split; [reflexivity|]. left. split; [|now left].
      apply final_result_heuristic. }
  pose proof (advanced_has_fields env text) as Hfields.
  destruct (detect_ai_content_advanced env text) as [adv calls] eqn:Hadv.
  cbn [fst] in *.
  destruct Hfields as (a & c & i & m & n & Da & Dc & Di & Dm & Dn & De) eqn:Hf.
  unfold getitem. rewrite Dm. cbn [eq_str].
  destruct (String.eqb_spec m "statistical_heuristics") as [->|Hm].
  - do 2 eexists. split; [reflexivity|]. left. split; [|now right].
    apply final_result_heuristic.
  - destruct (final_result_advanced (detect_ai_content_simple env text) adv
                (dict_set
                   (dict_set (dict_set (initial_debug_info env) "allow_advanced"
                                       (VBool true))
                      "advanced_result_model"
                      (if truthy (Some adv) then get_default adv "model" VNone
                       else VNone))
                   "advanced_success" (VBool true))
                (detect_ai_content_simple_fields env text)
                (ex_intro _ a (ex_intro _ c (ex_intro _ i (ex_intro _ m
                   (ex_intro _ n (conj Da (conj Dc (conj Di (conj Dm
                      (conj Dn De)))))))))))
      as (res & Hres & Hsame).
    rewrite Hres. do 2 eexists. split; [reflexivity|]. right.
    repeat split; try assumption. congruence.
Qed.

Example heuristic_human_text :
  heuristic_scoring human_text = Ok (0, []).
Proof. vm_compute. reflexivity. Qed.

Example heuristic_ai_text :
  heuristic_scoring ai_text
  = Ok (50, ["Low sentence length variance"; "Lack of personal pronouns"]).
Proof. vm_compute. reflexivity. Qed.

Example heuristic_one_sentence :
  heuristic_scoring one_sentence_text = Raise StatisticsError.
Proof. vm_compute. reflexivity. Qed.

(** The two runs of the entry point when no model loads: the heuristics
    answer, or their error path does and is passed on as the advanced
    result. *)
Example analyze_without_models :
  analyze_ai_likelihood failing_env (Some ai_text)
  = (Ok [("ai_likelihood", VInt 50);
         ("confidence", VFloat 0.7);
         ("indicators", VList [VStr "Low sentence length variance";
                               VStr "Lack of personal pronouns"]);
         ("model", VStr "statistical_heuristics");
         ("note", VStr "Using simplified detection. Install transformers for better accuracy.");
         ("_debug",
          VDict [("cache_dir", VStr "~/.cache/huggingface");
                 ("cache_dir_writable", VBool true);
                 ("transformers_available", VBool true);
                 ("transformers_version", VStr "4");
                 ("transformers_location", VStr "transformers");
                 ("allow_advanced", VBool true);
                 ("advanced_result_model", VStr "statistical_heuristics");
                 ("why_failed", VStr "advanced_detection_returned_heuristics")])],
     [CallSimple; CallAdvanced; CallRoberta; CallBinoculars; CallSimple]).
Proof. vm_compute. reflexivity. Qed.

Example analyze_heuristics_raise :
  analyze_ai_likelihood failing_env (Some one_sentence_text)
  = (Ok [("ai_likelihood", VInt 50);
         ("confidence", VFloat 0.3);
         ("indicators", VList [VStr "Error during analysis"]);
         ("model", VStr "fallback");
         ("note", VStr "StatisticsError");
         ("heuristic_score", VInt 50);
         ("heuristic_indicators", VList [VStr "Error during analysis"]);
         ("heuristic_model", VStr "fallback");
         ("_debug",
          VDict [("cache_dir", VStr "~/.cache/huggingface");
                 ("cache_dir_writable", VBool true);
                 ("transformers_available", VBool true);
                 ("transformers_version", VStr "4");
                 ("transformers_location", VStr "transformers");
                 ("allow_advanced", VBool true);
                 ("advanced_result_model", VStr "fallback");
                 ("advanced_success", VBool true)])],
     [CallSimple; CallAdvanced; CallRoberta; CallBinoculars; CallSimple]).
Proof. vm_compute. reflexivity. Qed.

Lemma short_gate_result (env : environment) (text : option string) :
  too_short text ->
  analyze_ai_likelihood env text = (Ok too_short_result, [])
  /\ fst (analyze_ai_likelihood env text) = Ok too_short_result.
Proof.
  intros Hshort. apply gate_open in Hshort. unfold analyze_ai_likelihood.
  destruct text as [s|]; [|split; reflexivity].
  rewrite Hshort. split; reflexivity.
Qed.

(** C1.  For an input below the length gate ([None], or a string whose
    stripped length is less than 50), [analyze_ai_likelihood] returns
    [ai_likelihood = 50], [confidence = 0] and no indicator, whatever the
    text, and its call log is empty: neither the heuristic scorer nor a
    model-backed detector was invoked. *)
Theorem short_text_gate (env : environment) (text : option string) :
  too_short text ->
  exists d,
    analyze_ai_likelihood env text = (Ok d, [])
    /\ dict_get d "ai_likelihood" = Some (VInt 50)
    /\ dict_get d "confidence" = Some (VInt 0)
    /\ dict_get d "indicators" = Some (VList []).
Proof.
  intros Hshort. exists too_short_result.
  split; [|repeat split]. unfold analyze_ai_likelihood.
  apply gate_open in Hshort. destruct text as [s|]; [|reflexivity].
  now rewrite Hshort.
Qed.

Lemma short_text_gate_witness :
  exists d,
    analyze_ai_likelihood sample_env (Some "   Too short, whatever it says.  ")
    = (Ok d, [])
    /\ dict_get d "ai_likelihood" = Some (VInt 50)
    /\ dict_get d "confidence" = Some (VInt 0)
    /\ dict_get d "indicators" = Some (VList []).
Proof.
  apply (short_text_gate sample_env (Some "   Too short, whatever it says.  ")).
  vm_compute. reflexivity.
Defined.

(** C9.  Below the length gate the returned object has an ['error'] field
    with the too-short message and neither a ['model'] nor a ['note']
    field; every other result of the entry point has ['model'] and
    ['note'] and no ['error']. *)
Theorem gate_result_fields (env : environment) (text : option string) :
  (too_short text ->
   exists d, fst (analyze_ai_likelihood env text) = Ok d
             /\ dict_get d "error" = Some (VStr "Text too short for AI detection")
             /\ dict_has d "model" = false
             /\ dict_has d "note" = false)
  /\ (~ too_short text ->
      exists d, fst (analyze_ai_likelihood env text) = Ok d
                /\ dict_has d "error" = false
                /\ dict_has d "model" = true
                /\ dict_has d "note" = true).
Proof.
  split; intros Hgate.
  - apply gate_open in Hgate. exists too_short_result.
    split; [|repeat split]. unfold analyze_ai_likelihood.
    destruct text as [s|]; [|reflexivity]. now rewrite Hgate.
  - destruct text as [s|]; [|exfalso; apply Hgate; exact I].
    destruct (analyze_cases env s Hgate) as (d & calls & Hd & Hsrc).
    exists d. rewrite Hd. split; [reflexivity|].
    assert (Hfields : exists src, same_primary d src /\ has_fields src).
    { destruct Hsrc as [[Hsame _]|[Hsame _]]; eexists; split;
        [exact Hsame | apply detect_ai_content_simple_fields
        | exact Hsame | apply advanced_has_fields]. }
    destruct Hfields as (src & Hsame & (a & c & i & m & n & _ & _ & _ & Hm & Hn & He)).
    unfold dict_has.
    rewrite (Hsame "error"), (Hsame "model"), (Hsame "note"), He, Hm, Hn
      by (cbn; tauto).
    repeat split.
Qed.

Lemma gate_result_fields_witness :
  (exists d, fst (analyze_ai_likelihood failing_env (Some "Hello there.")) = Ok d
             /\ dict_get d "error" = Some (VStr "Text too short for AI detection")
             /\ dict_has d "model" = false
             /\ dict_has d "note" = false)
  /\ (exists d, fst (analyze_ai_likelihood failing_env (Some ai_text)) = Ok d
                /\ dict_has d "error" = false
                /\ dict_has d "model" = true
                /\ dict_has d "note" = true).
Proof.
  split.
  - apply (proj1 (gate_result_fields failing_env (Some "Hello there."))).
    vm_compute. reflexivity.
  - apply (proj2 (gate_result_fields failing_env (Some ai_text))).
    intros H. vm_compute in H. discriminate.
Defined.

(** C3.  When both model-backed detectors fail, the ensemble's result and
    the entry point's result carry the heuristic model tag and confidence
    0.7; when the heuristic scorer itself raises, they carry
    [ai_likelihood = 50], [confidence = 0.3] and the fallback tag. *)
Theorem both_detectors_fail (env : environment) (text : string) :
  detect_roberta env text = None -> detect_binoculars env text = None ->
  (forall st, heuristic_scoring text = Ok st ->
     answers_with (fst (detect_ai_content_advanced env text))
                  0.7 "statistical_heuristics"
     /\ (~ too_short (Some text) ->
         exists d, fst (analyze_ai_likelihood env (Some text)) = Ok d
                   /\ answers_with d 0.7 "statistical_heuristics"))
  /\ (forall e, heuristic_scoring text = Raise e ->
     (answers_with (fst (detect_ai_content_advanced env text)) 0.3 "fallback"
      /\ dict_get (fst (detect_ai_content_advanced env text)) "ai_likelihood"
         = Some (VInt 50))
     /\ (~ too_short (Some text) ->
         exists d, fst (analyze_ai_likelihood env (Some text)) = Ok d
                   /\ answers_with d 0.3 "fallback"
                   /\ dict_get d "ai_likelihood" = Some (VInt 50))).
Proof.
  intros Hr Hb.
  assert (Hadv := advanced_both_fail env text Hr Hb).
  assert (Hentry : ~ too_short (Some text) ->
            exists d, fst (analyze_ai_likelihood env (Some text)) = Ok d
                      /\ same_primary d (detect_ai_content_simple env text)).
  { intros Hlong.
    destruct (analyze_cases env text Hlong) as (d & calls & Hd & Hsrc).
    exists d. rewrite Hd. split; [reflexivity|].
    destruct Hsrc as [[Hsame _]|[Hsame _]];
      [exact Hsame | now rewrite <- Hadv]. }
  unfold answers_with. rewrite Hadv. unfold detect_ai_content_simple in *.
  split.
  - intros st Hst. rewrite Hst in *. split; [split; reflexivity|].
    intros Hlong. destruct (Hentry Hlong) as (d & Hd & Hsame).
    exists d. split; [exact Hd|].
    rewrite (Hsame "confidence"), (Hsame "model") by (cbn; tauto).
    split; reflexivity.
  - intros e He. rewrite He in *. split; [repeat split|].
    intros Hlong. destruct (Hentry Hlong) as (d & Hd & Hsame).
    exists d. split; [exact Hd|].
    rewrite (Hsame "confidence"), (Hsame "model"), (Hsame "ai_likelihood")
      by (cbn; tauto).
    repeat split.
Qed.

Lemma both_detectors_fail_witness :
  answers_with (fst (detect_ai_content_advanced failing_env ai_text))
               0.7 "statistical_heuristics"
  /\ answers_with (fst (detect_ai_content_advanced failing_env one_sentence_text))
                  0.3 "fallback".
Proof.
  split.
  - apply (proj1 (both_detectors_fail failing_env ai_text eq_refl eq_refl)
             (50, ["Low sentence length variance"; "Lack of personal pronouns"])).
    vm_compute. reflexivity.
  - apply (proj2 (both_detectors_fail failing_env one_sentence_text
                    eq_refl eq_refl) StatisticsError).
    vm_compute. reflexivity.
Defined.

(** ** Rounding and averages *)

Open Scope R_scope.

Lemma Rabs_le_between (a b : R) : Rabs a <= b -> - b <= a <= b.
Proof. unfold Rabs. destruct (Rcase_abs a); lra. Qed.

Lemma round_half_even_near (x : R) :
  Rabs (IZR (round_half_even x) - x) <= 1 / 2.
Proof.
  unfold round_half_even. pose proof (Zfloor_bound x) as [Hlo Hhi].
  destruct (Rlt_dec (x - IZR (Zfloor x)) (1 / 2)) as [Hd|Hd].
  - apply Rabs_le. lra.
  - destruct (Rlt_dec (1 / 2) (x - IZR (Zfloor x))) as [Hu|Hu].
    + rewrite plus_IZR. apply Rabs_le. lra.
    + destruct (Z.even (Zfloor x)); [|rewrite plus_IZR]; apply Rabs_le; lra.
Qed.

Lemma round_half_even_unique (x : R) (n : Z) :
  Rabs (x - IZR n) < 1 / 2 -> round_half_even x = n.
Proof.
  intros Hnear. apply Rabs_def2 in Hnear as [Hhi Hlo].
  unfold round_half_even.
  destruct (Rle_lt_dec (IZR n) x) as [Hle|Hlt].
  - assert (Hf : Zfloor x = n) by (apply Zfloor_eq; lra).
    rewrite Hf. destruct (Rlt_dec (x - IZR n) (1 / 2)); [reflexivity | lra].
  - assert (Hf : Zfloor x = (n - 1)%Z)
      by (apply Zfloor_eq; rewrite minus_IZR; lra).
    rewrite Hf, minus_IZR.
    destruct (Rlt_dec (x - (IZR n - 1)) (1 / 2)); [lra|].
    destruct (Rlt_dec (1 / 2) (x - (IZR n - 1))); [lia | lra].
Qed.

Lemma round_half_even_between (x : R) (lo hi : Z) :
  IZR lo <= x <= IZR hi -> (lo <= round_half_even x <= hi)%Z.
Proof.
  intros [Hlo Hhi].
  pose proof (round_half_even_near x) as Hnear. apply Rabs_le_between in Hnear.
  split.
  - apply Z.lt_succ_r, lt_IZR. rewrite succ_IZR. lra.
  - apply Z.lt_succ_r, lt_IZR. rewrite succ_IZR. lra.
Qed.

Lemma round_2_value (x : R) (n : Z) :
  Rabs (x * 100 - IZR n) < 1 / 2 -> round x 2 = IZR n / 100.
Proof.
  intros H. unfold round.
  replace (10 ^ 2) with 100 by (simpl; lra).
  now rewrite (round_half_even_unique (x * 100) n).
Qed.

Lemma round_2_near (x : R) : Rabs (round x 2 - x) <= 0.005.
Proof.
  unfold round. replace (10 ^ 2) with 100 by (simpl; lra).
  pose proof (round_half_even_near (x * 100)) as H.
  apply Rabs_le_between in H. apply Rabs_le. lra.
Qed.

Lemma round_2_between (x : R) :
  0 <= x <= 100 -> 0 <= round x 2 <= 100.
Proof.
  intros Hx. unfold round. replace (10 ^ 2) with 100 by (simpl; lra).
  destruct (round_half_even_between (x * 100) 0 10000) as [Hlo Hhi]; [lra|].
  apply IZR_le in Hlo, Hhi. lra.
Qed.

Lemma sum_R_between (lo hi : R) (l : list R) :
  Forall (fun s => lo <= s <= hi) l ->
  INR (List.length l) * lo <= sum_R l <= INR (List.length l) * hi.
Proof.
  induction 1 as [|s l Hs Hl IH].
  - simpl. lra.
  - cbn [List.length sum_R fold_right]. rewrite S_INR.
    fold (sum_R l). lra.
Qed.

Lemma div_len_ok (x y : R) (n : nat) :
  div_len x n = Ok y -> (0 < n)%nat /\ y = x / INR n.
Proof.
  unfold div_len. destruct n; [discriminate|].
  intros H. injection H as <-. split; [lia | reflexivity].
Qed.

Lemma aggregate_avg (scores : list R) (stats : R * R * R * R) :
  aggregate scores = Ok stats ->
  (0 < List.length scores)%nat
  /\ avg_of stats = sum_R scores / INR (List.length scores).
Proof.
  unfold aggregate. intros H.
  destruct (div_len (sum_R scores) (List.length scores)) as [avg|] eqn:Havg;
    [|discriminate].
  cbn [bind] in H.
  destruct (min_R scores); [|discriminate]. cbn [bind] in H.
  destruct (max_R scores); [|discriminate]. cbn [bind] in H.
  destruct (div_len (sum_R (map _ scores)) _); [|discriminate].
  cbn [bind] in H.
  injection H as <-. apply div_len_ok in Havg. exact Havg.
Qed.

(** The average of scores between [lo] and [hi] lies between them. *)
Lemma aggregate_avg_between (lo hi : R) (scores : list R)
  (stats : R * R * R * R) :
  Forall (fun s => lo <= s <= hi) scores ->
  aggregate scores = Ok stats ->
  lo <= avg_of stats <= hi.
Proof.
  intros Hall Hagg. apply aggregate_avg in Hagg as [Hlen ->].
  pose proof (sum_R_between lo hi scores Hall) as Hsum.
  assert (Hn : 0 < INR (List.length scores)) by now apply lt_0_INR.
  assert (Heq : sum_R scores
                = sum_R scores / INR (List.length scores)
                  * INR (List.length scores)) by (field; lra).
  set (avg := sum_R scores / INR (List.length scores)) in *.
  split; apply Rmult_le_reg_r with (INR (List.length scores)); lra.
Qed.

Close Scope R_scope.

(** ** The perplexity comparator's score *)

Lemma map_result_Forall2 {A B} (f : A -> result B) (xs : list A) :
  forall ys, map_result f xs = Ok ys ->
  Forall2 (fun x y => f x = Ok y) xs ys.
Proof.
  induction xs as [|x xs IH]; intros ys H; cbn [map_result] in H.
  - injection H as <-. constructor.
  - destruct (f x) as [y|] eqn:Hx; [|discriminate]. cbn [bind] in H.
    destruct (map_result f xs) as [ys'|]; [|discriminate]. cbn [bind] in H.
    injection H as <-. constructor; [assumption | now apply IH].
Qed.

Open Scope R_scope.

Lemma binoculars_denominator (loss_b : R) : 0 < Rabs loss_b + 1e-6.
Proof. pose proof (Rabs_pos loss_b). lra. Qed.

Lemma binoculars_chunk_score_formula (loss_a loss_b : R) :
  binoculars_chunk_score loss_a loss_b
  = 100 / (1 + exp (- ((loss_a - loss_b) / (Rabs loss_b + 1e-6)) * 3.0)).
Proof.
  unfold binoculars_chunk_score, binoculars_ratio.
  pose proof (exp_pos (- ((loss_a - loss_b) / (Rabs loss_b + 1e-6)) * 3.0)).
  field. lra.
Qed.

Lemma binoculars_chunk_score_between (loss_a loss_b : R) :
  0 < binoculars_chunk_score loss_a loss_b < 100.
Proof.
  unfold binoculars_chunk_score.
  set (e := exp (- binoculars_ratio loss_a loss_b * 3.0)).
  assert (He : 0 < e) by apply exp_pos.
  assert (Hinv : 0 < / (1 + e)) by (apply Rinv_0_lt_compat; lra).
  assert (Hone : / (1 + e) < 1).
  { rewrite <- Rinv_1 at 2. apply Rinv_lt_contravar; lra. }
  unfold Rdiv. lra.
Qed.

Lemma binoculars_chunk_score_increasing (loss_b loss_a1 loss_a2 : R) :
  loss_a1 - loss_b < loss_a2 - loss_b ->
  binoculars_chunk_score loss_a1 loss_b < binoculars_chunk_score loss_a2 loss_b.
Proof.
  intros Hlt. unfold binoculars_chunk_score, binoculars_ratio.
  pose proof (binoculars_denominator loss_b) as Hd.
  set (d := Rabs loss_b + 1e-6) in *.
  assert (Hratio : (loss_a1 - loss_b) / d < (loss_a2 - loss_b) / d).
  { unfold Rdiv. apply Rmult_lt_compat_r; [now apply Rinv_0_lt_compat | lra]. }
  set (r1 := (loss_a1 - loss_b) / d) in *.
  set (r2 := (loss_a2 - loss_b) / d) in *.
  assert (Hexp : exp (- r2 * 3.0) < exp (- r1 * 3.0))
    by (apply exp_increasing; lra).
  pose proof (exp_pos (- r2 * 3.0)) as H2.
  assert (Hinv : / (1 + exp (- r1 * 3.0)) < / (1 + exp (- r2 * 3.0))).
  { apply Rinv_lt_contravar; [|lra].
    apply Rmult_lt_0_compat; lra. }
  unfold Rdiv. lra.
Qed.

(** The score grows with the ratio. *)
Lemma binoculars_chunk_score_by_ratio (loss_a1 loss_b1 loss_a2 loss_b2 : R) :
  binoculars_ratio loss_a1 loss_b1 < binoculars_ratio loss_a2 loss_b2 ->
  binoculars_chunk_score loss_a1 loss_b1 < binoculars_chunk_score loss_a2 loss_b2.
Proof.
  intros Hratio. unfold binoculars_chunk_score.
  set (r1 := binoculars_ratio loss_a1 loss_b1) in *.
  set (r2 := binoculars_ratio loss_a2 loss_b2) in *.
  assert (Hexp : exp (- r2 * 3.0) < exp (- r1 * 3.0))
    by (apply exp_increasing; lra).
  pose proof (exp_pos (- r2 * 3.0)) as H2.
  assert (Hinv : / (1 + exp (- r1 * 3.0)) < / (1 + exp (- r2 * 3.0))).
  { apply Rinv_lt_contravar; [|lra].
    apply Rmult_lt_0_compat; lra. }
  unfold Rdiv. lra.
Qed.

Lemma binoculars_chunk_score_neutral (loss : R) :
  binoculars_chunk_score loss loss = 50.
Proof.
  unfold binoculars_chunk_score, binoculars_ratio.
  replace (- ((loss - loss) / (Rabs loss + 1e-6)) * 3.0) with 0
    by (unfold Rdiv; ring).
  rewrite exp_0. lra.
Qed.

(** For a given [loss_b] the score does not decrease when
    [loss_a - loss_b] grows. *)
Lemma binoculars_chunk_score_monotone (loss_b loss_a1 loss_a2 : R) :
  loss_a1 - loss_b <= loss_a2 - loss_b ->
  binoculars_chunk_score loss_a1 loss_b <= binoculars_chunk_score loss_a2 loss_b.
Proof.
  intros [Hlt|Heq].
  - left. now apply binoculars_chunk_score_increasing.
  - right. f_equal. lra.
Qed.

Close Scope R_scope.

(** ** The heuristics *)

Lemma Qltb_lt (x y : Q) : Qltb x y = true <-> (x < y)%Q.
Proof.
  unfold Qltb. rewrite negb_true_iff. split; intros H.
  - apply Qnot_le_lt. intros Hle. apply Qle_bool_iff in Hle. congruence.
  - destruct (Qle_bool y x) eqn:E; [|reflexivity].
    apply Qle_bool_iff in E. exfalso. now apply (Qlt_not_le x y).
Qed.

(** ** Doubles *)

Lemma Qpow2_pos (e : Z) : (0 < 2 ^ e)%Q.
Proof. now apply Qpower_0_lt. Qed.

Lemma Qpow2_inject (n : Z) : 0 <= n -> (inject_Z (2 ^ n) == 2 ^ n)%Q.
Proof. intros Hn. now rewrite Zpower_Qpower. Qed.

Lemma Qpow2_minus (a b : Z) : (2 ^ (a - b) == 2 ^ a / 2 ^ b)%Q.
Proof. now apply Qpower_minus. Qed.

Lemma Qpow2_plus (a b : Z) : (2 ^ (a + b) == 2 ^ a * 2 ^ b)%Q.
Proof. now apply Qpower_plus. Qed.

(** A positive integer lies between the powers of two that [Z.log2]
    names. *)
Lemma Qpow2_log2 (n : Z) :
  0 < n -> (2 ^ Z.log2 n <= inject_Z n < 2 ^ (Z.log2 n + 1))%Q.
Proof.
  intros Hn. destruct (Z.log2_spec n Hn) as [Hlo Hhi].
  pose proof (Z.log2_nonneg n) as Hnn.
  rewrite <- !Qpow2_inject by lia. rewrite <- Zle_Qle, <- Zlt_Qlt.
  split; [assumption|]. now rewrite <- Z.add_1_r in Hhi.
Qed.

Lemma Qlog2_spec (x : Q) :
  (0 < x)%Q -> (2 ^ Qlog2 x <= x < 2 ^ (Qlog2 x + 1))%Q.
Proof.
  intros Hx. destruct x as [p q].
  assert (Hp : 0 < p) by (unfold Qlt in Hx; cbn in Hx; lia).
  unfold Qlog2. cbn [Qnum Qden].
  set (a := Z.log2 p). set (b := Z.log2 (Zpos q)).
  destruct (Qpow2_log2 p Hp) as [Hplo Hphi]. fold a in Hplo, Hphi.
  destruct (Qpow2_log2 (Zpos q) eq_refl) as [Hqlo Hqhi]. fold b in Hqlo, Hqhi.
  assert (Hq : (0 < inject_Z (Zpos q))%Q) by reflexivity.
  assert (Hx' : (p # q == inject_Z p / inject_Z (Zpos q))%Q)
    by apply Qmake_Qdiv.
  assert (Hup : (p # q < 2 ^ (a - b + 1))%Q).
  { rewrite Hx'. apply Qlt_shift_div_r; [assumption|].
    apply Qlt_le_trans with (2 ^ (a + 1))%Q; [assumption|].
    replace (a + 1) with ((a - b + 1) + b) by lia. rewrite Qpow2_plus.
    apply Qmult_le_l; [apply Qpow2_pos | assumption]. }
  assert (Hdown : (2 ^ (a - b - 1) <= p # q)%Q).
  { rewrite Hx'. apply Qle_shift_div_l; [assumption|].
    apply Qle_trans with (2 ^ a)%Q; [|assumption].
    replace a with ((a - b - 1) + (b + 1)) at 2 by lia. rewrite Qpow2_plus.
    apply Qmult_le_l; [apply Qpow2_pos | now apply Qlt_le_weak]. }
  destruct (Qltb (p # q) (2 ^ (a - b))) eqn:Hcmp.
  - apply Qltb_lt in Hcmp. split; [assumption|].
    now replace (a - b - 1 + 1) with (a - b) by lia.
  - split; [|assumption].
    apply Qnot_lt_le. intros Hlt. apply Qltb_lt in Hlt. congruence.
Qed.

(** The nearest integer is within a half. *)
Lemma Qround_half_even_near (x : Q) :
  (inject_Z (Qround_half_even x) - (1 # 2) <= x
   <= inject_Z (Qround_half_even x) + (1 # 2))%Q.
Proof.
  unfold Qround_half_even.
  pose proof (Qfloor_le x) as Hlo. pose proof (Qlt_floor x) as Hhi.
  set (f := Qfloor x) in *. rewrite inject_Z_plus in Hhi.
  change (inject_Z 1) with 1%Q in Hhi.
  assert (Hcases : (x - inject_Z f <= 1 # 2 ->
                    inject_Z f - (1 # 2) <= x <= inject_Z f + (1 # 2))%Q).
  { intros H. generalize dependent (inject_Z f). intros F Hlo Hhi H.
    split; Lqa.lra. }
  assert (Hcases' : (1 # 2 <= x - inject_Z f ->
                     inject_Z (f + 1) - (1 # 2) <= x
                     <= inject_Z (f + 1) + (1 # 2))%Q).
  { intros H. rewrite inject_Z_plus. change (inject_Z 1) with 1%Q.
    generalize dependent (inject_Z f). intros F Hlo Hhi _ H.
    split; Lqa.lra. }
  destruct (x - inject_Z f ?= 1 # 2)%Q eqn:Hcmp.
  - apply Qeq_alt in Hcmp.
    destruct (Z.even f); [apply Hcases | apply Hcases']; rewrite Hcmp;
      apply Qle_refl.
  - apply Qlt_alt in Hcmp. apply Hcases. now apply Qlt_le_weak.
  - apply Qgt_alt in Hcmp. apply Hcases'. now apply Qlt_le_weak.
Qed.

Lemma Qround_half_even_ge (x : Q) (n : Z) :
  (inject_Z n <= x)%Q -> n <= Qround_half_even x.
Proof.
  intros Hn. assert (Hf : n <= Qfloor x).
  { rewrite <- (Qfloor_Z n). now apply Qfloor_resp_le. }
  unfold Qround_half_even.
  destruct (x - inject_Z (Qfloor x) ?= 1 # 2)%Q;
    [destruct (Z.even (Qfloor x))| |]; lia.
Qed.

(** A positive fraction and the double nearest to it: a significand [m]
    of 53 bits, [2^52 <= m <= 2^53], within a half of [x / 2^e]. *)
Lemma float_of_Q_spec (x : Q) :
  (0 < x)%Q ->
  exists m e,
    (float_of_Q x == inject_Z m * 2 ^ e)%Q
    /\ 2 ^ 52 <= m <= 2 ^ 53
    /\ (2 ^ 52 <= x / 2 ^ e)%Q
    /\ (inject_Z m - (1 # 2) <= x / 2 ^ e <= inject_Z m + (1 # 2))%Q.
Proof.
  intros Hx. unfold float_of_Q.
  assert (Hpos : Qle_bool x 0 = false).
  { destruct (Qle_bool x 0) eqn:E; [|reflexivity].
    apply Qle_bool_iff in E. exfalso. now apply (Qlt_not_le 0 x). }
  rewrite Hpos. cbv zeta.
  set (e := Qlog2 x - 52).
  exists (Qround_half_even (x / 2 ^ e)), e.
  split; [apply Qred_correct|].
  destruct (Qlog2_spec x Hx) as [Hlo Hhi].
  pose proof (Qpow2_pos e) as He.
  assert (Hscaled : (2 ^ 52 <= x / 2 ^ e < 2 ^ 53)%Q).
  { split.
    - apply Qle_shift_div_l; [assumption|].
      rewrite <- Qpow2_plus. now replace (52 + e) with (Qlog2 x) by lia.
    - apply Qlt_shift_div_r; [assumption|].
      rewrite <- Qpow2_plus. now replace (53 + e) with (Qlog2 x + 1) by lia. }
  pose proof (Qround_half_even_near (x / 2 ^ e)) as Hnear.
  split; [|split; [apply Hscaled | exact Hnear]].
  split.
  - apply Qround_half_even_ge. rewrite Qpow2_inject by lia. apply Hscaled.
  - destruct Hscaled as [_ Hup]. destruct Hnear as [Hnear _].
    assert (H53 : (inject_Z (2 ^ 53) == 2 ^ 53)%Q)
      by (apply Qpow2_inject; lia).
    rewrite <- H53 in Hup.
    assert (H : (inject_Z (Qround_half_even (x / 2 ^ e)) < inject_Z (2 ^ 53 + 1))%Q).
    { rewrite inject_Z_plus. change (inject_Z 1) with 1%Q.
      revert Hnear Hup. generalize (x / 2 ^ e)%Q (inject_Z (2 ^ 53)).
      generalize (inject_Z (Qround_half_even (x / 2 ^ e))).
      intros M y B. Lqa.lra. }
    rewrite <- Zlt_Qlt in H. lia.
Qed.

Lemma float_of_Q_pos (x : Q) : (0 < x)%Q -> (0 < float_of_Q x)%Q.
Proof.
  intros Hx. destruct (float_of_Q_spec x Hx) as (m & e & -> & [Hm _] & _).
  apply Qmult_lt_0_compat; [|apply Qpow2_pos].
  change 0%Q with (inject_Z 0). rewrite <- Zlt_Qlt. lia.
Qed.

(** The relative error of a conversion is at most [2^-53]. *)
Lemma float_of_Q_error (x : Q) :
  (0 < x)%Q ->
  (x * (1 - (1 # 2 ^ 53)) <= float_of_Q x <= x * (1 + (1 # 2 ^ 53)))%Q.
Proof.
  intros Hx.
  destruct (float_of_Q_spec x Hx) as (m & e & -> & _ & Hy & Hlo & Hhi).
  pose proof (Qpow2_pos e) as He.
  assert (Hx' : (x == x / 2 ^ e * 2 ^ e)%Q).
  { field. intros H. rewrite H in He. now apply (Qlt_irrefl 0). }
  change (2 ^ 52)%Q with (inject_Z (2 ^ 52)) in Hy.
  revert Hy Hlo Hhi Hx'. generalize (x / 2 ^ e)%Q (inject_Z m).
  intros y M Hy Hlo Hhi Hx'. rewrite Hx'.
  change (inject_Z (2 ^ 52)) with (4503599627370496 # 1)%Q in Hy.
  split.
  - rewrite <- Qmult_assoc, (Qmult_comm (2 ^ e)), Qmult_assoc.
    apply Qmult_le_compat_r; [|now apply Qlt_le_weak].
    change (2 ^ 53)%positive with 9007199254740992%positive. Lqa.lra.
  - rewrite <- Qmult_assoc, (Qmult_comm (2 ^ e)), Qmult_assoc.
    apply Qmult_le_compat_r; [|now apply Qlt_le_weak].
    change (2 ^ 53)%positive with 9007199254740992%positive. Lqa.lra.
Qed.

(** The square root, rounded: not negative, and its square is above
    that of the exact root by a factor of at most [(1 + 2^-52)^2]. *)
Lemma float_sqrt_of_Q_error (x : Q) :
  (0 <= x)%Q ->
  (0 <= float_sqrt_of_Q x)%Q
  /\ (float_sqrt_of_Q x * float_sqrt_of_Q x
      <= x * ((1 + (1 # 2 ^ 52)) * (1 + (1 # 2 ^ 52))))%Q.
Proof.
  intros Hx0. unfold float_sqrt_of_Q.
  destruct (Qle_bool x 0) eqn:Hzero.
  { split; [apply Qle_refl|].
    setoid_replace (0 * 0)%Q with 0%Q by reflexivity.
    apply Qmult_le_0_compat; [assumption | discriminate]. }
  assert (Hx : (0 < x)%Q).
  { apply Qnot_le_lt. intros H. apply Qle_bool_iff in H. congruence. }
  cbv zeta. set (e := (Qlog2 x - 104) / 2).
  set (s := (x / 2 ^ (2 * e))%Q).
  set (m := Z.sqrt (Qfloor s)).
  set (m' := match (s ?= inject_Z (m * m + m) + (1 # 4))%Q with
             | Eq => if Z.even m then m else m + 1
             | Lt => m
             | Gt => m + 1
             end).
  rewrite !Qred_correct.
  destruct (Qlog2_spec x Hx) as [Hlo _].
  pose proof (Qpow2_pos (2 * e)) as H4e. pose proof (Qpow2_pos e) as H2e.
  assert (He : 104 <= Qlog2 x - 2 * e).
  { unfold e. pose proof (Z.mod_pos_bound (Qlog2 x - 104) 2 eq_refl).
    pose proof (Z.div_mod (Qlog2 x - 104) 2). lia. }
  assert (Hs : (inject_Z (2 ^ 104) <= s)%Q).
  { unfold s. apply Qle_shift_div_l; [assumption|].
    rewrite Qpow2_inject by lia. rewrite <- Qpow2_plus.
    apply Qle_trans with (2 ^ Qlog2 x)%Q; [|assumption].
    apply Qpower_le_compat_l; [lia | discriminate]. }
  assert (Hfloor : 2 ^ 104 <= Qfloor s).
  { rewrite <- (Qfloor_Z (2 ^ 104)). now apply Qfloor_resp_le. }
  assert (Hm : 2 ^ 52 <= m).
  { unfold m. change (2 ^ 52) with (Z.sqrt (2 ^ 104)).
    now apply Z.sqrt_le_mono. }
  assert (Hms : (inject_Z (m * m) <= s)%Q).
  { apply Qle_trans with (inject_Z (Qfloor s)); [|apply Qfloor_le].
    rewrite <- Zle_Qle. unfold m. apply Z.sqrt_spec. lia. }
  assert (Hm' : 2 ^ 52 <= m').
  { unfold m'. destruct (s ?= _)%Q; [destruct (Z.even m)| |]; lia. }
  assert (Hnear : ((inject_Z m' - (1 # 2)) * (inject_Z m' - (1 # 2)) <= s)%Q).
  { rewrite inject_Z_mult in Hms.
    assert (Hsame : ((inject_Z m - (1 # 2)) * (inject_Z m - (1 # 2)) <= s)%Q).
    { apply Qle_trans with (inject_Z m * inject_Z m)%Q; [|assumption].
      assert (Hm1 : (inject_Z (2 ^ 52) <= inject_Z m)%Q)
        by now rewrite <- Zle_Qle.
      change (inject_Z (2 ^ 52)) with (4503599627370496 # 1)%Q in Hm1.
      revert Hm1. generalize (inject_Z m). intros M Hm1. Lqa.nra. }
    assert (Hnext : (inject_Z (m * m + m) + (1 # 4) <= s ->
                     (inject_Z (m + 1) - (1 # 2)) * (inject_Z (m + 1) - (1 # 2))
                     <= s)%Q).
    { intros H. rewrite inject_Z_plus, inject_Z_mult in H.
      rewrite inject_Z_plus. change (inject_Z 1) with 1%Q.
      revert H. generalize (inject_Z m). intros M H.
      setoid_replace ((M + 1 - (1 # 2)) * (M + 1 - (1 # 2)))%Q
        with (M * M + M + (1 # 4))%Q by ring.
      exact H. }
    unfold m'. destruct (s ?= _)%Q eqn:Hcmp.
    - apply Qeq_alt in Hcmp.
      destruct (Z.even m); [exact Hsame|]. apply Hnext. rewrite Hcmp.
      apply Qle_refl.
    - exact Hsame.
    - apply Qgt_alt in Hcmp. apply Hnext. now apply Qlt_le_weak. }
  assert (HM : (inject_Z (2 ^ 52) <= inject_Z m')%Q) by now rewrite <- Zle_Qle.
  change (inject_Z (2 ^ 52)) with (4503599627370496 # 1)%Q in HM.
  assert (Hxs : (x == s * (2 ^ e * 2 ^ e))%Q).
  { unfold s. replace (2 * e) with (e + e) by lia. rewrite Qpow2_plus.
    field. intros H. rewrite H in H2e. now apply (Qlt_irrefl 0). }
  split.
  - apply Qmult_le_0_compat; [|now apply Qlt_le_weak].
    revert HM. generalize (inject_Z m'). intros M HM. Lqa.lra.
  - rewrite Hxs.
    setoid_replace (inject_Z m' * 2 ^ e * (inject_Z m' * 2 ^ e))%Q
      with (inject_Z m' * inject_Z m' * (2 ^ e * 2 ^ e))%Q by ring.
    setoid_replace (s * (2 ^ e * 2 ^ e)
                    * ((1 + (1 # 2 ^ 52)) * (1 + (1 # 2 ^ 52))))%Q
      with (s * ((1 + (1 # 2 ^ 52)) * (1 + (1 # 2 ^ 52)))
            * (2 ^ e * 2 ^ e))%Q by ring.
    apply Qmult_le_compat_r;
      [|apply Qmult_le_0_compat; now apply Qlt_le_weak].
    change (2 ^ 52)%positive with 4503599627370496%positive.
    revert HM Hnear. generalize (inject_Z m') s. intros M S HM Hnear.
    assert (Hstep : (M <= (M - (1 # 2)) * (1 + (1 # 4503599627370496)))%Q)
      by Lqa.lra.
    assert (Hpos : (0 <= M)%Q) by Lqa.lra.
    apply Qle_trans
      with ((M - (1 # 2)) * (1 + (1 # 4503599627370496))
            * ((M - (1 # 2)) * (1 + (1 # 4503599627370496))))%Q.
    + apply Qmult_le_compat_nonneg; split; assumption.
    + setoid_replace ((M - (1 # 2)) * (1 + (1 # 4503599627370496))
                      * ((M - (1 # 2)) * (1 + (1 # 4503599627370496))))%Q
        with ((M - (1 # 2)) * (M - (1 # 2))
              * ((1 + (1 # 4503599627370496))
                 * (1 + (1 # 4503599627370496))))%Q by ring.
      apply Qmult_le_compat_r; [assumption | discriminate].
Qed.

Lemma Qsquare_le (a b : Q) :
  (0 <= a)%Q -> (0 <= b)%Q -> (a * a <= b * b)%Q -> (a <= b)%Q.
Proof.
  intros Ha Hb Hsq. apply Qnot_lt_le. intros Hlt.
  apply (Qlt_not_le (b * b) (a * a)); [|assumption].
  apply Qle_lt_trans with (a * b)%Q.
  - apply Qmult_le_compat_r; [now apply Qlt_le_weak | assumption].
  - rewrite (Qmult_comm a b). apply Qmult_lt_compat_r; [|assumption].
    now apply Qle_lt_trans with b.
Qed.

(** A coefficient of variation that is at most 0.2999999999 before any
    rounding is below the double [0.3] as the code computes it. *)
Lemma cv_margin (v mu : Q) :
  (0 <= v)%Q -> (0 < mu)%Q ->
  (v <= (2999999999 # 10000000000) * (2999999999 # 10000000000) * (mu * mu))%Q ->
  (float_of_Q (float_sqrt_of_Q v / float_of_Q mu) < float_of_Q (3 # 10))%Q.
Proof.
  intros Hv Hmu Hcv.
  destruct (float_sqrt_of_Q_error v Hv) as [Hsd0 Hsd].
  destruct (float_of_Q_error mu Hmu) as [Hmf _].
  set (sd := float_sqrt_of_Q v) in *. set (mf := float_of_Q mu) in *.
  change (2 ^ 53)%positive with 9007199254740992%positive in Hmf.
  change (2 ^ 52)%positive with 4503599627370496%positive in Hsd.
  set (c := (2999999999 # 10000000000)%Q) in *.
  set (E := (1 + (1 # 4503599627370496))%Q) in *.
  set (eta := (1 # 9007199254740992)%Q) in *.
  assert (Hmfpos : (0 < mf)%Q).
  { apply Qlt_le_trans with (mu * (1 - eta))%Q; [|assumption].
    apply Qmult_lt_0_compat; [assumption | reflexivity]. }
  assert (Hsdle : (sd <= c * E * mu)%Q).
  { apply Qsquare_le; [assumption| |].
    - apply Qmult_le_0_compat; [discriminate | now apply Qlt_le_weak].
    - apply Qle_trans with (v * (E * E))%Q; [assumption|].
      setoid_replace (c * E * mu * (c * E * mu))%Q
        with (c * c * (mu * mu) * (E * E))%Q by ring.
      apply Qmult_le_compat_r; [assumption | discriminate]. }
  set (K := (c * E / (1 - eta))%Q).
  assert (Hq : (sd / mf <= K)%Q).
  { apply Qle_shift_div_r; [assumption|].
    apply Qle_trans with (c * E * mu)%Q; [assumption|].
    apply Qle_trans with (K * (mu * (1 - eta)))%Q.
    - unfold K. apply Qle_lteq. right. field. discriminate.
    - rewrite (Qmult_comm K (mu * (1 - eta))), (Qmult_comm K mf).
      apply Qmult_le_compat_r; [assumption | discriminate]. }
  destruct (Qle_bool (sd / mf) 0) eqn:Hzero.
  { assert (H0 : float_of_Q (sd / mf) = 0%Q)
      by (unfold float_of_Q; now rewrite Hzero).
    rewrite H0. reflexivity. }
  assert (Hqpos : (0 < sd / mf)%Q).
  { apply Qnot_le_lt. intros H. apply Qle_bool_iff in H. congruence. }
  destruct (float_of_Q_error (sd / mf) Hqpos) as [_ Hup].
  change (2 ^ 53)%positive with 9007199254740992%positive in Hup.
  fold eta in Hup.
  apply Qle_lt_trans with (K * (1 + eta))%Q; [|reflexivity].
  apply Qle_trans with (sd / mf * (1 + eta))%Q; [exact Hup|].
  apply Qmult_le_compat_r; [assumption | discriminate].
Qed.

Lemma sum_Z_nonneg (data : list Z) :
  Forall (fun x => 0 <= x) data -> 0 <= sum_Z data.
Proof.
  induction 1 as [|x data Hx _ IH]; [reflexivity|].
  cbn [sum_Z fold_right]. fold (sum_Z data). lia.
Qed.

Lemma sample_variance_nonneg (data : list Z) :
  (0 <= sample_variance data)%Q.
Proof.
  unfold sample_variance, Qle. cbn [Qnum Qden].
  rewrite Z.mul_1_r, Z.mul_0_l.
  apply sum_Z_nonneg, Forall_map, Forall_forall.
  intros x _. apply Z.square_nonneg.
Qed.

Lemma additive_choice (cond : bool) (points : Z) (indicator : string) :
  0 <= points ->
  additive (fun st => if cond then add_points st points indicator else st)
           points.
Proof.
  intros Hp. unfold additive, add_points. destruct cond; cbn [fst snd].
  - split; [intros [score indicators]; reflexivity | lia].
  - split; [|lia]. intros [score indicators]. cbn [fst snd].
    now rewrite Z.add_0_r, app_nil_r.
Qed.

Lemma additive_compose (f g : scoring -> scoring) (p q : Z) :
  additive f p -> additive g q -> additive (fun st => g (f st)) (p + q).
Proof.
  intros [Hf Hfb] [Hg Hgb]. split.
  - intros st. rewrite (Hg (f st)), (Hg (f (0, []))), (Hf st).
    cbn [fst snd]. f_equal; [lia | now rewrite <- app_assoc].
  - rewrite (Hg (f (0, []))). cbn [fst]. lia.
Qed.

Lemma check_starters_additive (sentences : list string) :
  additive (check_starters sentences) 25.
Proof.
  unfold check_starters.
  destruct (sentence_starts sentences) as [|s starts].
  - apply (additive_choice false 25 ""). lia.
  - apply additive_choice. lia.
Qed.

Lemma check_pronouns_additive (words : list string) :
  additive (check_pronouns words) 20.
Proof. unfold check_pronouns. apply additive_choice. lia. Qed.

Lemma check_transitions_additive (words : list string) :
  additive (check_transitions words) 15.
Proof. unfold check_transitions. apply additive_choice. lia. Qed.

Lemma check_contractions_additive (text : string) (words : list string) :
  additive (check_contractions text words) 10.
Proof. unfold check_contractions. apply additive_choice. lia. Qed.

Lemma later_checks_additive (text : string) : additive (later_checks text) 70.
Proof.
  unfold later_checks.
  apply (additive_compose _ (check_contractions text (split (lower text)))
                          60 10);
    [|apply check_contractions_additive].
  apply (additive_compose _ (check_transitions (split (lower text))) 45 15);
    [|apply check_transitions_additive].
  apply (additive_compose _ (check_pronouns (split (lower text))) 25 20);
    [apply check_starters_additive | apply check_pronouns_additive].
Qed.

Lemma check_uniformity_cases (sentences : list string) (st : scoring) :
  check_uniformity sentences (0, []) = Ok st ->
  st = (0, []) \/ st = (30, ["Low sentence length variance"]).
Proof.
  unfold check_uniformity. intros H.
  destruct (3 <? List.length sentences)%nat; [|injection H as <-; now left].
  destruct (sentence_lengths sentences) as [|x l];
    [injection H as <-; now left|].
  destruct (coefficient_of_variation (x :: l)) as [cv|]; [|discriminate].
  cbn [bind] in H.
  destruct (Qltb cv (float_of_Q (3 # 10))); injection H as <-;
    [right | left]; reflexivity.
Qed.

(** The score of the heuristics lies between 0 and 100: [min(100, score)]
    never cuts. *)
Lemma heuristic_scoring_between (text : string) (st : scoring) :
  heuristic_scoring text = Ok st -> 0 <= fst st <= 100.
Proof.
  unfold heuristic_scoring. intros H.
  destruct (check_uniformity (split_on "." text) (0, [])) as [st0|] eqn:H0;
    [|discriminate].
  cbn [bind] in H. injection H as <-.
  destruct (later_checks_additive text) as [Hadd Hbound].
  rewrite Hadd. cbn [fst].
  apply check_uniformity_cases in H0 as [->| ->]; cbn [fst]; lia.
Qed.

(** The coefficient of variation of two or more lengths with a positive
    mean: the rounded quotient of the rounded standard deviation and the
    rounded mean. *)
Lemma coefficient_of_variation_value (lengths : list Z) :
  (2 <= List.length lengths)%nat ->
  (0 < exact_mean lengths)%Q ->
  coefficient_of_variation lengths
  = Ok (float_of_Q (float_sqrt_of_Q (sample_variance lengths)
                    / float_of_Q (exact_mean lengths))).
Proof.
  intros Hlen Hmu. unfold coefficient_of_variation, mean, stdev.
  destruct lengths as [|x l]; [cbn in Hlen; lia|].
  cbn [bind].
  pose proof (float_of_Q_pos _ Hmu) as Hpos.
  assert (Hguard : Qltb 0 (float_of_Q (exact_mean (x :: l))) = true)
    by now apply Qltb_lt.
  rewrite Hguard.
  destruct (Nat.ltb_spec (List.length (x :: l)) 2) as [Hshort|_]; [lia|].
  cbn [bind]. unfold float_truediv.
  destruct (Qeq_bool (float_of_Q (exact_mean (x :: l))) 0) eqn:Hzero;
    [|reflexivity].
  apply Qeq_bool_iff in Hzero. rewrite Hzero in Hpos.
  now apply Qlt_irrefl in Hpos.
Qed.

(** C8, as the code has it.  When the text splits at full stops into more
    than three pieces, and the coefficient of variation of the word counts
    of the non-blank pieces, computed in doubles as the code does, is
    below the double [0.3], the scorer adds 30 points and puts the
    sentence-uniformity indicator first.  With two or more word counts
    that is so whenever the coefficient of variation before any rounding
    is at most 0.2999999999. *)
Theorem uniform_sentences_score (env : environment) (text : string) :
  (3 < List.length (split_on "." text))%nat ->
  let lengths := sentence_lengths (split_on "." text) in
  let rest := later_checks text (0, []) in
  let adds_30 :=
    heuristic_scoring text
    = Ok (30 + fst rest, "Low sentence length variance" :: snd rest)
    /\ dict_get (detect_ai_content_simple env text) "ai_likelihood"
       = Some (VInt (30 + fst rest))
    /\ dict_get (detect_ai_content_simple env text) "indicators"
       = Some (VList (map VStr ("Low sentence length variance" :: snd rest)))
  in
  (forall cv, coefficient_of_variation lengths = Ok cv ->
              (cv < float_of_Q (3 # 10))%Q -> adds_30)
  /\ ((2 <= List.length lengths)%nat ->
      (sample_variance lengths
       <= (2999999999 # 10000000000) ^ 2 * exact_mean lengths ^ 2)%Q ->
      adds_30).
Proof.
  intros Hpieces lengths rest adds_30.
  assert (Hfloat : forall cv, coefficient_of_variation lengths = Ok cv ->
                              (cv < float_of_Q (3 # 10))%Q -> adds_30).
  { intros cv Hcv Hlow.
    assert (Hscore : heuristic_scoring text
                     = Ok (30 + fst rest,
                           "Low sentence length variance" :: snd rest)).
    { unfold heuristic_scoring, check_uniformity.
      apply Nat.ltb_lt in Hpieces. rewrite Hpieces. fold lengths.
      destruct lengths as [|x l] eqn:Hl; [discriminate|].
      rewrite Hcv. cbn [bind].
      apply Qltb_lt in Hlow. rewrite Hlow. cbn [bind].
      destruct (later_checks_additive text) as [Hadd _].
      rewrite Hadd. reflexivity. }
    split; [exact Hscore|].
    unfold detect_ai_content_simple. rewrite Hscore. cbn [bind try_except].
    pose proof (heuristic_scoring_between text _ Hscore) as Hb.
    cbn [fst] in Hb. unfold heuristic_result.
    cbn [fst snd dict_get String.eqb Ascii.eqb Bool.eqb].
    rewrite Z.min_r by lia. split; reflexivity. }
  split; [exact Hfloat|].
  intros Hlen Hexact.
  change ((2999999999 # 10000000000) ^ 2)%Q
    with ((2999999999 # 10000000000) * (2999999999 # 10000000000))%Q
    in Hexact.
  change (exact_mean lengths ^ 2)%Q
    with (exact_mean lengths * exact_mean lengths)%Q in Hexact.
  destruct (Qlt_le_dec 0 (exact_mean lengths)) as [Hmu|Hmu].
  - apply (Hfloat _ (coefficient_of_variation_value lengths Hlen Hmu)).
    apply cv_margin; [apply sample_variance_nonneg | assumption..].
  - apply (Hfloat 0%Q); [|reflexivity].
    unfold coefficient_of_variation, mean.
    destruct lengths as [|x l]; [cbn in Hlen; lia|]. cbn [bind].
    assert (Hzero : float_of_Q (exact_mean (x :: l)) = 0%Q).
    { unfold float_of_Q. apply Qle_bool_iff in Hmu. now rewrite Hmu. }
    rewrite Hzero. reflexivity.
Qed.

Lemma ai_text_lengths :
  sentence_lengths (split_on "." ai_text) = [9; 11; 11; 7; 6].
Proof. vm_compute. reflexivity. Qed.

Lemma two_sentences_lengths :
  sentence_lengths (split_on "." two_sentences_text) = [3; 3].
Proof. vm_compute. reflexivity. Qed.

Lemma uniform_sentences_score_witness :
  heuristic_scoring ai_text
  = Ok (30 + fst (later_checks ai_text (0, [])),
        "Low sentence length variance" :: snd (later_checks ai_text (0, []))).
Proof.
  refine (proj1 (proj1 (uniform_sentences_score sample_env ai_text _)
                   (2334042554369761 # 9007199254740992)%Q _ _)).
  - vm_compute. lia.
  - rewrite ai_text_lengths. vm_compute. reflexivity.
  - vm_compute. reflexivity.
Defined.

(** C8 as stated fails for a text of fewer than four pieces: two sentences
    of three words each have a coefficient of variation of 0, and the
    scorer adds no points for uniformity. *)
Lemma uniform_two_sentences_no_points :
  exists cv : Q,
    coefficient_of_variation
      (sentence_lengths (split_on "." two_sentences_text)) = Ok cv
    /\ (cv < float_of_Q (3 # 10))%Q
    /\ (sample_variance (sentence_lengths (split_on "." two_sentences_text))
        == 0)%Q
    /\ heuristic_scoring two_sentences_text
       = Ok (20, ["Lack of personal pronouns"])
    /\ dict_get (detect_ai_content_simple sample_env two_sentences_text)
                "ai_likelihood" = Some (VInt 20).
Proof.
  exists 0%Q. rewrite two_sentences_lengths.
  split; [vm_compute; reflexivity|]. split; [reflexivity|].
  split; [reflexivity|].
  assert (H : heuristic_scoring two_sentences_text
              = Ok (20, ["Lack of personal pronouns"]))
    by (vm_compute; reflexivity).
  split; [exact H|].
  unfold detect_ai_content_simple. rewrite H. reflexivity.
Qed.

(** Rounding decides at the threshold.  For 9359 sentences of 17 words,
    946 of 22 and 26818 of 40 the coefficient of variation is below 3/10
    before rounding, the code computes the double [0.3] itself, and
    [cv < 0.3] is false. *)
Lemma cv_rounds_to_threshold :
  let lengths := (repeat 17 (Z.to_nat 9359) ++ repeat 22 (Z.to_nat 946)
                  ++ repeat 40 (Z.to_nat 26818))%list in
  (sample_variance lengths < (3 # 10) ^ 2 * exact_mean lengths ^ 2)%Q
  /\ coefficient_of_variation lengths = Ok (float_of_Q (3 # 10))
  /\ Qltb (float_of_Q (3 # 10)) (float_of_Q (3 # 10)) = false.
Proof. vm_compute. repeat split. Qed.

(** ** The range of the scores *)

Lemma Forall2_Forall_r {A B} (P : A -> B -> Prop) (Q : B -> Prop)
  (xs : list A) (ys : list B) :
  (forall x y, P x y -> Q y) -> Forall2 P xs ys -> Forall Q ys.
Proof. intros HPQ H. induction H; constructor; eauto. Qed.

Lemma in_range_same_primary (d src : dict) :
  same_primary d src -> in_range src -> in_range d.
Proof.
  intros Hsame (a & c & Ha & Hc & Hra & Hrc). exists a, c.
  unfold getitem in *.
  rewrite (Hsame "ai_likelihood"), (Hsame "confidence") by (cbn; tauto).
  repeat split; assumption || apply Hra || apply Hrc.
Qed.

Lemma in_range_floats (a c : R) (rest : dict) :
  (0 <= a <= 100)%R -> (0 <= c <= 1)%R ->
  in_range (("ai_likelihood", VFloat a) :: ("confidence", VFloat c) :: rest).
Proof. intros Ha Hc. exists a, c. repeat split; apply Ha || apply Hc. Qed.

Lemma roberta_confidence_between (env : environment) (n note : string)
  (stats : R * R * R * R) (c : R) :
  roberta_confidence env n stats = (c, note) -> (0 <= c <= 1)%R.
Proof.
  destruct stats as [[[avg_score min_score] max_score] std_score].
  unfold roberta_confidence.
  destruct (Rlt_dec std_score 10); [|destruct (Rlt_dec std_score 20)];
    intros H; injection H as <- _; lra.
Qed.

Lemma binoculars_confidence_between (env : environment) (n note : string)
  (stats : R * R * R * R) (c : R) :
  binoculars_confidence env n stats = (c, note) -> (0 <= c <= 1)%R.
Proof.
  destruct stats as [[[avg_score min_score] max_score] std_score].
  unfold binoculars_confidence.
  destruct (Rlt_dec std_score 10); [|destruct (Rlt_dec std_score 20)];
    intros H; injection H as <- _; lra.
Qed.

Lemma detect_roberta_in_range (env : environment) (text : string) (r : dict) :
  (forall chunk p, classifier_ai_prob env chunk = Ok p -> (0 <= p <= 1)%R) ->
  detect_roberta env text = Some r -> in_range r.
Proof.
  intros Hprob Hr.
  apply detect_roberta_shape in Hr
    as (chunks & results & stats & c & note & ? & ? & _ & _ & Hres & Hstats
        & Hconf & ->).
  apply in_range_floats.
  - apply round_2_between.
    apply (aggregate_avg_between 0 100 (map r_ai_likelihood results));
      [|assumption].
    apply Forall_map. apply map_result_Forall2 in Hres.
    eapply Forall2_Forall_r; [|exact Hres].
    intros [i chunk] y Hy. unfold roberta_chunk in Hy.
    destruct (classifier_ai_prob env chunk) as [p|] eqn:Hp; [|discriminate].
    cbn [bind] in Hy. injection Hy as <-. cbn [r_ai_likelihood].
    specialize (Hprob chunk p Hp). lra.
  - eapply roberta_confidence_between. exact Hconf.
Qed.

Lemma detect_binoculars_in_range (env : environment) (text : string)
  (b : dict) :
  detect_binoculars env text = Some b -> in_range b.
Proof.
  intros Hb.
  apply detect_binoculars_shape in Hb
    as (chunks & results & stats & c & note & ? & ? & _ & _ & Hres & Hstats
        & Hconf & ->).
  apply in_range_floats.
  - apply round_2_between.
    apply (aggregate_avg_between 0 100 (map b_ai_likelihood results));
      [|assumption].
    apply Forall_map. apply map_result_Forall2 in Hres.
    eapply Forall2_Forall_r; [|exact Hres].
    intros [i chunk] y Hy. unfold binoculars_chunk in Hy.
    destruct (compute_loss env model_a chunk) as [la|]; [|discriminate].
    cbn [bind] in Hy.
    destruct (compute_loss env model_b chunk) as [lb|]; [|discriminate].
    cbn [bind] in Hy. injection Hy as <-. cbn [b_ai_likelihood].
    pose proof (binoculars_chunk_score_between la lb). lra.
  - eapply binoculars_confidence_between. exact Hconf.
Qed.

Lemma heuristic_result_in_range (st : scoring) :
  0 <= fst st -> in_range (heuristic_result st).
Proof.
  intros Hst. exists (IZR (Z.min 100 (fst st))), 0.7%R.
  repeat split; try lra.
  - apply IZR_le. lia.
  - apply IZR_le. lia.
Qed.

Lemma heuristic_error_result_in_range (note : string) :
  in_range (heuristic_error_result note).
Proof. exists 50%R, 0.3%R. repeat split; lra. Qed.

Lemma too_short_result_in_range : in_range too_short_result.
Proof. exists 50%R, 0%R. repeat split; lra. Qed.

Lemma detect_ai_content_simple_in_range (env : environment) (text : string) :
  in_range (detect_ai_content_simple env text).
Proof.
  destruct (detect_ai_content_simple_cases env text)
    as [[st [Hst ->]]|[e [_ ->]]].
  - apply heuristic_result_in_range.
    now apply (heuristic_scoring_between text).
  - apply heuristic_error_result_in_range.
Qed.

Lemma detect_ai_content_advanced_in_range (env : environment) (text : string) :
  (forall chunk p, classifier_ai_prob env chunk = Ok p -> (0 <= p <= 1)%R) ->
  in_range (fst (detect_ai_content_advanced env text)).
Proof.
  intros Hprob.
  destruct (detect_roberta env text) as [r|] eqn:Hr;
    destruct (detect_binoculars env text) as [b|] eqn:Hb.
  - destruct (advanced_both_succeed env text r b Hr Hb)
      as (rs & bs & ? & ? & Hrs & Hbs & _ & _ & ->).
    cbn [fst]. apply in_range_floats; [|lra].
    apply round_2_between.
    destruct (detect_roberta_in_range env text r Hprob Hr)
      as (a & ? & Ha & _ & Hra & _).
    destruct (detect_binoculars_in_range env text b Hb)
      as (a' & ? & Ha' & _ & Hra' & _).
    unfold getitem in Ha, Ha'. rewrite Hrs in Ha. rewrite Hbs in Ha'.
    cbn in Ha, Ha'. injection Ha as <-. injection Ha' as <-. lra.
  - rewrite (advanced_one_succeeds env text r) by (left; now split).
    now apply (detect_roberta_in_range env text).
  - rewrite (advanced_one_succeeds env text b) by (right; now split).
    now apply (detect_binoculars_in_range env text).
  - rewrite advanced_both_fail by assumption.
    apply detect_ai_content_simple_in_range.
Qed.

(** C6.  Provided the classifier's softmax output is a probability, every
    result of the pipeline has [ai_likelihood] in [0, 100] and
    [confidence] in [0, 1]: the results of the two model-backed
    detectors, of the ensemble, of the heuristic scorer and its error
    path, of the short-input gate, and of the entry point, which always
    returns a result. *)
Theorem results_in_range (env : environment) :
  (forall chunk p, classifier_ai_prob env chunk = Ok p -> (0 <= p <= 1)%R) ->
  (forall text r, detect_roberta env text = Some r -> in_range r)
  /\ (forall text b, detect_binoculars env text = Some b -> in_range b)
  /\ (forall text, in_range (fst (detect_ai_content_advanced env text)))
  /\ (forall text, in_range (detect_ai_content_simple env text))
  /\ (forall note, in_range (heuristic_error_result note))
  /\ in_range too_short_result
  /\ (forall text, exists d, fst (analyze_ai_likelihood env text) = Ok d
                             /\ in_range d).
Proof.
  intros Hprob. repeat split.
  - intros text r. now apply detect_roberta_in_range.
  - intros text b. apply detect_binoculars_in_range.
  - intros text. now apply detect_ai_content_advanced_in_range.
  - apply detect_ai_content_simple_in_range.
  - apply heuristic_error_result_in_range.
  - apply too_short_result_in_range.
  - intros text.
    assert (Hcases : too_short text \/ ~ too_short text).
    { destruct text as [s|]; [|left; exact I]. cbn [too_short]. lia. }
    destruct Hcases as [Hshort|Hlong].
    + destruct (short_gate_result env text Hshort) as [-> _].
      exists too_short_result. split; [reflexivity|].
      apply too_short_result_in_range.
    + destruct text as [s|]; [|exfalso; apply Hlong; exact I].
      destruct (analyze_cases env s Hlong) as (d & calls & Hd & Hsrc).
      exists d. rewrite Hd. split; [reflexivity|].
      destruct Hsrc as [[Hsame _]|[Hsame _]];
        eapply in_range_same_primary; try exact Hsame.
      * apply detect_ai_content_simple_in_range.
      * now apply detect_ai_content_advanced_in_range.
Qed.

Lemma results_in_range_witness :
  in_range (fst (detect_ai_content_advanced sample_env "hello")).
Proof.
  refine (proj1 (proj2 (proj2 (results_in_range sample_env _))) "hello").
  intros chunk p H. injection H as <-. lra.
Defined.

(** ** The weighted combination *)

Lemma aggregate_one (s : R) :
  exists stats, aggregate [s] = Ok stats /\ avg_of stats = s.
Proof.
  unfold aggregate, div_len, min_R, max_R.
  cbn [List.length bind map sum_R fold_right fold_left].
  eexists. split; [reflexivity|]. unfold avg_of. cbn [fst]. simpl INR. lra.
Qed.

(** A text that fits in one chunk, on which the classifier answers [p]. *)
Lemma detect_roberta_one_chunk (env : environment) (text chunk : string)
  (p : R) :
  import_models env = Ok tt ->
  load_classifier env roberta_model_name = Ok tt ->
  chunk_text text 400 100 = Ok [chunk] ->
  classifier_ai_prob env chunk = Ok p ->
  exists r, detect_roberta env text = Some r
            /\ dict_get r "ai_likelihood" = Some (VFloat (round (p * 100) 2)).
Proof.
  intros Himport Hload Hchunks Hp.
  destruct (aggregate_one (p * 100)) as (stats & Hstats & Havg).
  unfold detect_roberta, detect_roberta_body.
  rewrite Himport, Hload, Hchunks. cbn [bind].
  unfold enumerate. cbn [List.length seq map combine map_result].
  unfold roberta_chunk. rewrite Hp.
  cbn [bind map r_ai_likelihood]. rewrite Hstats. cbn [bind].
  destruct stats as [[[avg_score min_score] max_score] std_score].
  unfold avg_of in Havg. cbn [fst] in Havg. subst avg_score.
  destruct (roberta_confidence env _ _) as [confidence note].
  cbn [try_except bind]. eexists. split; reflexivity.
Qed.

(** A text that fits in one chunk, with the two losses of that chunk. *)
Lemma detect_binoculars_one_chunk (env : environment) (text chunk : string)
  (loss_a loss_b : R) :
  import_models env = Ok tt ->
  chunk_text text 700 150 = Ok [chunk] ->
  compute_loss env model_a chunk = Ok loss_a ->
  compute_loss env model_b chunk = Ok loss_b ->
  exists b, detect_binoculars env text = Some b
            /\ dict_get b "ai_likelihood"
               = Some (VFloat (round (binoculars_chunk_score loss_a loss_b) 2)).
Proof.
  intros Himport Hchunks Ha Hb.
  destruct (aggregate_one (binoculars_chunk_score loss_a loss_b))
    as (stats & Hstats & Havg).
  unfold detect_binoculars, detect_binoculars_body.
  rewrite Himport, Hchunks. cbn [bind].
  unfold enumerate. cbn [List.length seq map combine map_result].
  unfold binoculars_chunk. rewrite Ha, Hb.
  cbn [bind map b_ai_likelihood]. rewrite Hstats. cbn [bind].
  destruct stats as [[[avg_score min_score] max_score] std_score].
  unfold avg_of in Havg. cbn [fst] in Havg. subst avg_score.
  unfold div_len. cbn [List.length bind].
  destruct (binoculars_confidence env _ _) as [confidence note].
  cbn [try_except bind]. eexists. split; reflexivity.
Qed.

Open Scope R_scope.

(** C2, as the code has it.  When both detectors produce a result, the
    combined [ai_likelihood] is 0.6 times the classifier score plus 0.4
    times the perplexity score, rounded to two decimals: within 0.005 of
    the weighted sum, and equal to it when the sum has at most two
    decimals, so that 80 and 50 combine to 68.  The confidence is 0.92 and
    the indicators are the classifier's followed by the perplexity
    detector's. *)
Theorem ensemble_combination (env : environment) (text : string)
  (r b : dict) :
  detect_roberta env text = Some r -> detect_binoculars env text = Some b ->
  exists c_score p_score c_indicators p_indicators,
    dict_get r "ai_likelihood" = Some (VFloat c_score)
    /\ dict_get b "ai_likelihood" = Some (VFloat p_score)
    /\ dict_get r "indicators" = Some (VList c_indicators)
    /\ dict_get b "indicators" = Some (VList p_indicators)
    /\ let d := fst (detect_ai_content_advanced env text) in
       let weighted := 0.6 * c_score + 0.4 * p_score in
       dict_get d "ai_likelihood" = Some (VFloat (round weighted 2))
       /\ Rabs (round weighted 2 - weighted) <= 0.005
       /\ (forall k : Z, weighted = IZR k / 100 -> round weighted 2 = weighted)
       /\ (c_score = 80 -> p_score = 50 ->
           dict_get d "ai_likelihood" = Some (VFloat 68))
       /\ dict_get d "confidence" = Some (VFloat 0.92)
       /\ dict_get d "indicators"
          = Some (VList (c_indicators ++ p_indicators)).
Proof.
  intros Hr Hb.
  destruct (advanced_both_succeed env text r b Hr Hb)
    as (rs & bs & ri & bi & Hrs & Hbs & Hri & Hbi & Hadv).
  exists rs, bs, ri, bi. repeat split; try assumption.
  - rewrite Hadv. cbn [fst dict_get String.eqb Ascii.eqb Bool.eqb].
    do 3 f_equal. lra.
  - apply round_2_near.
  - intros k Hk. rewrite (round_2_value _ k); [now symmetry|].
    rewrite Hk. replace (IZR k / 100 * 100 - IZR k) with 0 by field.
    rewrite Rabs_R0. lra.
  - intros -> ->. rewrite Hadv.
    cbn [fst dict_get String.eqb Ascii.eqb Bool.eqb]. do 2 f_equal.
    rewrite (round_2_value _ 6800); [lra|].
    replace ((80 * 0.6 + 50 * 0.4) * 100 - 6800) with 0 by lra.
    rewrite Rabs_R0. lra.
  - now rewrite Hadv.
  - now rewrite Hadv.
Qed.

Lemma sample_scores :
  round (0.3333 * 100) 2 = 33.33
  /\ round (binoculars_chunk_score 2 2) 2 = 50
  /\ round (33.33 * 0.6 + 50 * 0.4) 2 = 40.
Proof.
  split; [|split].
  - rewrite (round_2_value _ 3333); [lra|].
    replace (0.3333 * 100 * 100 - 3333) with 0 by lra.
    rewrite Rabs_R0. lra.
  - assert (Hscore : binoculars_chunk_score 2 2 = 50).
    { unfold binoculars_chunk_score, binoculars_ratio.
      replace (- ((2 - 2) / (Rabs 2 + 1e-6)) * 3.0) with 0
        by (pose proof (binoculars_denominator 2); field; lra).
      rewrite exp_0. lra. }
    rewrite Hscore, (round_2_value _ 5000); [lra|].
    replace (50 * 100 - 5000) with 0 by lra. rewrite Rabs_R0. lra.
  - rewrite (round_2_value _ 4000); [lra|].
    apply Rabs_def1; lra.
Qed.

Lemma sample_detectors :
  exists r b,
    detect_roberta sample_env "hello" = Some r
    /\ detect_binoculars sample_env "hello" = Some b
    /\ dict_get r "ai_likelihood" = Some (VFloat 33.33)
    /\ dict_get b "ai_likelihood" = Some (VFloat 50).
Proof.
  destruct sample_scores as (H1 & H2 & _).
  destruct (detect_roberta_one_chunk sample_env "hello" "hello" 0.3333
              eq_refl eq_refl eq_refl eq_refl) as (r & Hr & Hrs).
  destruct (detect_binoculars_one_chunk sample_env "hello" "hello" 2 2
              eq_refl eq_refl eq_refl eq_refl) as (b & Hb & Hbs).
  exists r, b. rewrite H1 in Hrs. rewrite H2 in Hbs. repeat split; assumption.
Qed.

Lemma ensemble_combination_witness :
  exists d, fst (detect_ai_content_advanced sample_env "hello") = d
            /\ dict_get d "confidence" = Some (VFloat 0.92).
Proof.
  destruct sample_detectors as (r & b & Hr & Hb & _).
  destruct (ensemble_combination sample_env "hello" r b Hr Hb)
    as (? & ? & ? & ? & _ & _ & _ & _ & _ & _ & _ & _ & Hconf & _).
  eexists. split; [reflexivity | exact Hconf].
Defined.

(** C2 as stated fails: the combined score is rounded.  With a classifier
    score of 33.33 and a perplexity score of 50 the weighted sum is 39.998
    and the ensemble returns 40. *)
Lemma combined_score_is_rounded :
  exists r b,
    detect_roberta sample_env "hello" = Some r
    /\ detect_binoculars sample_env "hello" = Some b
    /\ dict_get r "ai_likelihood" = Some (VFloat 33.33)
    /\ dict_get b "ai_likelihood" = Some (VFloat 50)
    /\ dict_get (fst (detect_ai_content_advanced sample_env "hello"))
                "ai_likelihood" = Some (VFloat 40)
    /\ 40 <> 0.6 * 33.33 + 0.4 * 50.
Proof.
  destruct sample_detectors as (r & b & Hr & Hb & Hrs & Hbs).
  exists r, b. repeat split; try assumption; [|lra].
  destruct (advanced_both_succeed sample_env "hello" r b Hr Hb)
    as (rs & bs & ? & ? & Hrs' & Hbs' & _ & _ & ->).
  rewrite Hrs in Hrs'. rewrite Hbs in Hbs'.
  injection Hrs' as <-. injection Hbs' as <-.
  destruct sample_scores as (_ & _ & H3).
  cbn [fst dict_get String.eqb Ascii.eqb Bool.eqb]. now rewrite H3.
Qed.

Close Scope R_scope.

(* ===================================================================== *)
(** * Further properties of the code *)
(* ===================================================================== *)

(** ** [chunk_text]: the chunks in closed form *)

Lemma filter_map_comm {A B} (p : B -> bool) (f : A -> B) (l : list A) :
  filter p (map f l) = map f (filter (fun x => p (f x)) l).
Proof.
  induction l as [|x l IH]; [reflexivity|].
  cbn [map filter]. destruct (p (f x)); cbn [map]; now rewrite IH.
Qed.

Lemma filter_seq_below (q : nat -> bool) (m : nat) :
  forall count,
  (forall k, (k < count)%nat -> q k = (k <? m)%nat) ->
  filter q (seq 0 count) = seq 0 (Nat.min m count).
Proof.
  induction count as [|count IH]; intros Hq.
  - now rewrite Nat.min_0_r.
  - rewrite seq_S, filter_app, IH by (intros k Hk; apply Hq; lia).
    cbn [filter Nat.add]. rewrite (Hq count) by lia.
    destruct (Nat.ltb_spec count m) as [Hlt|Hge].
    + rewrite !Nat.min_r by lia. now rewrite seq_S.
    + rewrite !Nat.min_l by lia. now rewrite app_nil_r.
Qed.

(** A window is kept when 50 words remain from its start. *)
Lemma window_kept (n size stride k : nat) (ws : list string) :
  List.length ws = n -> (50 <= size)%nat -> (0 < stride)%nat -> (50 <= n)%nat ->
  (50 <=? List.length (firstn size (skipn (k * stride) ws)))%nat
  = (k <? (n - 50) / stride + 1)%nat.
Proof.
  intros Hn Hsize Hstride Hlong.
  rewrite length_firstn, length_skipn, Hn.
  pose proof (Nat.Div0.mul_div_le (n - 50) stride) as Hlo.
  pose proof (Nat.mul_succ_div_gt (n - 50) stride) as Hhi.
  set (j := ((n - 50) / stride)%nat) in *.
  destruct (Nat.leb_spec 50 (Nat.min size (n - k * stride)));
    destruct (Nat.ltb_spec k (j + 1)); try reflexivity; exfalso; nia.
Qed.

Lemma chunk_text_closed_form (text : string) (chunk_size overlap : Z) :
  let words := split text in
  let n := List.length words in
  let size := Z.to_nat chunk_size in
  let stride := Z.to_nat (chunk_size - overlap) in
  chunk_size < Z.of_nat n -> 50 <= chunk_size -> overlap < chunk_size ->
  chunk_text text chunk_size overlap
  = Ok (map (fun k => join " " (firstn size (skipn (k * stride) words)))
            (seq 0 ((n - 50) / stride + 1))).
Proof.
  cbv zeta. intros Hlong Hsize Hov.
  rewrite chunk_text_windows by lia. unfold spec_chunks.
  set (words := split text) in *. set (n := List.length words) in *.
  set (size := Z.to_nat chunk_size).
  set (stride := Z.to_nat (chunk_size - overlap)).
  assert (Hstride : (0 < stride)%nat) by (subst stride; lia).
  rewrite spec_windows_starts by lia.
  fold n. rewrite filter_map_comm, map_map. do 2 f_equal.
  set (count := Z.to_nat (range_len 0 (Z.of_nat n) (Z.of_nat stride))).
  rewrite (filter_seq_below _ ((n - 50) / stride + 1)).
  - f_equal. apply Nat.min_l.
    assert (Hcount : Z.of_nat ((n - 50) / stride) + 1
                     <= range_len 0 (Z.of_nat n) (Z.of_nat stride)).
    { unfold range_len.
      destruct (Z.ltb_spec 0 (Z.of_nat stride)); [|lia].
      destruct (Z.ltb_spec 0 (Z.of_nat n)); [|lia].
      assert (Z.of_nat ((n - 50) / stride)
              <= (Z.of_nat n - 1 - 0) / Z.of_nat stride); [|lia].
      apply Z.div_le_lower_bound; [lia|].
      pose proof (Nat.Div0.mul_div_le (n - 50) stride). nia. }
    subst count. lia.
  - intros k _. apply window_kept; subst size; try reflexivity; lia.
Qed.

Lemma split_window (text : string) (size start : nat) :
  split (join " " (firstn size (skipn start (split text))))
  = firstn size (skipn start (split text)).
Proof. apply split_join, Forall_firstn, Forall_skipn, split_words. Qed.

(** X1.  With windows of at least 50 words and [overlap < chunk_size],
    [chunk_text] always returns at least one chunk; a text of [n] words,
    [n > chunk_size], yields [(n - 50) / (chunk_size - overlap) + 1]
    chunks, the first of which holds the first [chunk_size] words. *)
Theorem chunk_text_count (text : string) (chunk_size overlap : Z) :
  50 <= chunk_size -> overlap < chunk_size ->
  let n := Z.of_nat (List.length (split text)) in
  exists first rest,
    chunk_text text chunk_size overlap = Ok (first :: rest)
    /\ (n <= chunk_size -> first = text /\ rest = [])
    /\ (chunk_size < n ->
        split first = firstn (Z.to_nat chunk_size) (split text)
        /\ Z.of_nat (List.length (first :: rest))
           = (n - 50) / (chunk_size - overlap) + 1).
Proof.
  intros Hsize Hov n.
  destruct (Z.le_gt_cases n chunk_size) as [Hshort|Hlong].
  - exists text, []. rewrite chunk_text_one_chunk by assumption.
    split; [reflexivity|]. split; [now split | lia].
  - rewrite chunk_text_closed_form by (subst n; lia).
    set (stride := Z.to_nat (chunk_size - overlap)).
    set (j := ((List.length (split text) - 50) / stride)%nat).
    rewrite Nat.add_1_r, <- cons_seq. cbn [map Nat.mul skipn].
    eexists. eexists. split; [reflexivity|]. split; [lia|]. intros _.
    split; [apply (split_window text _ 0)|].
    cbn [List.length]. rewrite length_map, length_seq.
    subst j stride n. rewrite Nat2Z.inj_succ, Nat2Z.inj_div, Nat2Z.inj_sub by lia.
    rewrite Z2Nat.id by lia. change (Z.of_nat 50) with 50. lia.
Qed.

Lemma chunk_text_count_witness :
  exists first rest,
    chunk_text (sample_text 200) 100 50 = Ok (first :: rest)
    /\ Z.of_nat (List.length (first :: rest)) = 4.
Proof.
  destruct (chunk_text_count (sample_text 200) 100 50)
    as (first & rest & Hc & _ & Hlong); [lia | lia |].
  exists first, rest. split; [exact Hc|].
  destruct Hlong as [_ ->]; vm_compute; reflexivity.
Defined.

(** X2.  When [overlap >= 49] (and [50 <= chunk_size], [overlap <
    chunk_size]), no word of a long text is lost with the windows that
    [chunk_text] drops: the word at position [i] is in some chunk [k],
    at position [i - k * stride]. *)
Theorem chunk_text_covers (text : string) (chunk_size overlap : Z) :
  chunk_size < Z.of_nat (List.length (split text)) ->
  50 <= chunk_size -> 49 <= overlap < chunk_size ->
  let stride := Z.to_nat (chunk_size - overlap) in
  exists chunks,
    chunk_text text chunk_size overlap = Ok chunks
    /\ forall i w, nth_error (split text) i = Some w ->
       exists k chunk,
         nth_error chunks k = Some chunk
         /\ (k * stride <= i)%nat
         /\ nth_error (split chunk) (i - k * stride) = Some w.
Proof.
  intros Hlong Hsize Hov stride.
  rewrite chunk_text_closed_form by lia. fold stride.
  set (words := split text) in *. set (n := List.length words) in *.
  set (size := Z.to_nat chunk_size).
  set (j := ((n - 50) / stride)%nat).
  eexists. split; [reflexivity|]. intros i w Hw.
  assert (Hi : (i < n)%nat) by (apply nth_error_Some; congruence).
  assert (Hstride : (0 < stride)%nat) by (subst stride; lia).
  assert (Hss : (stride + 49 <= size)%nat) by (subst stride size; lia).
  pose proof (Nat.Div0.mul_div_le (n - 50) stride) as Hjlo.
  pose proof (Nat.mul_succ_div_gt (n - 50) stride) as Hjhi. fold j in Hjlo, Hjhi.
  pose proof (Nat.Div0.mul_div_le i stride) as Hilo.
  pose proof (Nat.mul_succ_div_gt i stride) as Hihi.
  set (q := (i / stride)%nat) in *.
  exists (Nat.min q j). eexists.
  assert (Hk : (Nat.min q j * stride <= i
                /\ i - Nat.min q j * stride < size)%nat).
  { destruct (Nat.le_gt_cases q j).
    - rewrite Nat.min_l by lia. nia.
    - rewrite Nat.min_r by lia. nia. }
  split; [|split; [apply Hk|]].
  - rewrite nth_error_map, nth_error_seq.
    destruct (Nat.ltb_spec (Nat.min q j) (j + 1)); [reflexivity | lia].
  - cbn [Nat.add]. subst words. rewrite split_window.
    rewrite nth_error_firstn, nth_error_skipn.
    destruct (Nat.ltb_spec (i - Nat.min q j * stride) size); [|lia].
    replace (Nat.min q j * stride + (i - Nat.min q j * stride))%nat with i
      by lia.
    exact Hw.
Qed.

Lemma chunk_text_covers_witness :
  exists chunks,
    chunk_text (sample_text 200) 100 50 = Ok chunks
    /\ forall i w, nth_error (split (sample_text 200)) i = Some w ->
       exists k chunk,
         nth_error chunks k = Some chunk
         /\ (k * 50 <= i)%nat
         /\ nth_error (split chunk) (i - k * 50) = Some w.
Proof.
  apply (chunk_text_covers (sample_text 200) 100 50).
  - vm_compute. reflexivity.
  - lia.
  - lia.
Defined.

(** X3.  Consecutive chunks of a long text overlap as asked: what is left
    of a chunk after its first [chunk_size - overlap] words is the
    beginning, [overlap] words long, of the next chunk. *)
Theorem chunk_text_overlap (text : string) (chunk_size overlap : Z) :
  chunk_size < Z.of_nat (List.length (split text)) ->
  50 <= chunk_size -> 0 <= overlap < chunk_size ->
  exists chunks,
    chunk_text text chunk_size overlap = Ok chunks
    /\ forall k this next,
       nth_error chunks k = Some this ->
       nth_error chunks (S k) = Some next ->
       skipn (Z.to_nat (chunk_size - overlap)) (split this)
       = firstn (Z.to_nat overlap) (split next).
Proof.
  intros Hlong Hsize Hov.
  rewrite chunk_text_closed_form by lia.
  set (stride := Z.to_nat (chunk_size - overlap)).
  set (size := Z.to_nat chunk_size).
  eexists. split; [reflexivity|]. intros k this next Hthis Hnext.
  rewrite nth_error_map, nth_error_seq in Hthis, Hnext.
  destruct (k <? _)%nat; [|discriminate].
  destruct (S k <? _)%nat; [|discriminate].
  injection Hthis as <-. injection Hnext as <-. cbn [Nat.add].
  rewrite !split_window.
  rewrite skipn_firstn_comm, skipn_skipn, firstn_firstn.
  replace (size - stride)%nat with (Z.to_nat overlap) by (subst size stride; lia).
  rewrite Nat.min_l by (subst size; lia).
  do 2 f_equal; lia.
Qed.

Lemma chunk_text_overlap_witness :
  exists chunks,
    chunk_text (sample_text 200) 100 50 = Ok chunks
    /\ forall k this next,
       nth_error chunks k = Some this ->
       nth_error chunks (S k) = Some next ->
       skipn 50 (split this) = firstn 50 (split next).
Proof.
  apply (chunk_text_overlap (sample_text 200) 100 50).
  - vm_compute. reflexivity.
  - lia.
  - lia.
Defined.

(** ** Blank sentences and words *)

Lemma lstrip_all_space (s : string) : all_space (lstrip s) = all_space s.
Proof.
  induction s as [|c s IH]; [reflexivity|]. cbn [lstrip all_space].
  destruct (isspace c) eqn:Hc; [exact IH|]. cbn [all_space]. now rewrite Hc.
Qed.

Lemma lstrip_is_empty (s : string) : is_empty (lstrip s) = all_space s.
Proof.
  induction s as [|c s IH]; [reflexivity|]. cbn [lstrip all_space].
  destruct (isspace c); [exact IH | reflexivity].
Qed.

Lemma rstrip_is_empty (s : string) : is_empty (rstrip s) = all_space s.
Proof.
  induction s as [|c s IH]; [reflexivity|]. cbn [rstrip all_space].
  destruct (rstrip s) as [|x r]; cbn [is_empty] in IH; rewrite <- IH.
  - destruct (isspace c); reflexivity.
  - now rewrite andb_false_r.
Qed.

(** A sentence is blank exactly when it is made of whitespace. *)
Lemma strip_is_empty (s : string) : is_empty (strip s) = all_space s.
Proof. unfold strip. now rewrite rstrip_is_empty, lstrip_all_space. Qed.

Lemma split_from_all_space (s : string) :
  forall cur, all_space s = true ->
  split_from cur s = if is_empty cur then [] else [cur].
Proof.
  induction s as [|c s IH]; intros cur Hs; [reflexivity|].
  cbn [all_space] in Hs. apply andb_true_iff in Hs as [Hc Hs].
  cbn [split_from]. rewrite Hc, (IH EmptyString Hs).
  now destruct (is_empty cur).
Qed.

Lemma split_from_not_nil (s : string) :
  forall cur, all_space s = false -> split_from cur s <> [].
Proof.
  induction s as [|c s IH]; intros cur Hs; [discriminate|].
  cbn [all_space] in Hs. cbn [split_from].
  destruct (isspace c) eqn:Hc.
  - cbn [andb] in Hs. destruct (is_empty cur); [now apply IH | discriminate].
  - destruct (all_space s) eqn:Hrest.
    + rewrite split_from_all_space by assumption.
      now rewrite is_empty_snoc.
    + now apply IH.
Qed.

(** A sentence has no word exactly when it is blank. *)
Lemma split_nil_iff (s : string) :
  split s = [] <-> is_empty (strip s) = true.
Proof.
  rewrite strip_is_empty. unfold split. split; intros H.
  - destruct (all_space s) eqn:E; [reflexivity|].
    now apply split_from_not_nil in H.
  - now rewrite split_from_all_space.
Qed.

Lemma split_lstrip (s : string) : split (lstrip s) = split s.
Proof.
  unfold split. induction s as [|c s IH]; [reflexivity|].
  cbn [lstrip split_from]. destruct (isspace c) eqn:Hc; [exact IH|].
  cbn [split_from]. now rewrite Hc.
Qed.

Lemma split_from_cons (cur : string) (c : ascii) (s : string) :
  split_from cur (String c s)
  = if isspace c
    then (if is_empty cur then split_from EmptyString s
          else cur :: split_from EmptyString s)
    else split_from (snoc cur c) s.
Proof. reflexivity. Qed.

Lemma split_from_rstrip (s : string) :
  forall cur, split_from cur (rstrip s) = split_from cur s.
Proof.
  induction s as [|c s IH]; intros cur; [reflexivity|].
  cbn [rstrip].
  destruct (rstrip s) as [|x r] eqn:Hr.
  - assert (Hs : all_space s = true)
      by (rewrite <- rstrip_is_empty, Hr; reflexivity).
    cbn [split_from]. destruct (isspace c) eqn:Hc.
    + rewrite (split_from_all_space s EmptyString Hs). cbn [split_from is_empty].
      now destruct (is_empty cur).
    + cbn [split_from]. rewrite Hc. cbn [split_from].
      now rewrite split_from_all_space.
  - rewrite !(split_from_cons _ c), !IH. reflexivity.
Qed.

(** [s.strip().split()] is [s.split()]. *)
Lemma split_strip (s : string) : split (strip s) = split s.
Proof.
  rewrite <- (split_lstrip s). unfold strip, split. apply split_from_rstrip.
Qed.

(** ** The heuristics: sentences, the error path, the score *)

Lemma nonblank_has_word (s : string) :
  negb (is_empty (strip s)) = true -> (1 <= List.length (split s))%nat.
Proof.
  intros H. apply negb_true_iff in H.
  destruct (split s) eqn:E; [|simpl; lia].
  apply split_nil_iff in E. congruence.
Qed.

Lemma sentence_lengths_ge_1 (sentences : list string) :
  Forall (fun x => 1 <= x) (sentence_lengths sentences).
Proof.
  unfold sentence_lengths. apply Forall_map, Forall_forall.
  intros s Hs. apply filter_In in Hs as [_ Hs].
  apply nonblank_has_word in Hs. lia.
Qed.

Lemma sum_Z_ge_length (data : list Z) :
  Forall (fun x => 1 <= x) data -> Z.of_nat (List.length data) <= sum_Z data.
Proof.
  induction 1 as [|x data Hx Hdata IH]; [reflexivity|].
  cbn [List.length sum_Z fold_right]. fold (sum_Z data). lia.
Qed.

Lemma sentence_mean_positive (sentences : list string) :
  sentence_lengths sentences <> [] ->
  exists m, mean (sentence_lengths sentences) = Ok m /\ Qltb 0 m = true.
Proof.
  intros Hne. pose proof (sentence_lengths_ge_1 sentences) as Hge.
  apply sum_Z_ge_length in Hge.
  destruct (sentence_lengths sentences) as [|x l]; [contradiction|].
  eexists. split; [reflexivity|]. apply Qltb_lt, float_of_Q_pos.
  unfold exact_mean, Qlt. cbn [Qnum Qden]. cbn [List.length] in Hge. lia.
Qed.

Lemma sentence_starts_nonblank (sentences : list string) :
  sentence_starts sentences
  = map (fun s => lower (hd EmptyString (split s)))
        (filter (fun s => negb (is_empty (strip s))) sentences).
Proof.
  unfold sentence_starts.
  rewrite (filter_ext_in _ (fun s => negb (is_empty (strip s)))).
  - apply map_ext. intros s. now rewrite split_strip.
  - intros s _. destruct (negb (is_empty (strip s))) eqn:Hs; [|reflexivity].
    rewrite split_strip. apply nonblank_has_word in Hs.
    cbn [andb]. apply Nat.ltb_lt. lia.
Qed.

(** X4.  Every sentence the scorer counts has at least one word: the
    sentence lengths are at least 1, so their mean is positive and the
    [else 0] of the coefficient of variation is never taken; a sentence
    start is the lower-cased first word of each counted sentence, one per
    sentence length. *)
Theorem counted_sentences_have_words (sentences : list string) :
  Forall (fun x => 1 <= x) (sentence_lengths sentences)
  /\ (sentence_lengths sentences <> [] ->
      exists m, mean (sentence_lengths sentences) = Ok m /\ Qltb 0 m = true)
  /\ sentence_starts sentences
     = map (fun s => lower (hd EmptyString (split s)))
           (filter (fun s => negb (is_empty (strip s))) sentences)
  /\ List.length (sentence_starts sentences)
     = List.length (sentence_lengths sentences).
Proof.
  split; [apply sentence_lengths_ge_1|].
  split; [apply sentence_mean_positive|].
  split; [apply sentence_starts_nonblank|].
  rewrite sentence_starts_nonblank. unfold sentence_lengths.
  now rewrite !length_map.
Qed.

Lemma counted_sentences_have_words_witness :
  exists m, mean (sentence_lengths (split_on "." ai_text)) = Ok m
            /\ Qltb 0 m = true.
Proof.
  apply (proj1 (proj2 (counted_sentences_have_words (split_on "." ai_text)))).
  rewrite ai_text_lengths. discriminate.
Defined.

Lemma check_uniformity_raises (sentences : list string) (st : scoring)
  (e : exn) :
  check_uniformity sentences st = Raise e
  <-> e = StatisticsError
      /\ (3 < List.length sentences)%nat
      /\ List.length (sentence_lengths sentences) = 1%nat.
Proof.
  unfold check_uniformity.
  destruct (Nat.ltb_spec 3 (List.length sentences)) as [Hlen|Hlen].
  2:{ split; [discriminate | lia]. }
  pose proof (sentence_mean_positive sentences) as Hmean.
  destruct (sentence_lengths sentences) as [|x l].
  { split; [discriminate | cbn; intros (_ & _ & H); discriminate]. }
  destruct Hmean as (m & Hm & Hpos); [discriminate|].
  unfold coefficient_of_variation. rewrite Hm. cbn [bind]. rewrite Hpos.
  unfold stdev. cbn [List.length].
  destruct l as [|y l]; cbn [Nat.ltb Nat.leb bind].
  - split; [intros H; injection H as <-; repeat split; lia|].
    now intros (-> & _).
  - split; [|intros (_ & _ & H); discriminate].
    unfold float_truediv.
    assert (Hzero : Qeq_bool m 0 = false).
    { destruct (Qeq_bool m 0) eqn:E; [|reflexivity].
      apply Qeq_bool_iff in E. apply Qltb_lt in Hpos. rewrite E in Hpos.
      now apply Qlt_irrefl in Hpos. }
    rewrite Hzero. cbn [bind].
    destruct (Qltb _ _); discriminate.
Qed.

(** X5.  The heuristic scorer takes its error path exactly when the text
    splits at full stops into more than three pieces of which exactly one
    is not blank: [statistics.stdev] then gets a single length and raises
    [StatisticsError]; no other exception occurs.  That is when the result
    carries the ['fallback'] model tag. *)
Theorem heuristic_error_path (env : environment) (text : string) :
  let pieces := split_on "." text in
  let one_sentence :=
    (3 < List.length pieces)%nat
    /\ List.length (sentence_lengths pieces) = 1%nat in
  (heuristic_scoring text = Raise StatisticsError <-> one_sentence)
  /\ (forall e, heuristic_scoring text = Raise e -> e = StatisticsError)
  /\ (dict_get (detect_ai_content_simple env text) "model"
      = Some (VStr "fallback") <-> one_sentence).
Proof.
  cbv zeta.
  assert (Hraise : forall e,
            heuristic_scoring text = Raise e
            <-> check_uniformity (split_on "." text) (0, []) = Raise e).
  { intros e. unfold heuristic_scoring.
    destruct (check_uniformity (split_on "." text) (0, [])); cbn [bind];
      split; congruence. }
  split; [|split].
  - rewrite Hraise, check_uniformity_raises. tauto.
  - intros e He. apply Hraise, check_uniformity_raises in He. tauto.
  - unfold detect_ai_content_simple.
    destruct (heuristic_scoring text) as [st|e] eqn:Hst; cbn [bind try_except].
    + split; [discriminate|]. intros Hone.
      assert (H : Ok st = Raise StatisticsError)
        by (apply Hraise, check_uniformity_raises; tauto).
      discriminate.
    + split; [|reflexivity]. intros _.
      pose proof (proj1 (Hraise e) eq_refl) as H.
      apply check_uniformity_raises in H. tauto.
Qed.

Lemma heuristic_error_path_witness :
  dict_get (detect_ai_content_simple sample_env one_sentence_text) "model"
  = Some (VStr "fallback").
Proof.
  apply (proj2 (proj2 (heuristic_error_path sample_env one_sentence_text))).
  vm_compute. split; [lia | reflexivity].
Defined.

Lemma choice_fired (cond : bool) (points : Z) (indicator : string)
  (st : scoring) :
  (if cond then add_points st points indicator else st)
  = (fst st + fst (fired cond points indicator),
     (snd st ++ snd (fired cond points indicator))%list).
Proof.
  destruct st as [score indicators]. unfold fired, add_points.
  destruct cond; cbn [fst snd]; [reflexivity|].
  now rewrite Z.add_0_r, app_nil_r.
Qed.

Lemma check_starters_fired (sentences : list string) :
  exists b, forall st,
    check_starters sentences st
    = (fst st + fst (fired b 25 "Repetitive sentence starters"),
       (snd st ++ snd (fired b 25 "Repetitive sentence starters"))%list).
Proof.
  unfold check_starters. destruct (sentence_starts sentences).
  - exists false. intros st. apply (choice_fired false).
  - eexists. intros st. apply choice_fired.
Qed.

Lemma later_checks_fired (text : string) :
  exists b2 b3 b4 b5, forall st,
    later_checks text st
    = (fst st + (fst (fired b2 25 "Repetitive sentence starters")
                 + (fst (fired b3 20 "Lack of personal pronouns")
                    + (fst (fired b4 15 "High transitional phrase density")
                       + fst (fired b5 10 "Lack of contractions")))),
       (snd st ++ snd (fired b2 25 "Repetitive sentence starters")
        ++ snd (fired b3 20 "Lack of personal pronouns")
        ++ snd (fired b4 15 "High transitional phrase density")
        ++ snd (fired b5 10 "Lack of contractions"))%list).
Proof.
  destruct (check_starters_fired (split_on "." text)) as [b2 Hstarts].
  exists b2. do 3 eexists. intros st.
  unfold later_checks, check_contractions, check_transitions, check_pronouns.
  rewrite !choice_fired, Hstarts. cbn [fst snd].
  rewrite <- !Z.add_assoc, <- !app_assoc. reflexivity.
Qed.

(** X6.  The indicators explain the score of the heuristics: each of the
    five checks contributes its points (30, 25, 20, 15, 10) together with
    its indicator or contributes nothing, in the order of the checks; the
    total never passes 100, so the returned [ai_likelihood] is the sum of
    the points of the returned indicators. *)
Theorem heuristic_score_explained (env : environment) (text : string)
  (st : scoring) :
  heuristic_scoring text = Ok st ->
  exists b1 b2 b3 b4 b5,
    let parts := fired_checks b1 b2 b3 b4 b5 in
    fst st = sum_Z (map fst parts)
    /\ snd st = List.concat (map snd parts)
    /\ dict_get (detect_ai_content_simple env text) "ai_likelihood"
       = Some (VInt (sum_Z (map fst parts)))
    /\ dict_get (detect_ai_content_simple env text) "indicators"
       = Some (VList (map VStr (List.concat (map snd parts)))).
Proof.
  intros Hst.
  pose proof (heuristic_scoring_between text st Hst) as Hbound.
  assert (Hresult : detect_ai_content_simple env text = heuristic_result st)
    by (unfold detect_ai_content_simple; now rewrite Hst).
  unfold heuristic_scoring in Hst.
  destruct (check_uniformity (split_on "." text) (0, [])) as [st0|] eqn:H0;
    [|discriminate].
  cbn [bind] in Hst. injection Hst as <-.
  destruct (later_checks_fired text) as (b2 & b3 & b4 & b5 & Hlater).
  rewrite Hlater in *.
  assert (H1 : exists b1, st0 = fired b1 30 "Low sentence length variance").
  { apply check_uniformity_cases in H0 as [->| ->];
      [exists false | exists true]; reflexivity. }
  destruct H1 as [b1 ->].
  exists b1, b2, b3, b4, b5. cbv zeta. unfold fired_checks.
  cbn [map sum_Z fold_right List.concat fst snd] in *.
  rewrite !Z.add_0_r, !app_nil_r in *.
  split; [reflexivity|]. split; [reflexivity|].
  rewrite Hresult. unfold heuristic_result. cbn [fst snd].
  split; [|reflexivity].
  cbn [dict_get String.eqb Ascii.eqb Bool.eqb]. now rewrite Z.min_r by lia.
Qed.

Lemma heuristic_score_explained_witness :
  exists b1 b2 b3 b4 b5,
    dict_get (detect_ai_content_simple sample_env ai_text) "ai_likelihood"
    = Some (VInt (sum_Z (map fst (fired_checks b1 b2 b3 b4 b5)))).
Proof.
  destruct (heuristic_score_explained sample_env ai_text
              (50, ["Low sentence length variance"; "Lack of personal pronouns"]))
    as (b1 & b2 & b3 & b4 & b5 & _ & _ & H & _).
  - vm_compute. reflexivity.
  - exists b1, b2, b3, b4, b5. exact H.
Defined.

(** ** The statistics across chunks *)

Open Scope R_scope.

Lemma fold_Rmin_spec (l : list R) :
  forall x, fold_left Rmin l x <= x
            /\ Forall (fun y => fold_left Rmin l x <= y) l
            /\ In (fold_left Rmin l x) (x :: l).
Proof.
  induction l as [|y l IH]; intros x; cbn [fold_left].
  - split; [lra|]. split; [constructor | now left].
  - destruct (IH (Rmin x y)) as (Hle & Hall & Hin).
    pose proof (Rmin_l x y). pose proof (Rmin_r x y).
    split; [lra|]. split; [constructor; [lra | assumption]|].
    destruct Hin as [Heq|Hin]; [|right; now right].
    rewrite <- Heq. unfold Rmin. destruct (Rle_dec x y); [now left|].
    right. now left.
Qed.

Lemma fold_Rmax_spec (l : list R) :
  forall x, x <= fold_left Rmax l x
            /\ Forall (fun y => y <= fold_left Rmax l x) l
            /\ In (fold_left Rmax l x) (x :: l).
Proof.
  induction l as [|y l IH]; intros x; cbn [fold_left].
  - split; [lra|]. split; [constructor | now left].
  - destruct (IH (Rmax x y)) as (Hle & Hall & Hin).
    pose proof (Rmax_l x y). pose proof (Rmax_r x y).
    split; [lra|]. split; [constructor; [lra | assumption]|].
    destruct Hin as [Heq|Hin]; [|right; now right].
    rewrite <- Heq. unfold Rmax. destruct (Rle_dec x y); [right|]; now left.
Qed.

Lemma round_half_even_monotone (x y : R) :
  x <= y -> (round_half_even x <= round_half_even y)%Z.
Proof.
  intros Hxy. pose proof (Zfloor_le x y Hxy) as Hfloor.
  pose proof (Zfloor_bound x) as [Hx1 Hx2].
  pose proof (Zfloor_bound y) as [Hy1 Hy2].
  unfold round_half_even.
  destruct (Z.eq_dec (Zfloor x) (Zfloor y)) as [Heq|Hne].
  - rewrite <- Heq in *.
    destruct (Rlt_dec (x - IZR (Zfloor x)) (1 / 2));
      destruct (Rlt_dec (y - IZR (Zfloor x)) (1 / 2)); try lia; try lra;
      destruct (Rlt_dec (1 / 2) (x - IZR (Zfloor x)));
      destruct (Rlt_dec (1 / 2) (y - IZR (Zfloor x))); try lia; try lra;
      destruct (Z.even (Zfloor x)); lia.
  - assert (Zfloor x + 1 <= Zfloor y)%Z by lia.
    destruct (Rlt_dec (x - IZR (Zfloor x)) (1 / 2));
      destruct (Rlt_dec (y - IZR (Zfloor y)) (1 / 2)); try lia;
      try (destruct (Rlt_dec (1 / 2) (x - IZR (Zfloor x))));
      try (destruct (Rlt_dec (1 / 2) (y - IZR (Zfloor y))));
      try (destruct (Z.even (Zfloor x)));
      try (destruct (Z.even (Zfloor y))); lia.
Qed.

Lemma round_monotone (x y : R) (ndigits : nat) :
  x <= y -> round x ndigits <= round y ndigits.
Proof.
  intros Hxy. unfold round.
  assert (Hpow : 0 < 10 ^ ndigits) by (apply pow_lt; lra).
  apply Rmult_le_compat_r; [left; now apply Rinv_0_lt_compat|].
  apply IZR_le, round_half_even_monotone.
  apply Rmult_le_compat_r; lra.
Qed.

(** X7.  The statistics that both detectors take across their chunks: with
    no chunk the division by [len(scores)] raises; otherwise the minimum
    and the maximum are scores, every score lies between them, the
    reported minimum is not above the reported maximum, and the standard
    deviation is not negative; with one chunk the average, the minimum and
    the maximum are its score and the standard deviation is 0. *)
Theorem aggregate_statistics (scores : list R) :
  (scores = [] -> aggregate scores = Raise ZeroDivisionError)
  /\ (scores <> [] ->
      exists avg_score min_score max_score std_score,
        aggregate scores = Ok (avg_score, min_score, max_score, std_score)
        /\ In min_score scores /\ In max_score scores
        /\ Forall (fun s => min_score <= s <= max_score) scores
        /\ round min_score 2 <= round max_score 2
        /\ 0 <= std_score)
  /\ (forall s, scores = [s] -> aggregate scores = Ok (s, s, s, 0)).
Proof.
  split; [intros ->; reflexivity|]. split.
  - intros Hne.
    destruct scores as [|s scores]; [contradiction|].
    set (l := s :: scores) in *.
    destruct (fold_Rmin_spec scores s) as (Hmin1 & Hmin2 & Hmin3).
    destruct (fold_Rmax_spec scores s) as (Hmax1 & Hmax2 & Hmax3).
    assert (Hall : Forall (fun x => fold_left Rmin scores s <= x
                                    <= fold_left Rmax scores s) l).
    { subst l. constructor; [lra|].
      rewrite Forall_forall in *. intros x Hx.
      specialize (Hmin2 x Hx). specialize (Hmax2 x Hx). lra. }
    assert (Hagg : exists stats, aggregate l = Ok stats
                     /\ stats = (fst (fst (fst stats)), fold_left Rmin scores s,
                                 fold_left Rmax scores s, snd stats)
                     /\ 0 <= snd stats).
    { unfold aggregate, div_len, min_R, max_R. subst l.
      cbn [List.length bind]. eexists. split; [reflexivity|].
      split; [reflexivity|]. cbn [snd]. apply sqrt_pos. }
    destruct Hagg as (stats & Hagg & Hshape & Hstd).
    exists (fst (fst (fst stats))), (fold_left Rmin scores s),
      (fold_left Rmax scores s), (snd stats).
    rewrite Hagg, Hshape at 1. cbn [fst snd].
    repeat split; try assumption. apply round_monotone. lra.
  - intros s ->. unfold aggregate, div_len, min_R, max_R.
    cbn [List.length bind map sum_R fold_right fold_left].
    assert (Havg : (s + 0) / INR 1 = s) by (simpl; field).
    rewrite Havg.
    assert (Hstd : sqrt (((s - s) ^ 2 + 0) / INR 1) = 0).
    { replace (((s - s) ^ 2 + 0) / INR 1) with 0 by (simpl; field).
      apply sqrt_0. }
    rewrite Hstd. reflexivity.
Qed.

Lemma aggregate_statistics_witness :
  (exists avg_score min_score max_score std_score,
     aggregate [40; 90; 65] = Ok (avg_score, min_score, max_score, std_score)
     /\ In min_score [40; 90; 65] /\ In max_score [40; 90; 65]
     /\ 0 <= std_score)
  /\ aggregate [65] = Ok (65, 65, 65, 0).
Proof.
  split.
  - destruct (proj1 (proj2 (aggregate_statistics [40; 90; 65])))
      as (a & mn & mx & sd & H & Hmin & Hmax & _ & _ & Hsd); [discriminate|].
    exists a, mn, mx, sd. repeat split; assumption.
  - apply (proj2 (proj2 (aggregate_statistics [65])) 65). reflexivity.
Defined.

Close Scope R_scope.

(** ** When a detector has no result *)

Lemma chunk_text_nonempty (text : string) (chunk_size overlap : Z) :
  50 <= chunk_size -> overlap < chunk_size ->
  exists first rest, chunk_text text chunk_size overlap = Ok (first :: rest).
Proof.
  intros Hsize Hov.
  destruct (Z.le_gt_cases (Z.of_nat (List.length (split text))) chunk_size).
  - exists text, []. now apply chunk_text_one_chunk.
  - rewrite chunk_text_closed_form by lia.
    rewrite Nat.add_1_r, <- cons_seq. cbn [map]. do 2 eexists. reflexivity.
Qed.

Lemma map_result_raise {A B} (f : A -> result B) (xs : list A) (e : exn) :
  map_result f xs = Raise e -> exists x, In x xs /\ f x = Raise e.
Proof.
  induction xs as [|x xs IH]; cbn [map_result]; [discriminate|].
  destruct (f x) as [y|e'] eqn:Hx; cbn [bind].
  - destruct (map_result f xs) as [ys|e'']; cbn [bind]; [discriminate|].
    intros H. injection H as ->.
    destruct IH as (x' & Hin & Hx'); [reflexivity|].
    exists x'. split; [now right | assumption].
  - intros H. injection H as ->. exists x. split; [now left | assumption].
Qed.

Lemma map_result_fails {A B} (f : A -> result B) (xs : list A) (x : A)
  (e : exn) :
  In x xs -> f x = Raise e -> exists e', map_result f xs = Raise e'.
Proof.
  intros Hin Hx. destruct (map_result f xs) as [ys|e'] eqn:Hmap; [|eauto].
  apply map_result_Forall2 in Hmap. exfalso.
  induction Hmap as [|x' y' xs' ys' Hy _ IH]; [contradiction|].
  destruct Hin as [->|Hin]; [congruence | now apply IH].
Qed.

Lemma map_result_length {A B} (f : A -> result B) (xs : list A)
  (ys : list B) :
  map_result f xs = Ok ys -> List.length ys = List.length xs.
Proof.
  intros H. apply map_result_Forall2 in H.
  induction H; cbn [List.length]; congruence.
Qed.

Lemma enumerate_length {A} (xs : list A) :
  List.length (enumerate xs) = List.length xs.
Proof.
  unfold enumerate.
  rewrite length_combine, length_map, length_seq. apply Nat.min_id.
Qed.

Lemma enumerate_In {A} (xs : list A) (x : A) :
  In x xs <-> exists i, In (i, x) (enumerate xs).
Proof.
  unfold enumerate. split.
  - generalize 0%nat as start.
    induction xs as [|y xs IH]; intros start Hin; [contradiction|].
    cbn [List.length seq map combine]. destruct Hin as [->|Hin].
    + eexists. left. reflexivity.
    + destruct (IH (S start) Hin) as [i Hi]. exists i. now right.
  - intros [i Hin]. now apply in_combine_r in Hin.
Qed.

Lemma aggregate_nonempty (scores : list R) :
  scores <> [] -> exists stats, aggregate scores = Ok stats.
Proof.
  destruct scores as [|s scores]; [contradiction|]. intros _.
  unfold aggregate, div_len, min_R, max_R. cbn [List.length bind]. eauto.
Qed.

Lemma scores_nonempty {A B} (g : B -> R) (xs : list A) (ys : list B) (x : A)
  (rest : list A) :
  xs = x :: rest -> List.length ys = List.length (enumerate xs) ->
  map g ys <> [].
Proof.
  intros -> Hlen. rewrite enumerate_length in Hlen.
  destruct ys; [discriminate Hlen | discriminate].
Qed.

Lemma import_models_cases (env : environment) :
  (import_models env = Ok tt
   /\ transformers_available env && torch_available env = true)
  \/ (import_models env = Raise ImportError
      /\ transformers_available env && torch_available env = false).
Proof.
  unfold import_models.
  destruct (transformers_available env && torch_available env); auto.
Qed.

Lemma detect_roberta_none_iff (env : environment) (text : string) :
  detect_roberta env text = None
  <-> transformers_available env && torch_available env = false
      \/ (exists e, load_classifier env roberta_model_name = Raise e)
      \/ (exists chunks chunk e,
            chunk_text text 400 100 = Ok chunks /\ In chunk chunks
            /\ classifier_ai_prob env chunk = Raise e).
Proof.
  destruct (chunk_text_nonempty text 400 100) as (c & rest & Hchunks);
    [lia | lia |].
  unfold detect_roberta, detect_roberta_body.
  destruct (import_models_cases env) as [[-> Hi]|[-> Hi]]; cbn [bind try_except].
  2:{ split; [now left | reflexivity]. }
  destruct (load_classifier env roberta_model_name) as [[]|e] eqn:Hload;
    cbn [bind try_except].
  2:{ split; [right; left; eauto | reflexivity]. }
  rewrite Hchunks. cbn [bind].
  destruct (map_result (roberta_chunk env) (enumerate (c :: rest)))
    as [results|e] eqn:Hmap; cbn [bind try_except].
  - destruct (aggregate_nonempty (map r_ai_likelihood results)) as [stats Hs].
    { apply (scores_nonempty r_ai_likelihood (c :: rest) results c rest eq_refl).
      now apply map_result_length in Hmap. }
    rewrite Hs. cbn [bind].
    destruct stats as [[[avg_score min_score] max_score] std_score].
    destruct (roberta_confidence env _ _) as [confidence note].
    cbn [bind try_except]. split; [discriminate|].
    intros [H|[[e H]|(chunks & chunk & e & Hc & Hin & Hp)]];
      [congruence | discriminate |].
    injection Hc as <-. apply enumerate_In in Hin as [i Hin].
    destruct (map_result_fails (roberta_chunk env) _ (i, chunk) e Hin)
      as [e' He'].
    + unfold roberta_chunk. now rewrite Hp.
    + congruence.
  - split; [|reflexivity]. intros _. right. right.
    apply map_result_raise in Hmap as ([i chunk] & Hin & Hraise).
    exists (c :: rest), chunk.
    unfold roberta_chunk in Hraise.
    destruct (classifier_ai_prob env chunk) as [p|e'] eqn:Hp; [discriminate|].
    exists e'. split; [reflexivity|]. split; [|reflexivity].
    apply enumerate_In. eauto.
Qed.

Lemma detect_binoculars_none_iff (env : environment) (text : string) :
  detect_binoculars env text = None
  <-> transformers_available env && torch_available env = false
      \/ (exists chunks chunk e,
            chunk_text text 700 150 = Ok chunks /\ In chunk chunks
            /\ (compute_loss env model_a chunk = Raise e
                \/ compute_loss env model_b chunk = Raise e)).
Proof.
  destruct (chunk_text_nonempty text 700 150) as (c & rest & Hchunks);
    [lia | lia |].
  unfold detect_binoculars, detect_binoculars_body.
  destruct (import_models_cases env) as [[-> Hi]|[-> Hi]]; cbn [bind try_except].
  2:{ split; [now left | reflexivity]. }
  rewrite Hchunks. cbn [bind].
  destruct (map_result (binoculars_chunk env) (enumerate (c :: rest)))
    as [results|e] eqn:Hmap; cbn [bind try_except].
  - assert (Hlen : List.length results = List.length (enumerate (c :: rest)))
      by now apply map_result_length in Hmap.
    destruct (aggregate_nonempty (map b_ai_likelihood results)) as [stats Hs].
    { exact (scores_nonempty b_ai_likelihood (c :: rest) results c rest
               eq_refl Hlen). }
    rewrite Hs. cbn [bind].
    destruct stats as [[[avg_score min_score] max_score] std_score].
    rewrite enumerate_length in Hlen.
    destruct results as [|r results]; [discriminate Hlen|].
    unfold div_len. cbn [List.length bind].
    destruct (binoculars_confidence env _ _) as [confidence note].
    cbn [bind try_except]. split; [discriminate|].
    intros [H|(chunks & chunk & e & Hc & Hin & Hp)]; [congruence|].
    injection Hc as <-. apply enumerate_In in Hin as [i Hin].
    destruct (compute_loss env model_a chunk) as [a|ea] eqn:Ha.
    + destruct Hp as [Hp|Hp]; [discriminate|].
      destruct (map_result_fails (binoculars_chunk env) _ (i, chunk) e Hin)
        as [e' He'].
      * unfold binoculars_chunk. now rewrite Ha, Hp.
      * congruence.
    + destruct (map_result_fails (binoculars_chunk env) _ (i, chunk) ea Hin)
        as [e' He'].
      * unfold binoculars_chunk. now rewrite Ha.
      * congruence.
  - split; [|reflexivity]. intros _. right.
    apply map_result_raise in Hmap as ([i chunk] & Hin & Hraise).
    exists (c :: rest), chunk.
    unfold binoculars_chunk in Hraise.
    destruct (compute_loss env model_a chunk) as [a|ea] eqn:Ha.
    + destruct (compute_loss env model_b chunk) as [b|eb] eqn:Hb;
        [discriminate|].
      exists eb. split; [reflexivity|]. split; [|now right].
      apply enumerate_In. eauto.
    + exists ea. split; [reflexivity|]. split; [|now left].
      apply enumerate_In. eauto.
Qed.

Open Scope R_scope.

(** C7, as the code has it.  For every chunk on which both losses are
    computed, the comparator's score is [100 / (1 + e^(-ratio * 3.0))] with
    [ratio = (lossA - lossB) / (|lossB| + 1e-6)].  When the imports succeed
    and both losses are computed on every chunk of the text,
    [detect_binoculars] returns a result, and the scores of its chunks are
    these.  For a given [lossB] the score does not decrease when
    [lossA - lossB] grows; it is 50 when the losses are equal, at least 50
    when the comparison model has the lower loss and at most 50 when the
    baseline has. *)
Theorem binoculars_score (env : environment) :
  (forall i chunk loss_a loss_b,
     compute_loss env model_a chunk = Ok loss_a ->
     compute_loss env model_b chunk = Ok loss_b ->
     exists r, binoculars_chunk env (i, chunk) = Ok r
               /\ b_ratio r = (loss_a - loss_b) / (Rabs loss_b + 1e-6)
               /\ b_ai_likelihood r = 100 / (1 + exp (- b_ratio r * 3.0)))
  /\ (forall text,
      transformers_available env && torch_available env = true ->
      (forall chunks chunk,
         chunk_text text 700 150 = Ok chunks -> In chunk chunks ->
         exists loss_a loss_b,
           compute_loss env model_a chunk = Ok loss_a
           /\ compute_loss env model_b chunk = Ok loss_b) ->
      exists b, detect_binoculars env text = Some b)
  /\ (forall text b, detect_binoculars env text = Some b ->
      exists chunks chunk_results,
        chunk_text text 700 150 = Ok chunks
        /\ Forall2 (fun ic r =>
                      exists loss_a loss_b,
                        compute_loss env model_a (snd ic) = Ok loss_a
                        /\ compute_loss env model_b (snd ic) = Ok loss_b
                        /\ b_ai_likelihood r
                           = 100 / (1 + exp (- ((loss_a - loss_b)
                                                / (Rabs loss_b + 1e-6)) * 3.0)))
                   (enumerate chunks) chunk_results
        /\ exists stats,
             aggregate (map b_ai_likelihood chunk_results) = Ok stats
             /\ dict_get b "ai_likelihood"
                = Some (VFloat (round (avg_of stats) 2)))
  /\ (forall loss_b loss_a1 loss_a2,
      loss_a1 - loss_b <= loss_a2 - loss_b ->
      binoculars_chunk_score loss_a1 loss_b
      <= binoculars_chunk_score loss_a2 loss_b)
  /\ (forall loss_a loss_b,
      (loss_a = loss_b -> binoculars_chunk_score loss_a loss_b = 50)
      /\ (loss_b <= loss_a -> 50 <= binoculars_chunk_score loss_a loss_b)
      /\ (loss_a <= loss_b -> binoculars_chunk_score loss_a loss_b <= 50)).
Proof.
  split; [|split; [|split; [|split]]].
  - intros i chunk loss_a loss_b Ha Hb. unfold binoculars_chunk.
    rewrite Ha, Hb. cbn [bind]. eexists. split; [reflexivity|].
    cbn [b_ratio b_ai_likelihood]. split; [reflexivity|].
    apply binoculars_chunk_score_formula.
  - intros text Himport Hloss.
    destruct (detect_binoculars env text) as [b|] eqn:Hb; [now exists b|].
    apply detect_binoculars_none_iff in Hb
      as [Hb|(chunks & chunk & e & Hchunks & Hin & Hraise)]; [congruence|].
    destruct (Hloss chunks chunk Hchunks Hin) as (la & lb & Ha & Hlb).
    destruct Hraise; congruence.
  - intros text b Hb.
    apply detect_binoculars_shape in Hb
      as (chunks & results & stats & ? & ? & ? & ? & _ & Hchunks & Hres
          & Hstats & _ & ->).
    exists chunks, results. split; [assumption|]. split.
    + apply map_result_Forall2 in Hres.
      eapply Forall2_impl; [|exact Hres].
      intros [i chunk] r Hr. unfold binoculars_chunk in Hr. cbn [snd].
      destruct (compute_loss env model_a chunk) as [la|]; [|discriminate].
      cbn [bind] in Hr.
      destruct (compute_loss env model_b chunk) as [lb|]; [|discriminate].
      cbn [bind] in Hr. injection Hr as <-.
      exists la, lb. repeat split. apply binoculars_chunk_score_formula.
    + exists stats. split; [assumption | reflexivity].
  - apply binoculars_chunk_score_monotone.
  - intros loss_a loss_b. split; [|split].
    + intros ->. apply binoculars_chunk_score_neutral.
    + intros H. rewrite <- (binoculars_chunk_score_neutral loss_b).
      apply binoculars_chunk_score_monotone. lra.
    + intros H. rewrite <- (binoculars_chunk_score_neutral loss_b).
      apply binoculars_chunk_score_monotone. lra.
Qed.

Lemma binoculars_score_witness :
  (exists r, binoculars_chunk sample_env (0%Z, "hello") = Ok r
             /\ b_ratio r = (2 - 2) / (Rabs 2 + 1e-6)
             /\ b_ai_likelihood r = 100 / (1 + exp (- b_ratio r * 3.0)))
  /\ (exists b, detect_binoculars sample_env "hello" = Some b)
  /\ binoculars_chunk_score 3 2 <= binoculars_chunk_score 4 2.
Proof.
  split; [|split].
  - apply (proj1 (binoculars_score sample_env) 0%Z "hello" 2 2); reflexivity.
  - apply (proj1 (proj2 (binoculars_score sample_env)) "hello");
      [reflexivity|].
    intros chunks chunk _ _. exists 2, 2. split; reflexivity.
  - apply (proj1 (proj2 (proj2 (proj2 (binoculars_score sample_env)))) 2 3 4).
    lra.
Defined.

(** C7 as stated fails: the score follows the ratio, not the difference
    of the losses.  Losses 2 and 1 differ by less than losses 12 and 10
    and score higher. *)
Lemma score_not_increasing_in_difference :
  2 - 1 < 12 - 10
  /\ binoculars_chunk_score 12 10 < binoculars_chunk_score 2 1.
Proof.
  split; [lra|]. apply binoculars_chunk_score_by_ratio.
  unfold binoculars_ratio. rewrite !Rabs_pos_eq by lra.
  apply Rmult_lt_reg_r with ((10 + 1e-6) * (1 + 1e-6)); [lra|].
  field_simplify; lra.
Qed.

Close Scope R_scope.

(** X8.  A detector returns [None] for exactly these causes: a failed
    import of [transformers] or [torch], for the classifier a failed load,
    or a model that raises on one of the chunks of the text.  Chunking and
    the statistics never make a detector fail. *)
Theorem detector_failure_causes (env : environment) (text : string) :
  (detect_roberta env text = None
   <-> transformers_available env && torch_available env = false
       \/ (exists e, load_classifier env roberta_model_name = Raise e)
       \/ (exists chunks chunk e,
             chunk_text text 400 100 = Ok chunks /\ In chunk chunks
             /\ classifier_ai_prob env chunk = Raise e))
  /\ (detect_binoculars env text = None
      <-> transformers_available env && torch_available env = false
          \/ (exists chunks chunk e,
                chunk_text text 700 150 = Ok chunks /\ In chunk chunks
                /\ (compute_loss env model_a chunk = Raise e
                    \/ compute_loss env model_b chunk = Raise e))).
Proof.
  split; [apply detect_roberta_none_iff | apply detect_binoculars_none_iff].
Qed.

Lemma detector_failure_causes_witness :
  detect_roberta failing_env ai_text = None
  /\ detect_binoculars failing_env ai_text = None.
Proof.
  split.
  - apply (proj2 (proj1 (detector_failure_causes failing_env ai_text))).
    right. left. exists RuntimeError. reflexivity.
  - apply (proj2 (proj2 (detector_failure_causes failing_env ai_text))).
    right. exists [ai_text], ai_text, RuntimeError.
    split; [vm_compute; reflexivity|]. split; [now left | now left].
Defined.

(** X9.  When the imports succeed, the classifier loads and both models
    answer on every chunk, the ensemble answers every text with the
    combined result of the two detectors, and the heuristics are not
    called. *)
Theorem healthy_models_combine (env : environment) (text : string) :
  transformers_available env && torch_available env = true ->
  load_classifier env roberta_model_name = Ok tt ->
  (forall chunk, exists p, classifier_ai_prob env chunk = Ok p) ->
  (forall chunk, exists a b, compute_loss env model_a chunk = Ok a
                             /\ compute_loss env model_b chunk = Ok b) ->
  exists r b,
    detect_roberta env text = Some r
    /\ detect_binoculars env text = Some b
    /\ dict_get (fst (detect_ai_content_advanced env text)) "model"
       = Some (VStr "combined:roberta+binoculars")
    /\ dict_get (fst (detect_ai_content_advanced env text)) "individual_results"
       = Some (VDict [("roberta", VDict r); ("binoculars", VDict b)])
    /\ snd (detect_ai_content_advanced env text) = [CallRoberta; CallBinoculars].
Proof.
  intros Himport Hload Hprob Hloss.
  destruct (detect_roberta env text) as [r|] eqn:Hr.
  2:{ apply detect_roberta_none_iff in Hr
        as [H|[[e H]|(chunks & chunk & e & _ & _ & H)]]; [congruence.. |].
      destruct (Hprob chunk) as [p Hp]. congruence. }
  destruct (detect_binoculars env text) as [b|] eqn:Hb.
  2:{ apply detect_binoculars_none_iff in Hb
        as [H|(chunks & chunk & e & _ & _ & H)]; [congruence|].
      destruct (Hloss chunk) as (la & lb & Ha & Hlb).
      destruct H; congruence. }
  exists r, b.
  destruct (advanced_both_succeed env text r b Hr Hb)
    as (? & ? & ? & ? & _ & _ & _ & _ & ->).
  repeat split.
Qed.

Lemma healthy_models_combine_witness :
  exists r b,
    detect_roberta sample_env ai_text = Some r
    /\ detect_binoculars sample_env ai_text = Some b
    /\ dict_get (fst (detect_ai_content_advanced sample_env ai_text)) "model"
       = Some (VStr "combined:roberta+binoculars").
Proof.
  destruct (healthy_models_combine sample_env ai_text eq_refl eq_refl)
    as (r & b & Hr & Hb & Hm & _).
  - intros chunk. eexists. reflexivity.
  - intros chunk. do 2 eexists. split; reflexivity.
  - exists r, b. repeat split; assumption.
Defined.

(** ** Short texts, the neutral point, the order of completion *)

Open Scope R_scope.

Lemma aggregate_single (s : R) :
  exists min_score max_score,
    aggregate [s] = Ok (s, min_score, max_score, 0).
Proof.
  unfold aggregate, div_len, min_R, max_R.
  cbn [List.length bind map sum_R fold_right fold_left].
  assert (Havg : (s + 0) / INR 1 = s) by (simpl; field).
  rewrite Havg.
  assert (Hstd : sqrt (((s - s) ^ 2 + 0) / INR 1) = 0).
  { replace (((s - s) ^ 2 + 0) / INR 1) with 0 by (simpl; field).
    apply sqrt_0. }
  rewrite Hstd. eauto.
Qed.

Close Scope R_scope.

(** X10.  A text that fits in one chunk gets the top confidence tier: for
    at most 400 words the classifier's result has confidence 0.92 and
    [ai_likelihood] equal to the classifier's probability on the whole
    text, times 100, rounded; for at most 700 words the comparator's result
    has confidence 0.93 and the rounded score of the whole text. *)
Theorem single_chunk_results (env : environment) (text : string) :
  transformers_available env && torch_available env = true ->
  (forall p,
     Z.of_nat (List.length (split text)) <= 400 ->
     load_classifier env roberta_model_name = Ok tt ->
     classifier_ai_prob env text = Ok p ->
     exists r, detect_roberta env text = Some r
               /\ dict_get r "ai_likelihood" = Some (VFloat (round (p * 100) 2)%R)
               /\ dict_get r "confidence" = Some (VFloat 0.92%R))
  /\ (forall loss_a loss_b,
        Z.of_nat (List.length (split text)) <= 700 ->
        compute_loss env model_a text = Ok loss_a ->
        compute_loss env model_b text = Ok loss_b ->
        exists b, detect_binoculars env text = Some b
                  /\ dict_get b "ai_likelihood"
                     = Some (VFloat (round (binoculars_chunk_score loss_a loss_b) 2))
                  /\ dict_get b "confidence" = Some (VFloat 0.93%R)).
Proof.
  intros Himport.
  assert (Hi : import_models env = Ok tt)
    by (destruct (import_models_cases env) as [[H _]|[_ H]]; congruence).
  split.
  - intros p Hshort Hload Hp.
    destruct (aggregate_single (p * 100)%R) as (mn & mx & Hagg).
    unfold detect_roberta, detect_roberta_body.
    rewrite Hi, Hload, (chunk_text_one_chunk text 400 100 Hshort).
    cbn [bind]. unfold enumerate.
    cbn [List.length seq map combine map_result]. unfold roberta_chunk.
    rewrite Hp. cbn [bind map r_ai_likelihood]. rewrite Hagg. cbn [bind].
    unfold roberta_confidence. destruct (Rlt_dec 0 10); [|lra].
    cbn [bind try_except]. eexists. repeat split.
  - intros loss_a loss_b Hshort Ha Hb.
    destruct (aggregate_single (binoculars_chunk_score loss_a loss_b))
      as (mn & mx & Hagg).
    unfold detect_binoculars, detect_binoculars_body.
    rewrite Hi, (chunk_text_one_chunk text 700 150 Hshort).
    cbn [bind]. unfold enumerate.
    cbn [List.length seq map combine map_result]. unfold binoculars_chunk.
    rewrite Ha, Hb. cbn [bind map b_ai_likelihood]. rewrite Hagg. cbn [bind].
    unfold div_len. cbn [List.length bind].
    unfold binoculars_confidence. destruct (Rlt_dec 0 10); [|lra].
    cbn [bind try_except]. eexists. repeat split.
Qed.

Lemma single_chunk_results_witness :
  exists r, detect_roberta sample_env ai_text = Some r
            /\ dict_get r "ai_likelihood" = Some (VFloat (round (0.3333 * 100) 2)%R)
            /\ dict_get r "confidence" = Some (VFloat 0.92%R).
Proof.
  apply (proj1 (single_chunk_results sample_env ai_text eq_refl) 0.3333%R).
  - vm_compute. discriminate.
  - reflexivity.
  - reflexivity.
Defined.

Open Scope R_scope.


Close Scope R_scope.

(** X12.  The result of the ensemble does not depend on which of the two
    worker tasks completes first. *)
Theorem completion_order_irrelevant (env : environment) (b : bool)
  (text : string) :
  detect_ai_content_advanced (with_roberta_first env b) text
  = detect_ai_content_advanced env text.
Proof.
  unfold detect_ai_content_advanced.
  change (import_models (with_roberta_first env b)) with (import_models env).
  destruct (import_models env); [|reflexivity].
  rewrite !completed_settles. reflexivity.
Qed.

(** ** The ensemble's fallbacks *)

(** X13.  How the ensemble falls back.  When exactly one detector
    succeeds, its result is returned unchanged; when both fail, the
    heuristics are called and answer; when [transformers] or [torch]
    cannot be imported, the heuristics answer and no detector has been
    called. *)
Theorem ensemble_fallbacks (env : environment) (text : string) :
  (forall r, detect_roberta env text = Some r ->
             detect_binoculars env text = None ->
             detect_ai_content_advanced env text
             = (r, [CallRoberta; CallBinoculars]))
  /\ (forall b, detect_roberta env text = None ->
                detect_binoculars env text = Some b ->
                detect_ai_content_advanced env text
                = (b, [CallRoberta; CallBinoculars]))
  /\ (transformers_available env && torch_available env = true ->
      detect_roberta env text = None -> detect_binoculars env text = None ->
      detect_ai_content_advanced env text
      = (detect_ai_content_simple env text,
         [CallRoberta; CallBinoculars; CallSimple]))
  /\ (transformers_available env && torch_available env = false ->
      detect_ai_content_advanced env text
      = (detect_ai_content_simple env text, [CallSimple])).
Proof.
  unfold detect_ai_content_advanced. rewrite completed_settles.
  split; [|split; [|split]].
  - intros r Hr Hb. rewrite Hr, Hb.
    apply detect_roberta_shape in Hr
      as (? & ? & ? & ? & ? & ? & ? & -> & _ & _ & _ & _ & ->).
    reflexivity.
  - intros b Hr Hb. rewrite Hr, Hb.
    apply detect_binoculars_shape in Hb
      as (? & ? & ? & ? & ? & ? & ? & -> & _ & _ & _ & _ & ->).
    reflexivity.
  - intros Hi Hr Hb. rewrite Hr, Hb.
    destruct (import_models_cases env) as [[-> _]|[_ H]];
      [reflexivity | congruence].
  - intros Hi.
    destruct (import_models_cases env) as [[_ H]|[-> _]];
      [congruence | reflexivity].
Qed.

Lemma ensemble_fallbacks_witness :
  detect_ai_content_advanced failing_env ai_text
  = (detect_ai_content_simple failing_env ai_text,
     [CallRoberta; CallBinoculars; CallSimple]).
Proof.
  apply (proj1 (proj2 (proj2 (ensemble_fallbacks failing_env ai_text))));
    reflexivity.
Defined.

(** ** The entry point: which result, which fields *)

Lemma advanced_attempt_cases (env : environment) (text : string)
  (debug_info : dict) :
  (exists dbg calls why,
     advanced_attempt env text debug_info = (dbg, None, calls)
     /\ dict_get dbg "why_failed" = Some (VStr why)
     /\ ~ advanced_chosen env text
     /\ ((allow_advanced env = false /\ calls = []
          /\ why = "ALLOW_ADVANCED=0")
         \/ (allow_advanced env = true /\ transformers_available env = false
             /\ calls = [] /\ why = "ImportError: " ++ str_exn env ImportError)
         \/ (allow_advanced env = true /\ transformers_available env = true
             /\ calls = CallAdvanced :: snd (detect_ai_content_advanced env text)
             /\ why = "advanced_detection_returned_heuristics")))
  \/ (exists dbg,
        advanced_attempt env text debug_info
        = (dbg, Some (fst (detect_ai_content_advanced env text)),
           CallAdvanced :: snd (detect_ai_content_advanced env text))
        /\ dict_get dbg "advanced_success" = Some (VBool true)
        /\ advanced_chosen env text).
Proof.
  unfold advanced_attempt, advanced_chosen.
  destruct (allow_advanced env) eqn:Hallow.
  2:{ left. do 3 eexists. split; [reflexivity|].
      split; [apply dict_get_set_same|]. split; [intros (H & _); discriminate|].
      left. repeat split. }
  destruct (transformers_available env) eqn:Htrans.
  2:{ left. do 3 eexists. split; [reflexivity|].
      split; [apply dict_get_set_same|].
      split; [intros (_ & H & _); discriminate|].
      right. left. repeat split. }
  destruct (advanced_has_fields env text)
    as (a & c & i & m & n & _ & _ & _ & Hm & _).
  destruct (detect_ai_content_advanced env text) as [adv calls].
  cbn [fst snd] in *. unfold getitem. rewrite Hm. cbn [eq_str].
  destruct (String.eqb_spec m "statistical_heuristics") as [->|Hne].
  - left. do 3 eexists. split; [reflexivity|].
    split; [apply dict_get_set_same|].
    split; [intros (_ & _ & H); now apply H|].
    right. right. repeat split.
  - right. eexists. split; [reflexivity|].
    split; [apply dict_get_set_same|].
    repeat split. congruence.
Qed.

(** The result of the entry point past the gate, in its two forms. *)
Lemma analyze_forms (env : environment) (text : string) :
  ~ too_short (Some text) ->
  let h := detect_ai_content_simple env text in
  let adv := fst (detect_ai_content_advanced env text) in
  (~ advanced_chosen env text
   /\ exists dbg calls,
        analyze_ai_likelihood env (Some text)
        = (Ok (dict_set h "_debug" (VDict dbg)), CallSimple :: calls))
  \/ (advanced_chosen env text
      /\ exists dbg a c i m n hs hi hm,
           dict_get adv "ai_likelihood" = Some a
           /\ dict_get adv "confidence" = Some c
           /\ dict_get adv "indicators" = Some i
           /\ dict_get adv "model" = Some m
           /\ dict_get adv "note" = Some n
           /\ dict_get h "ai_likelihood" = Some hs
           /\ dict_get h "indicators" = Some hi
           /\ dict_get h "model" = Some hm
           /\ fst (analyze_ai_likelihood env (Some text))
              = Ok (pass_through adv "individual_results"
                      (pass_through adv "binoculars_score"
                         (pass_through adv "roberta_score"
                            [("ai_likelihood", a); ("confidence", c);
                             ("indicators", i); ("model", m); ("note", n);
                             ("heuristic_score", hs);
                             ("heuristic_indicators", hi);
                             ("heuristic_model", hm);
                             ("_debug", VDict dbg)])))).
Proof.
  intros Hlong h adv. unfold analyze_ai_likelihood.
  rewrite (gate_closed text Hlong).
  destruct (advanced_attempt_cases env text (initial_debug_info env))
    as [(dbg & calls & why & -> & _ & Hnot & _)|(dbg & -> & _ & Hchosen)].
  - left. split; [assumption|]. exists dbg, calls. reflexivity.
  - right. split; [assumption|].
    destruct (advanced_has_fields env text)
      as (a & c & i & m & n & Da & Dc & Di & Dm & Dn & _).
    destruct (detect_ai_content_simple_fields env text)
      as (ha & hc & hi & hm & hn & Ha & _ & Hi & Hm & _).
    fold adv in Da, Dc, Di, Dm, Dn |- *. fold h in Ha, Hi, Hm |- *.
    exists dbg, a, c, (VList i), (VStr m), n, ha, (VList hi), (VStr hm).
    repeat (split; [assumption|]).
    cbn [fst]. unfold final_result.
    assert (Htruthy : truthy (Some adv) = true)
      by (destruct adv; [discriminate | reflexivity]).
    rewrite Htruthy. cbn [unwrap]. unfold getitem.
    rewrite Da, Dc, Di, Dm, Dn, Ha, Hi, Hm. reflexivity.
Qed.

Lemma pass_through_same (src dst : dict) (k : string) :
  dict_get (pass_through src k dst) k
  = match dict_get src k with
    | Some v => Some v
    | None => dict_get dst k
    end.
Proof.
  unfold pass_through. destruct (dict_get src k); [|reflexivity].
  apply dict_get_set_same.
Qed.

Lemma simple_lacks_combined (env : environment) (text k : string) :
  In k ("_debug" :: "heuristic_score" :: combined_fields) ->
  dict_get (detect_ai_content_simple env text) k = None.
Proof.
  intros Hk.
  destruct (detect_ai_content_simple_cases env text)
    as [[st [_ ->]]|[e [_ ->]]];
    cbn in Hk; destruct Hk as [<-|[<-|[<-|[<-|[<-|[]]]]]]; reflexivity.
Qed.

(** The ensemble's result has the combined fields exactly when both
    detectors succeeded. *)
Lemma advanced_combined_fields (env : environment) (text k : string) :
  In k combined_fields ->
  (dict_get (fst (detect_ai_content_advanced env text)) k <> None
   <-> detect_roberta env text <> None /\ detect_binoculars env text <> None).
Proof.
  intros Hk.
  destruct (detect_roberta env text) as [r|] eqn:Hr;
    destruct (detect_binoculars env text) as [b|] eqn:Hb.
  - destruct (advanced_both_succeed env text r b Hr Hb)
      as (? & ? & ? & ? & _ & _ & _ & _ & ->).
    split; [intros _; split; discriminate|]. intros _.
    cbn in Hk. destruct Hk as [<-|[<-|[<-|[]]]]; discriminate.
  - rewrite (advanced_one_succeeds env text r) by (left; now split).
    apply detect_roberta_shape in Hr
      as (? & ? & ? & ? & ? & ? & ? & _ & _ & _ & _ & _ & ->).
    split; [|intros [_ H]; now contradiction H].
    cbn in Hk. destruct Hk as [<-|[<-|[<-|[]]]]; intros H; now contradiction H.
  - rewrite (advanced_one_succeeds env text b) by (right; now split).
    apply detect_binoculars_shape in Hb
      as (? & ? & ? & ? & ? & ? & ? & _ & _ & _ & _ & _ & ->).
    split; [|intros [H _]; now contradiction H].
    cbn in Hk. destruct Hk as [<-|[<-|[<-|[]]]]; intros H; now contradiction H.
  - rewrite advanced_both_fail by assumption.
    rewrite simple_lacks_combined by (right; right; exact Hk).
    split; [intros H; now contradiction H | intros [H _]; now contradiction H].
Qed.

(** The ensemble's result carries the heuristic model tag exactly when
    both detectors failed and the heuristics did not raise. *)
Lemma advanced_is_heuristic (env : environment) (text : string) :
  dict_get (fst (detect_ai_content_advanced env text)) "model"
  = Some (VStr "statistical_heuristics")
  <-> detect_roberta env text = None /\ detect_binoculars env text = None
      /\ exists st, heuristic_scoring text = Ok st.
Proof.
  destruct (detect_roberta env text) as [r|] eqn:Hr;
    destruct (detect_binoculars env text) as [b|] eqn:Hb.
  - destruct (advanced_both_succeed env text r b Hr Hb)
      as (? & ? & ? & ? & _ & _ & _ & _ & ->).
    split; [discriminate | intros [H _]; discriminate].
  - rewrite (advanced_one_succeeds env text r) by (left; now split).
    apply detect_roberta_shape in Hr
      as (? & ? & ? & ? & ? & ? & ? & _ & _ & _ & _ & _ & ->).
    split; [discriminate | intros [H _]; discriminate].
  - rewrite (advanced_one_succeeds env text b) by (right; now split).
    apply detect_binoculars_shape in Hb
      as (? & ? & ? & ? & ? & ? & ? & _ & _ & _ & _ & _ & ->).
    split; [discriminate | intros (_ & H & _); discriminate].
  - rewrite advanced_both_fail by assumption.
    destruct (detect_ai_content_simple_cases env text)
      as [[st [Hst ->]]|[e [He ->]]].
    + split; [intros _; repeat split; eauto | reflexivity].
    + split; [discriminate|]. intros (_ & _ & st & Hst). congruence.
Qed.

Lemma chosen_fields (adv base : dict) (k : string) :
  In k combined_fields -> dict_get base k = None ->
  dict_get (pass_through adv "individual_results"
              (pass_through adv "binoculars_score"
                 (pass_through adv "roberta_score" base))) k
  = dict_get adv k.
Proof.
  intros Hk Hbase. cbn in Hk. destruct Hk as [<-|[<-|[<-|[]]]].
  - rewrite !pass_through_other by discriminate.
    rewrite pass_through_same, Hbase. now destruct (dict_get adv _).
  - rewrite pass_through_other by discriminate.
    rewrite pass_through_same, pass_through_other, Hbase by discriminate.
    now destruct (dict_get adv _).
  - rewrite pass_through_same, !pass_through_other, Hbase by discriminate.
    now destruct (dict_get adv _).
Qed.

(** X14.  Past the length gate, the result of the entry point carries
    [roberta_score], [binoculars_score] and [individual_results] exactly
    when the advanced detection is allowed, [transformers] can be imported
    and both detectors succeeded: the three fields tell that the combined
    ensemble answered. *)
Theorem combined_fields_signal (env : environment) (text : string) :
  ~ too_short (Some text) ->
  exists d,
    fst (analyze_ai_likelihood env (Some text)) = Ok d
    /\ forall k, In k combined_fields ->
       (dict_has d k = true
        <-> allow_advanced env = true /\ transformers_available env = true
            /\ detect_roberta env text <> None
            /\ detect_binoculars env text <> None).
Proof.
  intros Hlong.
  destruct (analyze_forms env text Hlong)
    as [(Hnot & dbg & calls & Hd)
       |(Hchosen & dbg & a & c & i & m & n & hs & hi & hm & _ & _ & _ & _ & _
         & _ & _ & _ & Hd)].
  - rewrite Hd. eexists. split; [reflexivity|]. intros k Hk. unfold dict_has.
    rewrite dict_get_set_other
      by (cbn in Hk; intros <-; destruct Hk as [H|[H|[H|[]]]]; discriminate).
    rewrite simple_lacks_combined by (right; right; exact Hk).
    split; [discriminate|]. intros (Hallow & Htrans & Hboth).
    exfalso. apply Hnot. split; [assumption|]. split; [assumption|].
    rewrite advanced_is_heuristic. intros (Hr & _). now destruct Hboth.
  - rewrite Hd. eexists. split; [reflexivity|]. intros k Hk. unfold dict_has.
    rewrite chosen_fields
      by (try assumption; cbn in Hk;
          destruct Hk as [<-|[<-|[<-|[]]]]; reflexivity).
    pose proof (advanced_combined_fields env text k Hk) as Hiff.
    destruct Hchosen as (Hallow & Htrans & _).
    destruct (dict_get (fst (detect_ai_content_advanced env text)) k).
    + split; [intros _|reflexivity].
      split; [assumption|]. split; [assumption|]. apply Hiff. discriminate.
    + split; [discriminate|]. intros (_ & _ & Hboth).
      apply Hiff in Hboth. now contradiction Hboth.
Qed.

Lemma combined_fields_signal_witness :
  exists d,
    fst (analyze_ai_likelihood failing_env (Some ai_text)) = Ok d
    /\ forall k, In k combined_fields ->
       (dict_has d k = true
        <-> allow_advanced failing_env = true
            /\ transformers_available failing_env = true
            /\ detect_roberta failing_env ai_text <> None
            /\ detect_binoculars failing_env ai_text <> None).
Proof.
  apply (combined_fields_signal failing_env ai_text).
  intros H. vm_compute in H. discriminate.
Defined.

(** X15.  When the advanced detection is switched off, or [transformers]
    cannot be imported, the entry point calls the heuristics only: the
    result is the heuristic result with a [_debug] record, which tells why
    in [why_failed]. *)
Theorem advanced_detection_off (env : environment) (text : string) :
  ~ too_short (Some text) ->
  allow_advanced env = false \/ transformers_available env = false ->
  exists dbg why,
    analyze_ai_likelihood env (Some text)
    = (Ok (dict_set (detect_ai_content_simple env text) "_debug" (VDict dbg)),
       [CallSimple])
    /\ dict_get dbg "why_failed" = Some (VStr why)
    /\ why = (if allow_advanced env
              then "ImportError: " ++ str_exn env ImportError
              else "ALLOW_ADVANCED=0").
Proof.
  intros Hlong Hoff. unfold analyze_ai_likelihood.
  rewrite (gate_closed text Hlong).
  destruct (advanced_attempt_cases env text (initial_debug_info env))
    as [(dbg & calls & why & -> & Hwhy & _ & Hcase)|(dbg & _ & _ & Hchosen)].
  - exists dbg, why.
    destruct Hcase as [(Ha & -> & ->)|[(Ha & Ht & -> & ->)|(Ha & Ht & _)]].
    + rewrite Ha. repeat split. assumption.
    + rewrite Ha. repeat split. assumption.
    + destruct Hoff; congruence.
  - destruct Hchosen as (Ha & Ht & _). destruct Hoff; congruence.
Qed.

Lemma advanced_detection_off_witness :
  exists dbg why,
    analyze_ai_likelihood heuristics_only_env (Some ai_text)
    = (Ok (dict_set (detect_ai_content_simple heuristics_only_env ai_text)
                    "_debug" (VDict dbg)), [CallSimple])
    /\ dict_get dbg "why_failed" = Some (VStr why)
    /\ why = (if allow_advanced heuristics_only_env
              then "ImportError: " ++ str_exn heuristics_only_env ImportError
              else "ALLOW_ADVANCED=0").
Proof.
  apply (advanced_detection_off heuristics_only_env ai_text).
  - intros H. vm_compute in H. discriminate.
  - left. reflexivity.
Defined.

(** X16.  Past the length gate the result always has a [_debug] record.
    It has the [heuristic_score], [heuristic_indicators] and
    [heuristic_model] fields, copied from the heuristic result, exactly
    when the entry point takes the result of the advanced detection as its
    primary result; that is when the advanced detection is allowed,
    [transformers] can be imported, and a detector succeeded or the
    heuristics raised.  Otherwise the primary fields are the heuristic
    result's. *)
Theorem heuristic_fields (env : environment) (text : string) :
  ~ too_short (Some text) ->
  let h := detect_ai_content_simple env text in
  let adv := fst (detect_ai_content_advanced env text) in
  exists d,
    fst (analyze_ai_likelihood env (Some text)) = Ok d
    /\ dict_has d "_debug" = true
    /\ (dict_has d "heuristic_score" = true
        <-> allow_advanced env = true /\ transformers_available env = true
            /\ (detect_roberta env text <> None
                \/ detect_binoculars env text <> None
                \/ exists e, heuristic_scoring text = Raise e))
    /\ (dict_has d "heuristic_score" = true ->
        same_primary d adv
        /\ dict_get d "heuristic_score" = dict_get h "ai_likelihood"
        /\ dict_get d "heuristic_indicators" = dict_get h "indicators"
        /\ dict_get d "heuristic_model" = dict_get h "model")
    /\ (dict_has d "heuristic_score" = false -> same_primary d h).
Proof.
  intros Hlong h adv.
  assert (Hchosen_iff :
    advanced_chosen env text
    <-> allow_advanced env = true /\ transformers_available env = true
        /\ (detect_roberta env text <> None
            \/ detect_binoculars env text <> None
            \/ exists e, heuristic_scoring text = Raise e)).
  { unfold advanced_chosen. rewrite advanced_is_heuristic.
    split; intros (Ha & Ht & H); (split; [assumption|]);
      (split; [assumption|]).
    - destruct (detect_roberta env text); [left; discriminate|].
      destruct (detect_binoculars env text); [right; left; discriminate|].
      right. right. destruct (heuristic_scoring text) as [st|e] eqn:Hs;
        [|eauto].
      exfalso. apply H. repeat split. eauto.
    - intros (Hr & Hb & st & Hst).
      destruct H as [H|[H|[e He]]]; congruence. }
  destruct (analyze_forms env text Hlong)
    as [(Hnot & dbg & calls & Hd)
       |(Hchosen & dbg & a & c & i & m & n & hs & hi & hm & Da & Dc & Di & Dm
         & Dn & Ha & Hi & Hm & Hd)].
  - rewrite Hd. eexists. split; [reflexivity|]. fold h.
    assert (Hno : dict_has (dict_set h "_debug" (VDict dbg)) "heuristic_score"
                  = false).
    { unfold dict_has. rewrite dict_get_set_other by discriminate.
      subst h. rewrite simple_lacks_combined by (right; now left).
      reflexivity. }
    split; [unfold dict_has; now rewrite dict_get_set_same|].
    rewrite Hno. split; [|split; [discriminate|]].
    + split; [discriminate|]. intros H. apply Hchosen_iff in H. contradiction.
    + intros _. apply final_result_heuristic.
  - rewrite Hd. eexists. split; [reflexivity|].
    fold adv in Da, Dc, Di, Dm, Dn |- *. fold h in Ha, Hi, Hm.
    set (base := [("ai_likelihood", a); ("confidence", c); ("indicators", i);
                  ("model", m); ("note", n); ("heuristic_score", hs);
                  ("heuristic_indicators", hi); ("heuristic_model", hm);
                  ("_debug", VDict dbg)]).
    assert (Hkeep : forall k, ~ In k combined_fields ->
              dict_get (pass_through adv "individual_results"
                          (pass_through adv "binoculars_score"
                             (pass_through adv "roberta_score" base))) k
              = dict_get base k).
    { intros k Hk. rewrite !pass_through_other; [reflexivity|..];
        intros <-; apply Hk; cbn; tauto. }
    assert (Hnotin : forall k,
              In k ("_debug" :: "heuristic_score" :: "heuristic_indicators"
                    :: "heuristic_model" :: primary_fields) ->
              ~ In k combined_fields).
    { intros k Hk Hc. cbn in Hk, Hc.
      destruct Hc as [<-|[<-|[<-|[]]]];
        repeat (destruct Hk as [Hk|Hk]; [discriminate|]); contradiction. }
    unfold dict_has. rewrite !Hkeep by (apply Hnotin; cbn; tauto).
    split; [reflexivity|]. split; [|split; [|discriminate]].
    + split; [intros _; now apply Hchosen_iff | reflexivity].
    + intros _. split; [|repeat split; subst base; cbn; congruence].
      intros k Hk. rewrite Hkeep by (apply Hnotin; cbn in *; tauto).
      destruct (advanced_has_fields env text)
        as (? & ? & ? & ? & ? & _ & _ & _ & _ & _ & De). fold adv in De.
      cbn in Hk. destruct Hk as [<-|[<-|[<-|[<-|[<-|[<-|[]]]]]]];
        subst base; cbn; congruence.
Qed.

Lemma heuristic_fields_witness :
  exists d,
    fst (analyze_ai_likelihood failing_env (Some one_sentence_text)) = Ok d
    /\ dict_has d "_debug" = true.
Proof.
  destruct (heuristic_fields failing_env one_sentence_text) as (d & Hd & H & _).
  - intros H. vm_compute in H. discriminate.
  - exists d. split; assumption.
Defined.

(** ** The model cache, one call after the other *)

Lemma lookup_store_other (handle : Type) (c : ModelCache.cache handle)
  (k k' : string) (x : handle) :
  k <> k' ->
  ModelCache.lookup (ModelCache.store c k' x) k = ModelCache.lookup c k.
Proof.
  intros Hne. induction c as [|[k0 x0] c IH]; simpl.
  - destruct (String.eqb_spec k k'); [contradiction | reflexivity].
  - destruct (String.eqb_spec k' k0) as [->|Hne0]; simpl.
    + destruct (String.eqb_spec k k0); [contradiction | reflexivity].
    + destruct (String.eqb_spec k k0); [reflexivity | assumption].
Qed.

(** The three ways through the common body of the two cache functions. *)
Lemma get_cached_cases (handle : Type) (load : string -> result handle)
  (key name : string) (s : ModelCache.shared handle) :
  (exists x, ModelCache.lookup (ModelCache.entries s) key = Some x
             /\ ModelCache.get_cached load key name s = (Ok x, s))
  \/ (exists x, ModelCache.lookup (ModelCache.entries s) key = None
                /\ load name = Ok x
                /\ ModelCache.get_cached load key name s
                   = (Ok x,
                      {| ModelCache.entries :=
                           ModelCache.store (ModelCache.entries s) key x;
                         ModelCache.loads := (ModelCache.loads s ++ [key])%list |}))
  \/ (exists e, ModelCache.lookup (ModelCache.entries s) key = None
                /\ load name = Raise e
                /\ ModelCache.get_cached load key name s
                   = (Raise RuntimeError,
                      {| ModelCache.entries := ModelCache.entries s;
                         ModelCache.loads := (ModelCache.loads s ++ [key])%list |})).
Proof.
  unfold ModelCache.get_cached.
  destruct (ModelCache.lookup (ModelCache.entries s) key) as [x|] eqn:E.
  - left. exists x. split; reflexivity.
  - right. destruct (load name) as [x|e].
    + left. exists x. cbn [ModelCache.entries ModelCache.loads].
      rewrite lookup_store. repeat split.
    + right. exists e. repeat split.
Qed.

(** One call leaves every cached key with its handle, and logs no load of
    it. *)
Lemma get_cached_keeps (handle : Type) (load : string -> result handle)
  (key name : string) (s : ModelCache.shared handle) (k : string) (x : handle) :
  ModelCache.lookup (ModelCache.entries s) k = Some x ->
  let s' := snd (ModelCache.get_cached load key name s) in
  ModelCache.lookup (ModelCache.entries s') k = Some x
  /\ ModelCache.load_count k s' = ModelCache.load_count k s.
Proof.
  intros Hk s'. subst s'.
  assert (Hcount : ModelCache.lookup (ModelCache.entries s) key = None ->
            forall c : ModelCache.cache handle, ModelCache.load_count k
                        {| ModelCache.entries := c;
                           ModelCache.loads := (ModelCache.loads s ++ [key])%list |}
                      = ModelCache.load_count k s).
  { intros Hmiss c. unfold ModelCache.load_count. cbn [ModelCache.loads].
    rewrite count_occ_app. cbn [count_occ].
    destruct (string_dec key k) as [->|_]; [congruence | lia]. }
  destruct (get_cached_cases handle load key name s)
    as [(y & _ & ->)|[(y & Hmiss & _ & ->)|(e & Hmiss & _ & ->)]];
    cbn [snd ModelCache.entries].
  - split; [assumption | reflexivity].
  - split; [|now apply Hcount].
    rewrite lookup_store_other; [assumption | congruence].
  - split; [assumption | now apply Hcount].
Qed.

(** X17.  Nothing is ever evicted or replaced: whatever calls of
    [get_cached_model] and [get_cached_classifier] follow, with loads that
    succeed or fail, a key that is in the cache keeps its handle, is never
    loaded again, and a request for it is a hit that changes nothing. *)
Theorem cached_handles_persist (handle : Type)
  (load_causal_lm load_classifier load : string -> result handle)
  (reqs : list request) (s : ModelCache.shared handle)
  (k name : string) (x : handle) :
  ModelCache.lookup (ModelCache.entries s) k = Some x ->
  let s' := serve_all load_causal_lm load_classifier reqs s in
  ModelCache.lookup (ModelCache.entries s') k = Some x
  /\ ModelCache.load_count k s' = ModelCache.load_count k s
  /\ ModelCache.get_cached load k name s' = (Ok x, s').
Proof.
  intros Hk s'.
  assert (H : ModelCache.lookup (ModelCache.entries s') k = Some x
              /\ ModelCache.load_count k s' = ModelCache.load_count k s).
  { subst s'. revert s Hk. unfold serve_all.
    induction reqs as [|r reqs IH]; intros s Hk;
      [split; [exact Hk | reflexivity]|].
    cbn [fold_left].
    assert (Hstep :
      ModelCache.lookup
        (ModelCache.entries (serve load_causal_lm load_classifier s r)) k
      = Some x
      /\ ModelCache.load_count k (serve load_causal_lm load_classifier s r)
         = ModelCache.load_count k s).
    { destruct r as [n|n]; cbn [serve]; now apply get_cached_keeps. }
    destruct Hstep as [Hk' Hc'].
    destruct (IH _ Hk') as [H1 H2]. split; [assumption | congruence]. }
  destruct H as [H1 H2]. split; [assumption|]. split; [assumption|].
  unfold ModelCache.get_cached. now rewrite H1.
Qed.

Lemma cached_handles_persist_witness :
  let s := {| ModelCache.entries := [("gpt2", 7%nat)]; ModelCache.loads := ["gpt2"] |} in
  let s' := serve_all (fun _ => Ok 1%nat) (fun _ => Raise ImportError)
              [Classifier "gpt2"; Model "EleutherAI/gpt-neo-125M"; Model "gpt2"]
              s in
  ModelCache.lookup (ModelCache.entries s') "gpt2" = Some 7%nat
  /\ ModelCache.load_count "gpt2" s' = ModelCache.load_count "gpt2" s
  /\ ModelCache.get_cached (fun _ => Ok 2%nat) "gpt2" "gpt2" s' = (Ok 7%nat, s').
Proof.
  apply (cached_handles_persist nat (fun _ => Ok 1%nat) (fun _ => Raise ImportError)
           (fun _ => Ok 2%nat)
           [Classifier "gpt2"; Model "EleutherAI/gpt-neo-125M"; Model "gpt2"]
           {| ModelCache.entries := [("gpt2", 7%nat)]; ModelCache.loads := ["gpt2"] |}
           "gpt2" "gpt2" 7%nat).
  reflexivity.
Defined.

(** X18.  A load that fails is not remembered.  Whatever the loader
    raises, the call raises [RuntimeError] and leaves the cache as it was,
    so that each later call for the key starts the load again: after [n]
    failed calls the load has been started [n] times, and the next call
    fails in the same way. *)
Theorem failed_load_is_retried (handle : Type) (load : string -> result handle)
  (key name : string) (e : exn) (s : ModelCache.shared handle) (n : nat) :
  load name = Raise e ->
  ModelCache.lookup (ModelCache.entries s) key = None ->
  let s' := Nat.iter n (fun s => snd (ModelCache.get_cached load key name s)) s in
  fst (ModelCache.get_cached load key name s') = Raise RuntimeError
  /\ ModelCache.entries s' = ModelCache.entries s
  /\ ModelCache.loads s' = (ModelCache.loads s ++ repeat key n)%list.
Proof.
  intros Hload Hmiss s'.
  assert (H : ModelCache.entries s' = ModelCache.entries s
              /\ ModelCache.loads s' = (ModelCache.loads s ++ repeat key n)%list).
  { subst s'. induction n as [|n [IH1 IH2]].
    - cbn. now rewrite app_nil_r.
    - rewrite Nat.iter_succ. set (t := Nat.iter n _ s) in *.
      unfold ModelCache.get_cached. rewrite IH1, Hmiss, Hload.
      cbn [snd ModelCache.entries ModelCache.loads repeat].
      split; [reflexivity|].
      rewrite IH2, <- app_assoc. f_equal.
      now rewrite repeat_cons. }
  destruct H as [H1 H2]. split; [|split; assumption].
  unfold ModelCache.get_cached. now rewrite H1, Hmiss, Hload.
Qed.

Lemma failed_load_is_retried_witness :
  let s := {| ModelCache.entries := [("gpt2", tt)]; ModelCache.loads := ["gpt2"] |} in
  let s' := Nat.iter 3 (fun s => snd (ModelCache.get_cached
                                        (fun _ => Raise ImportError)
                                        "EleutherAI/gpt-neo-125M"
                                        "EleutherAI/gpt-neo-125M" s)) s in
  fst (ModelCache.get_cached (fun _ => Raise ImportError)
         "EleutherAI/gpt-neo-125M" "EleutherAI/gpt-neo-125M" s')
  = Raise RuntimeError
  /\ ModelCache.entries s' = ModelCache.entries s
  /\ ModelCache.loads s'
     = (ModelCache.loads s ++ repeat "EleutherAI/gpt-neo-125M" 3)%list.
Proof.
  apply (failed_load_is_retried unit (fun _ => Raise ImportError)
           "EleutherAI/gpt-neo-125M" "EleutherAI/gpt-neo-125M" ImportError
           {| ModelCache.entries := [("gpt2", tt)]; ModelCache.loads := ["gpt2"] |}
           3 eq_refl eq_refl).
Defined.

Lemma length_append (a b : string) :
  String.length (a ++ b) = (String.length a + String.length b)%nat.
Proof. induction a as [|c a IH]; simpl; [reflexivity | now rewrite IH]. Qed.

Lemma classifier_key_differs (n : string) : ModelCache.classifier_key n <> n.
Proof.
  intros H. apply (f_equal String.length) in H.
  unfold ModelCache.classifier_key in H. rewrite length_append in H.
  cbn in H. lia.
Qed.

(** X19.  The classifier's cache key is never the model name itself, so
    caching a classifier leaves every other key, that of the causal model
    of the same name among them, as it was.  The separation is by the key
    string only: a causal model asked for under the name
    ['classifier:' + name] finds the classifier's entry and returns it
    without a load. *)
Theorem classifier_key_separation (handle : Type)
  (load_causal_lm load_classifier : string -> result handle)
  (n : string) (x : handle) (s : ModelCache.shared handle) :
  ModelCache.lookup (ModelCache.entries s) (ModelCache.classifier_key n) = None ->
  load_classifier n = Ok x ->
  let s' := snd (ModelCache.get_cached_classifier load_classifier n s) in
  ModelCache.classifier_key n <> n
  /\ (forall k, k <> ModelCache.classifier_key n ->
        ModelCache.lookup (ModelCache.entries s') k
        = ModelCache.lookup (ModelCache.entries s) k)
  /\ fst (ModelCache.get_cached_model load_causal_lm n s')
     = fst (ModelCache.get_cached_model load_causal_lm n s)
  /\ ModelCache.get_cached_model load_causal_lm (ModelCache.classifier_key n) s'
     = (Ok x, s').
Proof.
  intros Hmiss Hload s'.
  assert (Hs' : s' = {| ModelCache.entries :=
                          ModelCache.store (ModelCache.entries s)
                            (ModelCache.classifier_key n) x;
                        ModelCache.loads :=
                          (ModelCache.loads s ++ [ModelCache.classifier_key n])%list |}).
  { subst s'. unfold ModelCache.get_cached_classifier, ModelCache.get_cached.
    rewrite Hmiss, Hload. reflexivity. }
  assert (Hother : forall k, k <> ModelCache.classifier_key n ->
            ModelCache.lookup (ModelCache.entries s') k
            = ModelCache.lookup (ModelCache.entries s) k).
  { intros k Hk. rewrite Hs'. cbn [ModelCache.entries].
    now apply lookup_store_other. }
  pose proof (classifier_key_differs n) as Hdiff.
  split; [assumption|]. split; [assumption|]. split.
  - assert (Hn : ModelCache.lookup (ModelCache.entries s') n
                 = ModelCache.lookup (ModelCache.entries s) n)
      by (apply Hother; congruence).
    unfold ModelCache.get_cached_model.
    destruct (get_cached_cases handle load_causal_lm n n s)
      as [(y & Hy & ->)|[(y & Hy & Hl & ->)|(e & Hy & Hl & ->)]];
    destruct (get_cached_cases handle load_causal_lm n n s')
      as [(y' & Hy' & ->)|[(y' & Hy' & Hl' & ->)|(e' & Hy' & Hl' & ->)]];
    cbn [fst]; congruence.
  - unfold ModelCache.get_cached_model, ModelCache.get_cached.
    rewrite Hs' at 1. cbn [ModelCache.entries]. now rewrite lookup_store.
Qed.

Lemma classifier_key_separation_witness :
  let s := {| ModelCache.entries := [("gpt2", 1%nat)]; ModelCache.loads := ["gpt2"] |} in
  let s' := snd (ModelCache.get_cached_classifier (fun _ => Ok 2%nat) "gpt2" s) in
  ModelCache.classifier_key "gpt2" <> "gpt2"
  /\ (forall k, k <> ModelCache.classifier_key "gpt2" ->
        ModelCache.lookup (ModelCache.entries s') k
        = ModelCache.lookup (ModelCache.entries s) k)
  /\ fst (ModelCache.get_cached_model (fun _ => Ok 3%nat) "gpt2" s')
     = fst (ModelCache.get_cached_model (fun _ => Ok 3%nat) "gpt2" s)
  /\ ModelCache.get_cached_model (fun _ => Ok 3%nat)
       (ModelCache.classifier_key "gpt2") s'
     = (Ok 2%nat, s').
Proof.
  apply (classifier_key_separation nat (fun _ => Ok 3%nat) (fun _ => Ok 2%nat)
           "gpt2" 2%nat
           {| ModelCache.entries := [("gpt2", 1%nat)]; ModelCache.loads := ["gpt2"] |}
           eq_refl eq_refl).
Defined.

(** What one call does to the cache and to the log of loads. *)
Lemma get_cached_effect (handle : Type) (load : string -> result handle)
  (key name : string) (s : ModelCache.shared handle) :
  let r := ModelCache.get_cached load key name s in
  (forall k, k <> key ->
     ModelCache.lookup (ModelCache.entries (snd r)) k
     = ModelCache.lookup (ModelCache.entries s) k)
  /\ ModelCache.loads (snd r)
     = (ModelCache.loads s ++ (if cached s key then [] else [key]))%list
  /\ (cached s key = true -> exists x, r = (Ok x, s))
  /\ match fst r with
     | Ok _ => cached (snd r) key = true
     | Raise _ =>
         cached s key = false
         /\ ModelCache.entries (snd r) = ModelCache.entries s
     end.
Proof.
  intros r. subst r. unfold cached.
  destruct (get_cached_cases handle load key name s)
    as [(y & Hy & ->)|[(y & Hy & _ & ->)|(e & Hy & _ & ->)]];
    cbn [fst snd ModelCache.entries ModelCache.loads]; rewrite ?Hy.
  - rewrite app_nil_r. repeat split. eauto.
  - rewrite lookup_store. repeat split; [|discriminate].
    intros k Hk. now apply lookup_store_other.
  - repeat split. discriminate.
Qed.

Lemma cached_same (handle : Type) (s s' : ModelCache.shared handle) (k : string) :
  ModelCache.lookup (ModelCache.entries s') k
  = ModelCache.lookup (ModelCache.entries s) k ->
  cached s' k = cached s k.
Proof. unfold cached. now intros ->. Qed.

(** X20.  [preload_models] returns [True] exactly when it leaves the
    classifier and the two causal models in the cache.  It then has
    started the loads of the keys that were missing, in the order of the
    calls, and no other; and a second [preload_models] finds the three
    keys, loads nothing and returns [True]. *)
Theorem preload_models_warms (handle : Type)
  (load_causal_lm load_classifier : string -> result handle)
  (s : ModelCache.shared handle) :
  let r := ModelCache.preload_models load_causal_lm load_classifier s in
  (fst r = true <-> forall k, In k preloaded_keys -> cached (snd r) k = true)
  /\ (fst r = true ->
      ModelCache.loads (snd r)
      = (ModelCache.loads s
         ++ filter (fun k => negb (cached s k)) preloaded_keys)%list
      /\ ModelCache.preload_models load_causal_lm load_classifier (snd r)
         = (true, snd r)).
Proof.
  intros r. subst r.
  unfold ModelCache.preload_models, ModelCache.get_cached_model,
    ModelCache.get_cached_classifier, preloaded_keys.
  set (n1 := "Hello-SimpleAI/chatgpt-detector-roberta").
  set (k1 := ModelCache.classifier_key n1).
  set (k2 := "gpt2"). set (k3 := "EleutherAI/gpt-neo-125M").
  assert (H12 : k1 <> k2) by discriminate.
  assert (H13 : k1 <> k3) by discriminate.
  assert (H23 : k2 <> k3) by discriminate.
  pose proof (get_cached_effect handle load_classifier k1 n1 s) as E1.
  destruct (ModelCache.get_cached load_classifier k1 n1 s) as [r1 s1].
  cbn [fst snd] in E1. destruct E1 as (O1 & L1 & _ & R1).
  destruct r1 as [x1|e1].
  2:{ cbn [fst snd]. destruct R1 as [R1 R1'].
      split; [|discriminate]. split; [discriminate|]. intros Hall.
      assert (Hk : cached s1 k1 = true) by (apply Hall; now left).
      unfold cached in Hk, R1. rewrite R1' in Hk. congruence. }
  pose proof (get_cached_effect handle load_causal_lm k2 k2 s1) as E2.
  destruct (ModelCache.get_cached load_causal_lm k2 k2 s1) as [r2 s2].
  cbn [fst snd] in E2. destruct E2 as (O2 & L2 & _ & R2).
  destruct r2 as [x2|e2].
  2:{ cbn [fst snd]. destruct R2 as [R2 R2'].
      split; [|discriminate]. split; [discriminate|]. intros Hall.
      assert (Hk : cached s2 k2 = true) by (apply Hall; right; now left).
      unfold cached in Hk, R2. rewrite R2' in Hk. congruence. }
  pose proof (get_cached_effect handle load_causal_lm k3 k3 s2) as E3.
  destruct (ModelCache.get_cached load_causal_lm k3 k3 s2) as [r3 s3].
  cbn [fst snd] in E3. destruct E3 as (O3 & L3 & _ & R3).
  destruct r3 as [x3|e3].
  2:{ cbn [fst snd]. destruct R3 as [R3 R3'].
      split; [|discriminate]. split; [discriminate|]. intros Hall.
      assert (Hk : cached s3 k3 = true)
        by (apply Hall; right; right; now left).
      unfold cached in Hk, R3. rewrite R3' in Hk. congruence. }
  cbn [fst snd].
  assert (C1 : cached s3 k1 = true).
  { rewrite <- R1. apply cached_same.
    rewrite O3, O2 by assumption. reflexivity. }
  assert (C2 : cached s3 k2 = true).
  { rewrite <- R2. apply cached_same. now rewrite O3. }
  split; [|intros _; split].
  - split; [intros _|reflexivity]. intros k [<-|[<-|[<-|[]]]]; assumption.
  - rewrite L3, L2, L1, <- !app_assoc. f_equal. cbn [filter].
    rewrite (cached_same handle s s1 k2) by (apply O1; congruence).
    rewrite (cached_same handle s s2 k3)
      by (rewrite O2, O1 by congruence; reflexivity).
    destruct (cached s k1), (cached s k2), (cached s k3); reflexivity.
  - destruct (get_cached_effect handle load_classifier k1 n1 s3)
      as (_ & _ & Hit1 & _).
    destruct (Hit1 C1) as [y1 ->].
    destruct (get_cached_effect handle load_causal_lm k2 k2 s3)
      as (_ & _ & Hit2 & _).
    destruct (Hit2 C2) as [y2 ->].
    destruct (get_cached_effect handle load_causal_lm k3 k3 s3)
      as (_ & _ & Hit3 & _).
    destruct (Hit3 R3) as [y3 ->]. reflexivity.
Qed.

(** ** The model cache, two callers on a warm cache *)

Lemma warm_step (handle : Type) (load_causal_lm : string -> result handle)
  (k : string) (x : handle) (s : ModelCache.shared handle) (n : nat) :
  ModelCache.lookup (ModelCache.entries s) k = Some x ->
  ModelCache.step load_causal_lm k s (pc_after x n) = (s, pc_after x (S n)).
Proof.
  intros Hk. destruct n as [|[|n]]; cbn [pc_after ModelCache.step];
    rewrite ?Hk; reflexivity.
Qed.

Lemma warm_run (handle : Type) (load_causal_lm : string -> result handle)
  (k : string) (x : handle) (s : ModelCache.shared handle)
  (schedule : list bool) :
  ModelCache.lookup (ModelCache.entries s) k = Some x ->
  forall a b,
  ModelCache.run load_causal_lm k schedule
    {| ModelCache.mem := s; ModelCache.first := pc_after x a;
       ModelCache.second := pc_after x b |}
  = {| ModelCache.mem := s;
       ModelCache.first := pc_after x (a + count_occ bool_dec schedule true);
       ModelCache.second := pc_after x (b + count_occ bool_dec schedule false) |}.
Proof.
  intros Hk. unfold ModelCache.run.
  induction schedule as [|who schedule IH]; intros a b.
  - cbn. now rewrite !Nat.add_0_r.
  - cbn [fold_left]. unfold ModelCache.turn at 2.
    cbn [ModelCache.mem ModelCache.first ModelCache.second].
    destruct who; rewrite (warm_step handle load_causal_lm k x s _ Hk), IH.
    + rewrite count_occ_cons_eq, count_occ_cons_neq by congruence.
      now rewrite Nat.add_succ_r.
    + rewrite count_occ_cons_neq, count_occ_cons_eq by congruence.
      now rewrite Nat.add_succ_r.
Qed.

(** X21.  On a warm cache two overlapping callers of [get_cached_model] do
    not disturb each other.  Whatever the interleaving, and whether or not
    a load would succeed, the shared state stays as it was (no load, no
    store); a caller has tested the cache after one of its statements and
    has returned the cached handle after two. *)
Theorem warm_cache_callers (handle : Type)
  (load_causal_lm : string -> result handle) (k : string) (x : handle)
  (c : ModelCache.cache handle) (schedule : list bool) :
  ModelCache.lookup c k = Some x ->
  let final := ModelCache.run load_causal_lm k schedule (ModelCache.start c) in
  ModelCache.mem final = ModelCache.mem (ModelCache.start c)
  /\ ModelCache.first final = pc_after x (count_occ bool_dec schedule true)
  /\ ModelCache.second final = pc_after x (count_occ bool_dec schedule false)
  /\ (ModelCache.finished final = true
      <-> (2 <= count_occ bool_dec schedule true)%nat
          /\ (2 <= count_occ bool_dec schedule false)%nat).
Proof.
  intros Hk final. subst final. unfold ModelCache.start.
  change (@ModelCache.AtCheck handle) with (pc_after x 0).
  rewrite (warm_run handle load_causal_lm k x
             {| ModelCache.entries := c; ModelCache.loads := [] |}
             schedule Hk 0 0).
  cbn [ModelCache.mem ModelCache.first ModelCache.second Nat.add].
  repeat split.
  - unfold ModelCache.finished in H.
    cbn [ModelCache.first] in H. apply andb_true_iff in H as [H _].
    destruct (count_occ bool_dec schedule true) as [|[|n]];
      [discriminate | discriminate | lia].
  - unfold ModelCache.finished in H.
    cbn [ModelCache.second] in H. apply andb_true_iff in H as [_ H].
    destruct (count_occ bool_dec schedule false) as [|[|n]];
      [discriminate | discriminate | lia].
  - intros [H1 H2]. unfold ModelCache.finished.
    cbn [ModelCache.first ModelCache.second].
    destruct (count_occ bool_dec schedule true) as [|[|n]]; [lia | lia |].
    destruct (count_occ bool_dec schedule false) as [|[|m]]; [lia | lia |].
    reflexivity.
Qed.

Lemma warm_cache_callers_witness :
  let final := ModelCache.run (fun _ => Raise ImportError) "gpt2"
                 [true; false; false; true] (ModelCache.start [("gpt2", tt)]) in
  ModelCache.mem final = ModelCache.mem (ModelCache.start [("gpt2", tt)])
  /\ ModelCache.first final
     = pc_after tt (count_occ bool_dec [true; false; false; true] true)
  /\ ModelCache.second final
     = pc_after tt (count_occ bool_dec [true; false; false; true] false)
  /\ (ModelCache.finished final = true
      <-> (2 <= count_occ bool_dec [true; false; false; true] true)%nat
          /\ (2 <= count_occ bool_dec [true; false; false; true] false)%nat).
Proof.
  apply (warm_cache_callers unit (fun _ => Raise ImportError) "gpt2" tt
           [("gpt2", tt)] [true; false; false; true] eq_refl).
Defined.

(** ** The model cache, two callers and a load that fails *)

Lemma failing_step (handle : Type) (load_causal_lm : string -> result handle)
  (k : string) (e : exn) (s : ModelCache.shared handle) (n : nat) :
  ModelCache.lookup (ModelCache.entries s) k = None ->
  load_causal_lm k = Raise e ->
  let '(s', p) := ModelCache.step load_causal_lm k s (pc_failed n) in
  p = pc_failed (S n)
  /\ ModelCache.entries s' = ModelCache.entries s
  /\ (ModelCache.load_count k s' + Nat.min 1 (n - 1)
      = ModelCache.load_count k s + Nat.min 1 (S n - 1))%nat.
Proof.
  intros Hk Hload. destruct n as [|[|n]]; cbn [pc_failed ModelCache.step];
    rewrite ?Hk, ?Hload.
  - repeat split; cbn; lia.
  - repeat split. rewrite load_count_logged. cbn. lia.
  - repeat split; cbn; lia.
Qed.

Lemma failing_run (handle : Type) (load_causal_lm : string -> result handle)
  (k : string) (e : exn) (schedule : list bool) :
  load_causal_lm k = Raise e ->
  forall (conf : ModelCache.config handle) a b,
  ModelCache.lookup (ModelCache.entries (ModelCache.mem conf)) k = None ->
  ModelCache.first conf = pc_failed a ->
  ModelCache.second conf = pc_failed b ->
  let final := ModelCache.run load_causal_lm k schedule conf in
  ModelCache.entries (ModelCache.mem final)
  = ModelCache.entries (ModelCache.mem conf)
  /\ ModelCache.first final
     = pc_failed (a + count_occ bool_dec schedule true)
  /\ ModelCache.second final
     = pc_failed (b + count_occ bool_dec schedule false)
  /\ (ModelCache.load_count k (ModelCache.mem final)
      + Nat.min 1 (a - 1) + Nat.min 1 (b - 1)
      = ModelCache.load_count k (ModelCache.mem conf)
        + Nat.min 1 (a + count_occ bool_dec schedule true - 1)
        + Nat.min 1 (b + count_occ bool_dec schedule false - 1))%nat.
Proof.
  intros Hload. unfold ModelCache.run.
  induction schedule as [|who schedule IH]; intros conf a b Hk Ha Hb.
  - cbn. rewrite !Nat.add_0_r. repeat split; assumption.
  - cbn [fold_left]. cbv zeta.
    destruct who.
    + rewrite count_occ_cons_eq, count_occ_cons_neq by congruence.
      pose proof (failing_step handle load_causal_lm k e (ModelCache.mem conf)
                    a Hk Hload) as Hstep.
      unfold ModelCache.turn at 2 4 6 8. rewrite Ha.
      destruct (ModelCache.step load_causal_lm k (ModelCache.mem conf)
                  (pc_failed a)) as [s' p].
      destruct Hstep as (Hp & He & Hc).
      destruct (IH {| ModelCache.mem := s'; ModelCache.first := p;
                      ModelCache.second := ModelCache.second conf |}
                  (S a) b) as (I1 & I2 & I3 & I4);
        cbn [ModelCache.mem ModelCache.first ModelCache.second];
        [congruence | assumption | assumption |].
      cbn [ModelCache.mem] in I1, I4.
      rewrite Nat.add_succ_r. cbn [Nat.add] in I2, I4.
      split; [congruence|]. split; [assumption|]. split; [assumption|]. lia.
    + rewrite count_occ_cons_neq, count_occ_cons_eq by congruence.
      pose proof (failing_step handle load_causal_lm k e (ModelCache.mem conf)
                    b Hk Hload) as Hstep.
      unfold ModelCache.turn at 2 4 6 8. rewrite Hb.
      destruct (ModelCache.step load_causal_lm k (ModelCache.mem conf)
                  (pc_failed b)) as [s' p].
      destruct Hstep as (Hp & He & Hc).
      destruct (IH {| ModelCache.mem := s'; ModelCache.first := ModelCache.first conf;
                      ModelCache.second := p |}
                  a (S b)) as (I1 & I2 & I3 & I4);
        cbn [ModelCache.mem ModelCache.first ModelCache.second];
        [congruence | assumption | assumption |].
      cbn [ModelCache.mem] in I1, I4.
      rewrite Nat.add_succ_r. cbn [Nat.add] in I3, I4.
      split; [congruence|]. split; [assumption|]. split; [assumption|]. lia.
Qed.

(** X22.  A failed load is not shared between overlapping callers.  When
    the key is missing and its load raises, then under every interleaving
    the cache keeps its entries, each caller starts a load of its own with
    its second statement and ends with [RuntimeError]: when both have
    finished the load has been started twice. *)
Theorem failing_load_callers (handle : Type)
  (load_causal_lm : string -> result handle) (k : string) (e : exn)
  (c : ModelCache.cache handle) (schedule : list bool) :
  ModelCache.lookup c k = None ->
  load_causal_lm k = Raise e ->
  let final := ModelCache.run load_causal_lm k schedule (ModelCache.start c) in
  ModelCache.entries (ModelCache.mem final) = c
  /\ ModelCache.first final = pc_failed (count_occ bool_dec schedule true)
  /\ ModelCache.second final = pc_failed (count_occ bool_dec schedule false)
  /\ (ModelCache.load_count k (ModelCache.mem final)
      = Nat.min 1 (count_occ bool_dec schedule true - 1)
        + Nat.min 1 (count_occ bool_dec schedule false - 1))%nat
  /\ (ModelCache.finished final = true ->
      ModelCache.first final = ModelCache.Returned (Raise RuntimeError)
      /\ ModelCache.second final = ModelCache.Returned (Raise RuntimeError)
      /\ ModelCache.load_count k (ModelCache.mem final) = 2%nat).
Proof.
  intros Hk Hload final.
  destruct (failing_run handle load_causal_lm k e schedule Hload
              (ModelCache.start c) 0 0 Hk eq_refl eq_refl)
    as (H1 & H2 & H3 & H4).
  fold final in H1, H2, H3, H4. cbn [Nat.add] in H2, H3, H4.
  change (ModelCache.entries (ModelCache.mem (ModelCache.start c))) with c in H1.
  change (ModelCache.load_count k (ModelCache.mem (ModelCache.start c)))
    with 0%nat in H4.
  split; [assumption|]. split; [assumption|]. split; [assumption|].
  split; [lia|].
  unfold ModelCache.finished. rewrite H2, H3. intros Hfin.
  apply andb_true_iff in Hfin as [F1 F2].
  destruct (count_occ bool_dec schedule true) as [|[|n]];
    [discriminate | discriminate |].
  destruct (count_occ bool_dec schedule false) as [|[|m]];
    [discriminate | discriminate |].
  repeat split. lia.
Qed.

Lemma failing_load_callers_witness :
  let final := ModelCache.run (fun _ => Raise ImportError) "gpt2"
                 [true; false; false; true]
                 (ModelCache.start [("EleutherAI/gpt-neo-125M", tt)]) in
  ModelCache.entries (ModelCache.mem final) = [("EleutherAI/gpt-neo-125M", tt)]
  /\ ModelCache.first final
     = pc_failed (count_occ bool_dec [true; false; false; true] true)
  /\ ModelCache.second final
     = pc_failed (count_occ bool_dec [true; false; false; true] false)
  /\ (ModelCache.load_count "gpt2" (ModelCache.mem final)
      = Nat.min 1 (count_occ bool_dec [true; false; false; true] true - 1)
        + Nat.min 1 (count_occ bool_dec [true; false; false; true] false - 1))%nat
  /\ (ModelCache.finished final = true ->
      ModelCache.first final = ModelCache.Returned (Raise RuntimeError)
      /\ ModelCache.second final = ModelCache.Returned (Raise RuntimeError)
      /\ ModelCache.load_count "gpt2" (ModelCache.mem final) = 2%nat).
Proof.
  apply (failing_load_callers unit (fun _ => Raise ImportError) "gpt2"
           ImportError [("EleutherAI/gpt-neo-125M", tt)]
           [true; false; false; true] eq_refl eq_refl).
Defined.

(** ** The ensemble score *)

Open Scope R_scope.

Lemma round_2_idempotent (x : R) : round (round x 2) 2 = round x 2.
Proof.
  unfold round at 2 3. replace (10 ^ 2) with 100 by (simpl; lra).
  apply round_2_value.
  replace (IZR (round_half_even (x * 100)) / 100 * 100
           - IZR (round_half_even (x * 100))) with 0 by field.
  rewrite Rabs_R0. lra.
Qed.

(** X23.  The ensemble never leaves the range of its two detectors: when
    both succeed, the combined [ai_likelihood] lies between the
    classifier's score and the perplexity score, which the result reports
    as [roberta_score] and [binoculars_score], and equals them when they
    agree. *)
Theorem ensemble_between (env : environment) (text : string) (r b : dict) :
  detect_roberta env text = Some r -> detect_binoculars env text = Some b ->
  exists c_score p_score combined,
    let d := fst (detect_ai_content_advanced env text) in
    dict_get r "ai_likelihood" = Some (VFloat c_score)
    /\ dict_get b "ai_likelihood" = Some (VFloat p_score)
    /\ dict_get d "roberta_score" = Some (VFloat c_score)
    /\ dict_get d "binoculars_score" = Some (VFloat p_score)
    /\ dict_get d "ai_likelihood" = Some (VFloat combined)
    /\ Rmin c_score p_score <= combined <= Rmax c_score p_score
    /\ (c_score = p_score -> combined = c_score).
Proof.
  intros Hr Hb.
  destruct (advanced_both_succeed env text r b Hr Hb)
    as (rs & bs & ri & bi & Hrs & Hbs & _ & _ & Hadv).
  destruct (detect_roberta_shape env text r Hr)
    as (? & ? & rstats & ? & ? & ? & ? & _ & _ & _ & _ & _ & Hrshape).
  destruct (detect_binoculars_shape env text b Hb)
    as (? & ? & bstats & ? & ? & ? & ? & _ & _ & _ & _ & _ & Hbshape).
  assert (Hrfix : round rs 2 = rs).
  { rewrite Hrshape in Hrs. cbn in Hrs. injection Hrs as <-.
    apply round_2_idempotent. }
  assert (Hbfix : round bs 2 = bs).
  { rewrite Hbshape in Hbs. cbn in Hbs. injection Hbs as <-.
    apply round_2_idempotent. }
  exists rs, bs, (round (rs * 0.6 + bs * 0.4) 2). cbv zeta. rewrite Hadv.
  cbn [fst dict_get String.eqb Ascii.eqb Bool.eqb].
  split; [assumption|]. split; [assumption|]. do 3 (split; [reflexivity|]).
  split; [split|].
  - unfold Rmin. destruct (Rle_dec rs bs).
    + rewrite <- Hrfix at 1. apply round_monotone. lra.
    + rewrite <- Hbfix at 1. apply round_monotone. lra.
  - unfold Rmax. destruct (Rle_dec rs bs).
    + rewrite <- Hbfix at 2. apply round_monotone. lra.
    + rewrite <- Hrfix at 2. apply round_monotone. lra.
  - intros <-. rewrite <- Hrfix at 3. f_equal. lra.
Qed.

Lemma ensemble_between_witness :
  exists c_score p_score combined,
    let d := fst (detect_ai_content_advanced sample_env "hello") in
    dict_get d "roberta_score" = Some (VFloat c_score)
    /\ dict_get d "binoculars_score" = Some (VFloat p_score)
    /\ dict_get d "ai_likelihood" = Some (VFloat combined)
    /\ Rmin c_score p_score <= combined <= Rmax c_score p_score.
Proof.
  destruct sample_detectors as (r & b & Hr & Hb & _).
  destruct (ensemble_between sample_env "hello" r b Hr Hb)
    as (c_score & p_score & combined & _ & _ & H1 & H2 & H3 & H4 & _).
  exists c_score, p_score, combined. repeat split; assumption || apply H4.
Defined.

Close Scope R_scope.
